(** * stoatbot.js voice player: a shallow embedding of [AudioPlayer]

    The development follows [src/voice/player.ts] (the [AudioPlayer] class)
    method by method.  JavaScript numbers are IEEE-754 binary64 values
    (the standard library's [spec_float]); typed arrays live in a heap of
    [Int16Array] objects addressed by reference, so that aliasing (the
    identity fast path of [applyVolume]) and mutation are visible;
    asynchronous methods run in a monad threading the player object, the
    heap and the chronological trace of externally visible actions, and
    ending in a settled or a never-settled promise. *)

From Stdlib Require Import ZArith Lia Bool List.
From Stdlib Require Import Floats.SpecFloat.
From stdpp Require Import base option list strings pretty.

Local Open Scope Z_scope.

(* ===================================================================== *)
(** ** JavaScript numbers *)
(* ===================================================================== *)

Module Number.

Definition prec : Z := 53.
Definition emax : Z := 1024.

(** A JS [number]: an IEEE-754 double. *)
Definition number : Type := spec_float.

(** An integer literal, or an [Int16Array] element read as a number. *)
Definition of_Z (z : Z) : number := binary_normalize prec emax z 0 false.

Definition NaN : number := S754_nan.
Definition zero : number := S754_zero false.
Definition one : number := of_Z 1.
Definition two : number := of_Z 2.
(** The literal [0.1]: the double nearest to one tenth. *)
Definition one_tenth : number := SFdiv prec emax (of_Z 1) (of_Z 10).

Definition mul : number -> number -> number := SFmul prec emax.
Definition add : number -> number -> number := SFadd prec emax.
Definition sub : number -> number -> number := SFsub prec emax.

(** The mathematical value of a finite number is [m * 2^e] for the
    signed mantissa [m]: ECMAScript compares numbers by that value. *)
Definition signed (s : bool) (m : positive) : Z :=
  if s then Z.neg m else Z.pos m.

Definition compare_dyadic (m1 e1 m2 e2 : Z) : comparison :=
  let e := Z.min e1 e2 in
  Z.compare (m1 * 2 ^ (e1 - e)) (m2 * 2 ^ (e2 - e)).

(** [compare x y] is [None] when either side is NaN (every relational
    operator is then false); the two zeros are equal. *)
Definition compare (x y : number) : option comparison :=
  match x, y with
  | S754_nan, _ | _, S754_nan => None
  | S754_infinity s1, S754_infinity s2 =>
      Some (match s1, s2 with
            | true, false => Lt
            | false, true => Gt
            | _, _ => Eq
            end)
  | S754_infinity s, _ => Some (if s then Lt else Gt)
  | _, S754_infinity s => Some (if s then Gt else Lt)
  | S754_zero _, S754_zero _ => Some Eq
  | S754_zero _, S754_finite s _ _ => Some (if s then Gt else Lt)
  | S754_finite s _ _, S754_zero _ => Some (if s then Lt else Gt)
  | S754_finite s1 m1 e1, S754_finite s2 m2 e2 =>
      Some (compare_dyadic (signed s1 m1) e1 (signed s2 m2) e2)
  end.

(** [x === y] on numbers. *)
Definition strict_eq (x y : number) : bool :=
  match compare x y with Some Eq => true | _ => false end.

Definition lt (x y : number) : bool :=
  match compare x y with Some Lt => true | _ => false end.

Definition le (x y : number) : bool :=
  match compare x y with Some (Lt | Eq) => true | _ => false end.

Definition is_nan (x : number) : bool :=
  match x with S754_nan => true | _ => false end.

(** [Math.max(a, b)]: NaN if either is NaN; [+0] is larger than [-0]. *)
Definition Math_max (a b : number) : number :=
  if is_nan a || is_nan b then NaN
  else if lt a b then b
  else if lt b a then a
  else match a, b with
       | S754_zero true, S754_zero false => b
       | _, _ => a
       end.

(** [Math.min(a, b)]: NaN if either is NaN; [-0] is smaller than [+0]. *)
Definition Math_min (a b : number) : number :=
  if is_nan a || is_nan b then NaN
  else if lt a b then a
  else if lt b a then b
  else match a, b with
       | S754_zero false, S754_zero true => b
       | _, _ => a
       end.

(** The integer nearest to a finite number, ties towards [+∞]:
    [floor (x + 1/2)], computed exactly on [m * 2^e]. *)
Definition round_half_up (s : bool) (m : positive) (e : Z) : Z :=
  if 0 <=? e then signed s m * 2 ^ e
  else (2 * signed s m + 2 ^ (- e)) / 2 ^ (1 - e).

(** [Math.round(x)].  NaN, the infinities and the zeros are returned as
    they are, and so is a number without fractional bits; a result that
    rounds to zero keeps the sign of [x]. *)
Definition Math_round (x : number) : number :=
  match x with
  | S754_finite s m e =>
      if 0 <=? e then x
      else match round_half_up s m e with
           | Z0 => S754_zero s
           | Zpos n => S754_finite false n 0
           | Zneg n => S754_finite true n 0
           end
  | _ => x
  end.

(** Truncation towards zero of a finite number. *)
Definition truncate (s : bool) (m : positive) (e : Z) : Z :=
  let a := if 0 <=? e then Z.pos m * 2 ^ e else Z.pos m / 2 ^ (- e) in
  if s then - a else a.

(** [ToInt16], the conversion applied by a store into an [Int16Array]:
    NaN, the infinities and the zeros give 0; anything else is truncated
    and wrapped modulo [2^16] into [-32768, 32767]. *)
Definition ToInt16 (x : number) : Z :=
  match x with
  | S754_finite s m e =>
      let int16bit := truncate s m e mod 65536 in
      if 32768 <=? int16bit then int16bit - 65536 else int16bit
  | _ => 0
  end.

End Number.

Export Number.

(* ===================================================================== *)
(** ** Values exchanged with the collaborators *)
(* ===================================================================== *)

(** A thrown value.  [joinError] in [connect] is typed [any]: it may or
    may not be an [Error], may lack a [message], and may carry
    [response.data.type]. *)
Record JsError : Type := mkJsError {
  instanceof_Error : bool;
  message : option string;
  response_data_type : option string;
  (** what [String(value)] returns *)
  to_String : string;
}.

Definition new_Error (msg : string) : JsError :=
  {| instanceof_Error := true; message := Some msg;
     response_data_type := None; to_String := "Error: " +:+ msg |}.

(** [error instanceof Error ? error : new Error(String(error))] *)
Definition as_Error (e : JsError) : JsError :=
  if instanceof_Error e then e else new_Error (to_String e).

(** [haystack.includes(needle)] *)
Definition includes (haystack needle : string) : bool :=
  match String.index 0 needle haystack with
  | Some _ => true
  | None => false
  end.

(** [value?.includes(needle)] in a condition: [undefined] is falsy. *)
Definition opt_includes (haystack : option string) (needle : string) : bool :=
  match haystack with
  | Some h => includes h needle
  | None => false
  end.

(** A [Readable]: the bytes it carries are known to the collaborators only. *)
Record Readable : Type := mkReadable { stream_id : nat }.

(** The argument of [play], [convertAudioToPCM]: [string | Readable]. *)
Inductive Input : Type :=
| In_string (s : string)
| In_stream (r : Readable).

(** Handles of the voice-relay transport. *)
Definition Room : Type := nat.
Definition AudioSource : Type := nat.
Record LocalTrackPublication : Type := mkPublication {
  sid : string;
  (** [typeof publication.setMuted === "function"] *)
  pub_has_setMuted : bool;
}.

(** A reference to an [Int16Array] of the heap. *)
Definition Int16Array : Type := nat.

(** The events of [AudioPlayerEvents].  The [data] object of a [debug]
    event is not recorded, its message is. *)
Inductive Event : Type :=
| Ev_connected (channelId serverId : string) (roomName : option string)
| Ev_disconnected (channelId serverId reason : string)
| Ev_audioStart (source type : string)
| Ev_audioEnd (source type : string)
(** [playFromUrl] passes an object as second argument, and
    [playStreamingAudio] the [AudioSource] that shadows its [source]
    parameter as first. *)
| Ev_audioEnd_url (source url : string)
| Ev_audioEnd_source (source : AudioSource) (type : string)
| Ev_audioError (source type : string) (error : JsError)
| Ev_volumeChanged (oldVolume newVolume : number)
| Ev_muted (previousVolume : number)
| Ev_unmuted (newVolume : number)
| Ev_trackPublished (trackId : string)
| Ev_trackStopped (trackId : string)
| Ev_conversionStart (source : string) (sampleRate channels : Z)
| Ev_conversionEnd (source : string) (samplesProcessed : nat)
| Ev_conversionError (source : string) (error : JsError)
| Ev_debug (message : string)
| Ev_error (error : JsError) (context : string).

(** What the host or the transport does while a playback is suspended at
    an [await]: the host calls [stop], the room reports [Disconnected],
    or another playback of the same player reaches the reset of the flags
    at its entry ([playFromStream] and [playFromFile] lower [isStreaming],
    [playStreamingAudio] raises it).  Of that other playback only the
    reset is followed. *)
Inductive Interrupt : Type :=
| Host_stop (trackName : option string)
| Transport_disconnected
| Playback_begins (live : bool).

(** Listeners the player registers on itself with
    [this.once("disconnected", ...)]. *)
Inductive OnceListener : Type :=
| Stop_streaming
| Stop_streaming_and_kill_ffmpeg.

(** Externally visible actions, in the order the player performs them. *)
Inductive Action : Type :=
| Emit (e : Event)
| Console_error (text : string) (detail : option JsError)
(** [console.error(text, error.message)] *)
| Console_error_message (text : string) (detail : option string)
| Console_warn (text : string)
| Api_post (path node : string) (force : bool)
| Api_delete (path : string)
| Room_new (r : Room)
| Room_on_Disconnected (r : Room)
| Room_connect (r : Room) (url token : string)
| Room_disconnect (r : Room)
| AudioSource_new (s : AudioSource) (sampleRate channels : Z)
| PublishTrack (r : Room) (s : AudioSource)
| UnpublishTrack (r : Room) (trackSid : string)
| Publication_setMuted (trackSid : string) (muted : bool)
| Track_setMuted (s : AudioSource) (muted : bool)
| Track_setEnabled (s : AudioSource) (enabled : bool)
| CaptureFrame (s : AudioSource) (data : list Z)
               (sampleRate channels samplesPerChannel : Z)
| SetTimeout (ms : Z)
| Spawn_ffmpeg (args : list string)
| Ffmpeg_kill
| NodeAV_convertAudioToPCM (input : Input) (sampleRate channels : Z)
| NodeAV_createAudioStream (input : Readable) (sampleRate channels : Z)
| FormatContext_new (input : Readable)
| FormatContext_read (input : Readable)
| CaptureFrame_settled (result : option JsError)
| Http_get (secure : bool) (url : string)
| Request_destroy
| Uncaught (e : JsError)
| Interrupted (i : Interrupt).

(* ===================================================================== *)
(** ** The player object, the heap and the monad *)
(* ===================================================================== *)

Record AudioPlayer : Type := mkAudioPlayer {
  channelId : string;
  serverId : string;
  _volume : number;
  room : option Room;
  (** [Map]s iterate in insertion order: association lists. *)
  publications : list (string * LocalTrackPublication);
  audioSources : list (string * AudioSource);
  isConnected : bool;
  shouldStop : bool;
  isStreaming : bool;
  once_disconnected : list OnceListener;
}.

(** [new AudioPlayer(channelId, serverId, client)] *)
Definition constructor (channelId serverId : string) : AudioPlayer :=
  {| channelId := channelId; serverId := serverId; _volume := one;
     room := None; publications := []; audioSources := [];
     isConnected := false; shouldStop := false; isStreaming := false;
     once_disconnected := [] |}.

(** [get connected()] *)
Definition connected (p : AudioPlayer) : bool :=
  isConnected p && bool_decide (is_Some (room p)).

(** [Map.prototype.set]: an existing key keeps its position. *)
Fixpoint Map_set {V : Type} (k : string) (v : V) (m : list (string * V))
  : list (string * V) :=
  match m with
  | [] => [(k, v)]
  | (k', v') :: m' =>
      if String.eqb k' k then (k, v) :: m' else (k', v') :: Map_set k v m'
  end.

Fixpoint Map_get {V : Type} (k : string) (m : list (string * V)) : option V :=
  match m with
  | [] => None
  | (k', v') :: m' => if String.eqb k' k then Some v' else Map_get k m'
  end.

Definition Map_delete {V : Type} (k : string) (m : list (string * V))
  : list (string * V) :=
  filter (fun kv => negb (String.eqb (fst kv) k)) m.

Record World : Type := mkWorld {
  this : AudioPlayer;
  heap : list (list Z);
  trace : list Action;
}.

(** How a call ends: the promise resolves, rejects (or the synchronous
    code throws), or is never settled. *)
Inductive Outcome (A : Type) : Type :=
| Resolved (a : A)
| Rejected (e : JsError)
| Pending.
Arguments Resolved {A} a.
Arguments Rejected {A} e.
Arguments Pending {A}.

Definition M (A : Type) : Type := World -> Outcome A * World.

Definition ret {A : Type} (a : A) : M A := fun w => (Resolved a, w).

Definition bind {A B : Type} (m : M A) (k : A -> M B) : M B :=
  fun w =>
    match m w with
    | (Resolved a, w') => k a w'
    | (Rejected e, w') => (Rejected e, w')
    | (Pending, w') => (Pending, w')
    end.

Definition throw {A : Type} (e : JsError) : M A := fun w => (Rejected e, w).

(** A promise whose executor never calls [resolve] or [reject]. *)
Definition never {A : Type} : M A := fun w => (Pending, w).

(** [try { m } catch (e) { h e }] *)
Definition try_catch {A : Type} (m : M A) (h : JsError -> M A) : M A :=
  fun w =>
    match m w with
    | (Rejected e, w') => h e w'
    | r => r
    end.

Declare Scope player_scope.
Delimit Scope player_scope with player.
Notation "x <- m ;; k" := (bind m (fun x => k))
  (at level 100, m at next level, right associativity) : player_scope.
Notation "m ;; k" := (bind m (fun _ => k))
  (at level 100, right associativity) : player_scope.
Local Open Scope player_scope.

Definition get_this : M AudioPlayer := fun w => (Resolved (this w), w).

Definition modify_this (f : AudioPlayer -> AudioPlayer) : M unit :=
  fun w => (Resolved tt,
            {| this := f (this w); heap := heap w; trace := trace w |}).

Definition get_trace : M (list Action) := fun w => (Resolved (trace w), w).

Definition act (a : Action) : M unit :=
  fun w => (Resolved tt,
            {| this := this w; heap := heap w; trace := trace w ++ [a] |}).

Definition when (b : bool) (m : M unit) : M unit := if b then m else ret tt.

Arguments ret {A} a w /.
Arguments bind {A B} m k w /.
Arguments throw {A} e w /.
Arguments never {A} w /.
Arguments try_catch {A} m h w /.
Arguments get_this w /.
Arguments modify_this f w /.
Arguments get_trace w /.
Arguments act a w /.

(** Field updates of the player object. *)
Definition with_channelId (c : string) (p : AudioPlayer) : AudioPlayer :=
  mkAudioPlayer c (serverId p) (_volume p) (room p) (publications p)
    (audioSources p) (isConnected p) (shouldStop p) (isStreaming p)
    (once_disconnected p).
Definition with_volume (v : number) (p : AudioPlayer) : AudioPlayer :=
  mkAudioPlayer (channelId p) (serverId p) v (room p) (publications p)
    (audioSources p) (isConnected p) (shouldStop p) (isStreaming p)
    (once_disconnected p).
Definition with_room (r : option Room) (p : AudioPlayer) : AudioPlayer :=
  mkAudioPlayer (channelId p) (serverId p) (_volume p) r (publications p)
    (audioSources p) (isConnected p) (shouldStop p) (isStreaming p)
    (once_disconnected p).
Definition with_publications (m : list (string * LocalTrackPublication))
  (p : AudioPlayer) : AudioPlayer :=
  mkAudioPlayer (channelId p) (serverId p) (_volume p) (room p) m
    (audioSources p) (isConnected p) (shouldStop p) (isStreaming p)
    (once_disconnected p).
Definition with_audioSources (m : list (string * AudioSource))
  (p : AudioPlayer) : AudioPlayer :=
  mkAudioPlayer (channelId p) (serverId p) (_volume p) (room p)
    (publications p) m (isConnected p) (shouldStop p) (isStreaming p)
    (once_disconnected p).
Definition with_isConnected (b : bool) (p : AudioPlayer) : AudioPlayer :=
  mkAudioPlayer (channelId p) (serverId p) (_volume p) (room p)
    (publications p) (audioSources p) b (shouldStop p) (isStreaming p)
    (once_disconnected p).
Definition with_shouldStop (b : bool) (p : AudioPlayer) : AudioPlayer :=
  mkAudioPlayer (channelId p) (serverId p) (_volume p) (room p)
    (publications p) (audioSources p) (isConnected p) b (isStreaming p)
    (once_disconnected p).
Definition with_isStreaming (b : bool) (p : AudioPlayer) : AudioPlayer :=
  mkAudioPlayer (channelId p) (serverId p) (_volume p) (room p)
    (publications p) (audioSources p) (isConnected p) (shouldStop p) b
    (once_disconnected p).
Definition with_once_disconnected (l : list OnceListener) (p : AudioPlayer)
  : AudioPlayer :=
  mkAudioPlayer (channelId p) (serverId p) (_volume p) (room p)
    (publications p) (audioSources p) (isConnected p) (shouldStop p)
    (isStreaming p) l.

(** *** The heap of typed arrays *)

(** [new Int16Array(data)]: a fresh object, existing references stay. *)
Definition alloc_Int16Array (data : list Z) : M Int16Array :=
  fun w => (Resolved (length (heap w)),
            {| this := this w; heap := heap w ++ [data]; trace := trace w |}).

Definition contents (h : list (list Z)) (a : Int16Array) : list Z :=
  default [] (h !! a).

Definition read_Int16Array (a : Int16Array) : M (list Z) :=
  fun w => (Resolved (contents (heap w) a), w).

(** [a[i]]: [undefined] outside the array. *)
Definition typed_get (a : Int16Array) (i : nat) : M (option Z) :=
  fun w => (Resolved (contents (heap w) a !! i), w).

(** [a[i] = x]: the number is converted by [ToInt16]; a store outside the
    array is ignored. *)
Definition typed_set (a : Int16Array) (i : nat) (x : number) : M unit :=
  fun w => (Resolved tt,
            {| this := this w;
               heap := alter (fun arr => <[i := ToInt16 x]> arr) a (heap w);
               trace := trace w |}).

(** [for (let i = 0; i < n; i++) body(i)], started at [i]. *)
Fixpoint for_upto (n : nat) (i : nat) (body : nat -> M unit) : M unit :=
  match n with
  | O => ret tt
  | S n' => body i ;; for_upto n' (S i) body
  end.

(* ===================================================================== *)
(** ** The collaborators *)
(* ===================================================================== *)

(** The answer of the signaling endpoint to [join_call]. *)
Record JoinResponse : Type := mkJoinResponse { token : string; url : string }.

(** [localParticipant.publishTrack] resolves with a publication or with
    nothing, or rejects. *)
Inductive PublishResult : Type :=
| Publish_ok (p : LocalTrackPublication)
| Publish_null
| Publish_throws (e : JsError).

(** What a spawned [ffmpeg] process and the stream piped into it do, in
    order, before the process closes. *)
Inductive ProcEvent : Type :=
| Stdout_data (bytes : list Z)
| Stderr_data (text : string)
| Proc_error (msg : string)
| Input_end
| Input_close
| Input_error (e : JsError).

Record ProcRun : Type := mkProcRun {
  proc_events : list ProcEvent;
  (** the exit code of the [close] event ([Some None] is a [null] code),
      or [None] when the process never closes *)
  proc_close : option (option Z);
}.

(** How the set-up of a node-av pipeline goes: [new FormatContext(stream)]
    or [formatContext.read()] may throw. *)
Inductive Setup : Type :=
| Setup_ok
| FormatContext_throws (error : JsError)
| Read_throws (error : JsError).

(** What happens, in order, while [createAudioStream] is awaited.  The
    pipelines of a playback are numbered in the order of the calls of
    [createAudioStream]; a decoder exists once node-av has reported an
    audio stream to the pipeline, and its events name the pipeline.  The
    frame of a [frame] event is given by what [convertFrameToTargetFormat]
    returns for it ([None] for [null]): the arithmetic of the resampler is
    not followed.  [Frame_settled n] is the transport settling the [n]-th
    of the frames it still holds. *)
Inductive LiveEvent : Type :=
| Av_frame (pipeline : nat) (convertedData : option (list number))
| Av_end (pipeline : nat)
| Av_error (pipeline : nat) (error : JsError)
| Source_error (error : JsError)
| Source_end
| Frame_settled (n : nat)
| Meanwhile (i : Interrupt).

(** One call of [createAudioStream]: its [isProcessing] variable, and how
    the promise it returned was settled, if it was: [resolve()] is
    [Some None], [reject(e)] is [Some (Some e)]. *)
Record Pipeline : Type := mkPipeline {
  isProcessing : bool;
  settled : option (option JsError);
}.

(** The pipelines set up by a live playback so far, and the promises of
    [captureFrame] that the transport has not settled yet, oldest first,
    each with the outcome it will have. *)
Record Live : Type := mkLive {
  pipelines : list Pipeline;
  in_flight : list (option JsError);
}.

Inductive HttpResult : Type :=
| Http_response (statusCode : Z) (content_type content_length : option string)
                (body : Readable)
| Http_request_error (e : JsError)
(** the 30 s timeout of the socket; [request.destroy()] then makes the
    request report an error, if any *)
| Http_timeout (destroyed : option JsError)
| Http_throws (e : JsError)
| Http_silent.

(** Everything the player does not decide itself.  A collaborator answers
    from what has happened so far: each oracle receives the trace at the
    moment of the call. *)
Record External : Type := mkExternal {
  (** [client.voiceOptions.nodes], each node with its optional [name] *)
  voiceOptions_nodes : option (list (option string));
  api_post : list Action -> string -> string -> bool -> JsError + JoinResponse;
  api_delete : list Action -> string -> option JsError;
  room_connect : list Action -> Room -> string -> string -> option JsError;
  room_name : list Action -> Room -> option string;
  room_disconnect : list Action -> Room -> option JsError;
  room_localParticipant : list Action -> Room -> bool;
  publishTrack : list Action -> Room -> AudioSource -> PublishResult;
  unpublishTrack : list Action -> Room -> string -> option JsError;
  (** [typeof track.setMuted], [typeof track.setEnabled] *)
  track_has_setMuted : bool;
  track_has_setEnabled : bool;
  setMuted_throws : list Action -> option JsError;
  setEnabled_throws : list Action -> option JsError;
  captureFrame : list Action -> AudioSource -> list Z -> option JsError;
  Date_now : list Action -> Z;
  isNodeAVAvailable : bool;
  (** how the promise of [nodeAVProcessor.convertAudioToPCM] settles: with
      the samples of its [Int16Array], with an error, or never *)
  nodeAV_convertAudioToPCM : list Action -> Input -> Outcome (list Z);
  (** node-av during [nodeAVProcessor.createAudioStream]: the set-up of
      the pipeline, and what happens while the call is awaited *)
  nodeAV_setup : list Action -> Readable -> Setup;
  live_events : list Action -> Readable -> list LiveEvent;
  ffmpeg : list Action -> list string -> ProcRun;
  (** [new URL(input).protocol], [None] when the constructor throws *)
  URL_protocol : string -> option string;
  (** [existsSync(input)], [None] when it throws *)
  existsSync : string -> option bool;
  String_toLowerCase : string -> string;
  (** [(x).toFixed(0)] *)
  Number_toFixed0 : number -> string;
  http_get : list Action -> bool -> string -> HttpResult;
  (** whether the host listens to [error]: an [EventEmitter] throws the
      error of an [error] event nobody listens to *)
  error_listener : bool;
  (** [util.inspect(value)] *)
  util_inspect : JsError -> string;
  (** what the host and the transport do during an [await] of a loop *)
  interrupts : list Action -> list Interrupt;
}.

(** [targetChannelId || this.channelId] *)
Definition channelToConnect (p : AudioPlayer) (targetChannelId : option string)
  : string :=
  match targetChannelId with
  | Some c => if String.eqb c "" then channelId p else c
  | None => channelId p
  end.

Section Player.

Context (ext : External).

(** ** Events *)

(** The listeners registered with [this.once("disconnected", ...)]. *)
Definition run_once_listener (l : OnceListener) : M unit :=
  match l with
  | Stop_streaming => modify_this (with_isStreaming false)
  | Stop_streaming_and_kill_ffmpeg =>
      modify_this (with_isStreaming false);; act Ffmpeg_kill
  end.

Fixpoint run_once_listeners (ls : list OnceListener) : M unit :=
  match ls with
  | [] => ret tt
  | l :: ls' => run_once_listener l;; run_once_listeners ls'
  end.

(** [this.emit(...)].  The listeners of the host are not modelled beyond
    the recorded [Emit]; the player's own [once] listeners run, and an
    [error] event without listener throws. *)
Definition emit (e : Event) : M unit :=
  act (Emit e);;
  match e with
  | Ev_error err _ =>
      if error_listener ext then ret tt
      else throw (if instanceof_Error err then err
                  else new_Error ("Unhandled error. (" +:+ util_inspect ext err
                                  +:+ ")"))
  | Ev_disconnected _ _ _ =>
      p <- get_this;;
      modify_this (with_once_disconnected []);;
      run_once_listeners (once_disconnected p)
  | _ => ret tt
  end.

Definition console_error (text : string) (detail : option JsError) : M unit :=
  act (Console_error text detail).

Definition once_disconnected_add (l : OnceListener) : M unit :=
  modify_this (fun p => with_once_disconnected (once_disconnected p ++ [l]) p).

(** ** Volume *)

Definition setVolume (level : number) : M unit :=
  p <- get_this;;
  let oldVolume := _volume p in
  modify_this (with_volume (Math_max zero (Math_min two level)));;
  p' <- get_this;;
  emit (Ev_debug ("Volume set to "
                  +:+ Number_toFixed0 ext (mul (_volume p') (of_Z 100))
                  +:+ "%"));;
  emit (Ev_volumeChanged oldVolume (_volume p')).

Definition increaseVolume (amount : option number) : M unit :=
  p <- get_this;;
  setVolume (add (_volume p) (default one_tenth amount)).

Definition decreaseVolume (amount : option number) : M unit :=
  p <- get_this;;
  setVolume (sub (_volume p) (default one_tenth amount)).

Definition mute : M unit :=
  p <- get_this;;
  let oldVolume := _volume p in
  setVolume zero;;
  emit (Ev_muted oldVolume).

Definition unmute : M unit :=
  p <- get_this;;
  if strict_eq (_volume p) zero then
    setVolume one;;
    emit (Ev_unmuted one)
  else ret tt.

(** [pcmData[i] * this._volume]: an index outside the array reads
    [undefined], whose product is NaN. *)
Definition scaled_sample (x : option Z) (volume : number) : number :=
  match x with
  | Some s => mul (of_Z s) volume
  | None => NaN
  end.

(** One pass of the loop of [applyVolume]. *)
Definition applyVolume_pass (pcmData result : Int16Array) (i : nat) : M unit :=
  x <- typed_get pcmData i;;
  p <- get_this;;
  let sample := scaled_sample x (_volume p) in
  typed_set result i
    (Math_max (of_Z (-32768)) (Math_min (of_Z 32767) (Math_round sample))).

Definition applyVolume (pcmData : Int16Array) : M Int16Array :=
  p <- get_this;;
  if strict_eq (_volume p) one then ret pcmData
  else
    data <- read_Int16Array pcmData;;
    result <- alloc_Int16Array (replicate (length data) 0);;
    for_upto (length data) 0 (applyVolume_pass pcmData result);;
    ret result.

(** ** Input classification *)

Definition isUrl (input : string) : bool :=
  match URL_protocol ext input with
  | Some protocol => String.eqb protocol "http:" || String.eqb protocol "https:"
  | None => false
  end.

Definition isFilePath (input : string) : bool :=
  match existsSync ext input with
  | Some b => b
  | None => false
  end.

(** ** Tracks and the connection *)

(** [await this.room.localParticipant?.unpublishTrack(sid)] *)
Definition unpublish (trackSid : string) : M unit :=
  p <- get_this;;
  match room p with
  | None =>
      throw (new_Error
        "Cannot read properties of undefined (reading 'localParticipant')")
  | Some r =>
      t <- get_trace;;
      if room_localParticipant ext t r then
        act (UnpublishTrack r trackSid);;
        match unpublishTrack ext t r trackSid with
        | Some e => throw e
        | None => ret tt
        end
      else ret tt
  end.

(** [`❌ [${this.channelId}] Failed to stop track ${sid}:`] *)
Definition failed_to_stop (channel key : string) : string :=
  "❌ [" +:+ channel +:+ "] Failed to stop track " +:+ key +:+ ":".

(** The loop of [stop] over all publications. *)
Fixpoint stop_all (pubs : list (string * LocalTrackPublication)) : M unit :=
  match pubs with
  | [] => ret tt
  | (key, publication) :: pubs' =>
      try_catch
        (unpublish (sid publication);;
         emit (Ev_trackStopped key))
        (fun error =>
           p <- get_this;;
           console_error (failed_to_stop (channelId p) key) (Some error));;
      stop_all pubs'
  end.

Definition stop (trackName : option string) : M unit :=
  modify_this (with_shouldStop true);;
  modify_this (with_isStreaming false);;
  p <- get_this;;
  match room p with
  | None => ret tt
  | Some _ =>
      match trackName with
      | Some name =>
          if String.eqb name "" then
            stop_all (publications p);;
            modify_this (with_publications [])
          else
            match Map_get name (publications p) with
            | Some publication =>
                try_catch
                  (unpublish (sid publication);;
                   modify_this (fun p =>
                     with_publications (Map_delete name (publications p)) p);;
                   emit (Ev_trackStopped name))
                  (fun error =>
                     p <- get_this;;
                     console_error (failed_to_stop (channelId p) name)
                                   (Some error))
            | None => ret tt
            end
      | None =>
          stop_all (publications p);;
          modify_this (with_publications [])
      end
  end.

Definition disconnect : M unit :=
  p <- get_this;;
  match room p with
  | None => ret tt
  | Some _ =>
      try_catch
        (stop None;;
         modify_this (with_audioSources []);;
         p <- get_this;;
         match room p with
         | None =>
             throw (new_Error
               "Cannot read properties of undefined (reading 'disconnect')")
         | Some r =>
             t <- get_trace;;
             act (Room_disconnect r);;
             match room_disconnect ext t r with
             | Some e => throw e
             | None => ret tt
             end
         end;;
         modify_this (with_isConnected false);;
         modify_this (with_publications []);;
         modify_this (with_room None);;
         p <- get_this;;
         emit (Ev_disconnected (channelId p) (serverId p) "manual");;
         emit (Ev_debug "Disconnected manually"))
        (fun error =>
           p <- get_this;;
           console_error ("❌ [" +:+ channelId p +:+ "] Error during disconnect:")
                         (Some error);;
           modify_this (with_isConnected false);;
           modify_this (with_publications []);;
           modify_this (with_audioSources []);;
           modify_this (with_room None);;
           throw error)
  end.

Definition handleDisconnected : M unit :=
  modify_this (with_audioSources []);;
  modify_this (with_isConnected false);;
  modify_this (with_publications []);;
  modify_this (with_room None);;
  p <- get_this;;
  emit (Ev_disconnected (channelId p) (serverId p) "unexpected");;
  emit (Ev_debug "Voice disconnected unexpectedly").

(** [this.client.voiceOptions.nodes?.[0].name || "worldwide"] *)
Definition selectedNode : M string :=
  match voiceOptions_nodes ext with
  | None => ret "worldwide"
  | Some [] =>
      throw (new_Error "Cannot read properties of undefined (reading 'name')")
  | Some (name :: _) =>
      ret (match name with
           | Some n => if String.eqb n "" then "worldwide" else n
           | None => "worldwide"
           end)
  end.

Definition join_call_path (channel : string) : string :=
  "/channels/" +:+ channel +:+ "/join_call".

Definition post_join_call (channel node : string) (force : bool)
  : M JoinResponse :=
  t <- get_trace;;
  act (Api_post (join_call_path channel) node force);;
  match api_post ext t (join_call_path channel) node force with
  | inl e => throw e
  | inr response => ret response
  end.

Definition delete_join_call (channel : string) : M unit :=
  t <- get_trace;;
  act (Api_delete (join_call_path channel));;
  match api_delete ext t (join_call_path channel) with
  | Some e => throw e
  | None => ret tt
  end.

Definition conflict_message : string :=
  "Unable to join voice channel: Bot is already connected to another voice channel.

This typically happens when:
• The bot didn't disconnect properly from a previous session
• Another instance of the bot is running
• The bot crashed without proper cleanup

Solutions to try:
1. Restart the bot application completely
2. Wait 30-60 seconds for the connection to timeout
3. Check if another bot instance is running
4. Check server permissions for voice channels

If this persists, the API may need manual intervention to clear the connection state.".

Definition is_AlreadyConnected (joinError : JsError) : bool :=
  opt_includes (message joinError) "AlreadyConnected"
  || bool_decide (response_data_type joinError = Some "AlreadyConnected").

(** The negotiation of [connect]: the join request and its recovery. *)
Definition negotiate (channelToConnect selectedNode : string) : M JoinResponse :=
  try_catch
    (post_join_call channelToConnect selectedNode false)
    (fun joinError =>
       if is_AlreadyConnected joinError then
         try_catch
           (delete_join_call channelToConnect;;
            post_join_call channelToConnect selectedNode false)
           (fun deleteError =>
              try_catch
                (post_join_call channelToConnect selectedNode true)
                (fun forceError => throw (new_Error conflict_message)))
       else throw joinError).

(** The second half of the [try] block of [connect]: the transport. *)
Definition open_transport (channelToConnect : string) (response : JoinResponse)
  : M unit :=
  t <- get_trace;;
  let room := length t in
  act (Room_new room);;
  modify_this (with_room (Some room));;
  act (Room_on_Disconnected room);;
  t <- get_trace;;
  act (Room_connect room (url response) (token response));;
  match room_connect ext t room (url response) (token response) with
  | Some e => throw e
  | None => ret tt
  end;;
  modify_this (with_isConnected true);;
  p <- get_this;;
  t <- get_trace;;
  emit (Ev_connected channelToConnect (serverId p) (room_name ext t room));;
  emit (Ev_debug "Connection established").

(** The [catch] block of [connect]. *)
Definition connection_failed (channelToConnect : string) (error : JsError)
  : M unit :=
  emit (Ev_error (as_Error error) "connection");;
  console_error ("❌ [" +:+ channelToConnect +:+ "] Failed to connect:")
                (Some error);;
  throw error.

Definition connect_to (channelToConnect : string) : M unit :=
  emit (Ev_debug "Starting connection");;
  try_catch
    (node <- selectedNode;;
     response <- negotiate channelToConnect node;;
     open_transport channelToConnect response)
    (connection_failed channelToConnect).

Definition connect (targetChannelId : option string) : M unit :=
  p <- get_this;;
  let channelToConnect := channelToConnect p targetChannelId in
  if isConnected p && negb (String.eqb channelToConnect (channelId p)) then
    disconnect;;
    modify_this (with_channelId channelToConnect);;
    connect_to channelToConnect
  else if isConnected p && String.eqb channelToConnect (channelId p) then
    ret tt
  else connect_to channelToConnect.

(** ** Suspension points of the delivery loops *)

(** A call started by the host or the transport: its own promise is not
    ours, only its effects on the player are. *)
Definition detached (m : M unit) : M unit :=
  fun w => (Resolved tt, snd (m w)).

(** A listener or promise callback that nobody awaits: what it throws is
    an uncaught exception, and the promise it was meant to settle stays
    pending. *)
Definition unawaited {A : Type} (m : M unit) : M A :=
  fun w =>
    match m w with
    | (Rejected e, w') =>
        (Pending, {| this := this w'; heap := heap w';
                     trace := trace w' ++ [Uncaught e] |})
    | (_, w') => (Pending, w')
    end.

Definition deliver (i : Interrupt) : M unit :=
  act (Interrupted i);;
  match i with
  | Host_stop trackName => detached (stop trackName)
  | Transport_disconnected => detached handleDisconnected
  | Playback_begins live =>
      modify_this (with_shouldStop false);;
      modify_this (with_isStreaming live)
  end.

Fixpoint deliver_all (l : list Interrupt) : M unit :=
  match l with
  | [] => ret tt
  | i :: l' => deliver i;; deliver_all l'
  end.

(** The player is suspended: the host and the transport take their turn.
    The interleavings followed are those at the awaits of the delivery
    code, from the publication of the track on; a playback is not
    interrupted while it connects or decodes. *)
Definition suspended : M unit :=
  t <- get_trace;;
  deliver_all (interrupts ext t).

(** [await source.captureFrame(new AudioFrame(data, rate, channels,
    data.length))] *)
Definition capture (source : AudioSource) (chunk : Int16Array)
  (sampleRate channels : Z) : M unit :=
  data <- read_Int16Array chunk;;
  t <- get_trace;;
  act (CaptureFrame source data sampleRate channels (Z.of_nat (length data)));;
  suspended;;
  match captureFrame ext t source data with
  | Some e => throw e
  | None => ret tt
  end.

(** [await new Promise((resolve) => setTimeout(resolve, ms))] *)
Definition sleep (ms : Z) : M unit :=
  act (SetTimeout ms);;
  suspended.

(** ** Decoding *)

(** A value in a condition: [undefined] and the empty string are falsy. *)
Definition truthy (s : option string) : bool :=
  match s with
  | Some s => negb (String.eqb s "")
  | None => false
  end.

Definition sourceDesc (input : Input) : string :=
  match input with
  | In_string s => s
  | In_stream _ => "stream"
  end.

(** The view [new Int16Array(buffer, byteOffset, length / 2)] of raw
    little-endian bytes: a trailing odd byte is left out. *)
Fixpoint decode_s16le (bytes : list Z) : list Z :=
  match bytes with
  | lo :: hi :: rest =>
      let u := lo mod 256 + 256 * (hi mod 256) in
      (if 32768 <=? u then u - 65536 else u) :: decode_s16le rest
  | _ => []
  end.

Definition code_to_string (code : option Z) : string :=
  match code with
  | Some c => pretty c
  | None => "null"
  end.

Definition ffmpeg_args (input : Input) (sampleRate channels : Z) : list string :=
  match input with
  | In_string s => ["-i"; s]
  | In_stream _ => ["-i"; "pipe:0"]
  end ++ ["-f"; "s16le"; "-ar"; pretty sampleRate; "-ac"; pretty channels; "-"].

(** The listeners of [convertAudioToPCM] on the process and on the input
    stream, run on the events in order; the state is [chunks] and
    [errorOutput]. *)
Fixpoint convert_events (input : Input) (events : list ProcEvent)
  (chunks : list (list Z)) (errorOutput : string)
  : M (list (list Z) * string) :=
  match events with
  | [] => ret (chunks, errorOutput)
  | ev :: events' =>
      match ev with
      | Stdout_data chunk =>
          convert_events input events' (chunks ++ [chunk]) errorOutput
      | Stderr_data text =>
          convert_events input events' chunks (errorOutput +:+ text)
      | Proc_error msg =>
          let error := new_Error ("FFmpeg spawn error: " +:+ msg) in
          emit (Ev_conversionError (sourceDesc input) error);;
          console_error "" (Some error);;
          convert_events input events' chunks errorOutput
      | Input_error err =>
          match input with
          | In_stream _ => act Ffmpeg_kill;; console_error "" (Some err)
          | In_string _ => ret tt
          end;;
          convert_events input events' chunks errorOutput
      | Input_end | Input_close =>
          convert_events input events' chunks errorOutput
      end
  end.

(** The [close] listener of [convertAudioToPCM]: the only place where the
    promise is settled. *)
Definition convert_on_close (input : Input) (code : option Z)
  (chunks : list (list Z)) (errorOutput : string) : M Int16Array :=
  if bool_decide (code = Some 0) then
    let samples := decode_s16le (concat chunks) in
    int16Array <- alloc_Int16Array samples;;
    emit (Ev_conversionEnd (sourceDesc input) (length samples));;
    emit (Ev_debug "FFmpeg conversion completed");;
    ret int16Array
  else
    let error := new_Error ("FFmpeg failed with code " +:+ code_to_string code
                            +:+ ": " +:+ errorOutput) in
    emit (Ev_conversionError (sourceDesc input) error);;
    console_error "" (Some error);;
    never.

Definition convertAudioToPCM (input : Input) (sampleRate channels : Z)
  : M Int16Array :=
  emit (Ev_conversionStart (sourceDesc input) sampleRate channels);;
  if isNodeAVAvailable ext then
    emit (Ev_debug "Using node-av for audio conversion");;
    t <- get_trace;;
    act (NodeAV_convertAudioToPCM input sampleRate channels);;
    match nodeAV_convertAudioToPCM ext t input with
    | Resolved samples => alloc_Int16Array samples
    | Rejected e => throw e
    | Pending => never
    end
  else
    emit (Ev_debug "node-av not available, using FFmpeg for audio conversion");;
    t <- get_trace;;
    act (Spawn_ffmpeg (ffmpeg_args input sampleRate channels));;
    let run := ffmpeg ext t (ffmpeg_args input sampleRate channels) in
    st <- convert_events input (proc_events run) [] "";;
    match proc_close run with
    | Some code => convert_on_close input code (fst st) (snd st)
    | None => never
    end.

(** ** Publishing and finite delivery *)

(** The attempts to unmute a freshly published track; [publishPCMAudio]
    also enables it. *)
Definition unmute_track (publication : LocalTrackPublication)
  (source : AudioSource) (enable : bool) : M unit :=
  try_catch
    ((if pub_has_setMuted publication then
        t <- get_trace;;
        act (Publication_setMuted (sid publication) false);;
        suspended;;
        match setMuted_throws ext t with Some e => throw e | None => ret tt end
      else if track_has_setMuted ext then
        t <- get_trace;;
        act (Track_setMuted source false);;
        suspended;;
        match setMuted_throws ext t with Some e => throw e | None => ret tt end
      else ret tt);;
     if enable && track_has_setEnabled ext then
       t <- get_trace;;
       act (Track_setEnabled source true);;
       suspended;;
       match setEnabled_throws ext t with Some e => throw e | None => ret tt end
     else ret tt)
    (fun error => emit (Ev_error error "track-unmute")).

Definition new_AudioSource (sampleRate channels : Z) : M AudioSource :=
  t <- get_trace;;
  act (AudioSource_new (length t) sampleRate channels);;
  ret (length t).

(** [this.audioSources.set(`${prefix}_${Date.now()}`, source)] *)
Definition register_source (prefix : string) (source : AudioSource) : M unit :=
  t <- get_trace;;
  modify_this (fun p =>
    with_audioSources
      (Map_set (prefix +:+ "_" +:+ pretty (Date_now ext t)) source
               (audioSources p)) p).

(** [await this.room.localParticipant.publishTrack(track, options)];
    [missing] is what is thrown when there is no local participant. *)
Definition publish (source : AudioSource) (missing : JsError)
  : M (option LocalTrackPublication) :=
  p <- get_this;;
  match room p with
  | None =>
      throw (new_Error
        "Cannot read properties of undefined (reading 'localParticipant')")
  | Some r =>
      t <- get_trace;;
      if room_localParticipant ext t r then
        act (PublishTrack r source);;
        suspended;;
        match publishTrack ext t r source with
        | Publish_ok publication => ret (Some publication)
        | Publish_null => ret None
        | Publish_throws e => throw e
        end
      else throw missing
  end.

Definition record_publication (publication : LocalTrackPublication) : M unit :=
  modify_this (fun p =>
    with_publications
      (Map_set (sid publication) publication (publications p)) p);;
  emit (Ev_trackPublished (sid publication)).

Definition chunkDurationMs : Z := 100.

(** [Math.floor((48000 * chunkDurationMs) / 1000) * 1] *)
Definition samplesPerChunk : nat := Z.to_nat ((48000 * chunkDurationMs) / 1000 * 1).

(** [array.slice(start, end)]: a copy. *)
Definition slice (a : Int16Array) (start stop : nat) : M Int16Array :=
  data <- read_Int16Array a;;
  alloc_Int16Array (take (stop - start) (drop start data)).

(** The [while (offset < length && !this.shouldStop)] loop of
    [publishPCMAudio].  Each pass advances [offset] by at least one
    sample, so [fuel] passes suffice once [fuel] reaches the number of
    samples left; the result is [chunksSent]. *)
Fixpoint send_chunks (fuel : nat) (source : AudioSource)
  (volumeAdjustedPCM : Int16Array) (offset chunksSent : nat) : M nat :=
  match fuel with
  | O => ret chunksSent
  | S fuel' =>
      p <- get_this;;
      data <- read_Int16Array volumeAdjustedPCM;;
      if (offset <? length data)%nat && negb (shouldStop p) then
        let chunkEnd := Nat.min (offset + samplesPerChunk) (length data) in
        chunk <- slice volumeAdjustedPCM offset chunkEnd;;
        chunksSent' <-
          try_catch
            (capture source chunk 48000 1;;
             ret (S chunksSent))
            (fun error =>
               emit (Ev_error error "frame-capture");;
               ret chunksSent);;
        sleep chunkDurationMs;;
        send_chunks fuel' source volumeAdjustedPCM chunkEnd chunksSent'
      else ret chunksSent
  end.

(** The body of [processAudio]: [true] when it reaches [resolve()]. *)
Definition processAudio (volumeAdjustedPCM : Int16Array) : M bool :=
  try_catch
    (source <- new_AudioSource 48000 1;;
     register_source "file" source;;
     publication <- publish source
                      (new_Error "Room local participant not available");;
     match publication with
     | Some publication =>
         record_publication publication;;
         emit (Ev_debug "Audio track published successfully");;
         unmute_track publication source true;;
         data <- read_Int16Array volumeAdjustedPCM;;
         chunksSent <- send_chunks (length data) source volumeAdjustedPCM 0 0;;
         p <- get_this;;
         (if shouldStop p then emit (Ev_debug "Audio playback stopped by user")
          else emit (Ev_debug "Audio playback completed successfully"));;
         emit (Ev_debug "publishPCMAudio resolving");;
         ret true
     | None =>
         console_error "" (Some (new_Error "Failed to publish audio track"));;
         ret false
     end)
    (fun error =>
       p <- get_this;;
       console_error ("❌ [" +:+ channelId p +:+ "] Failed to publish audio:")
                     (Some error);;
       console_error "" (Some error);;
       ret false).

Definition publishPCMAudio (pcmData : Int16Array) : M unit :=
  p <- get_this;;
  match room p with
  | None =>
      throw (new_Error ("Not connected to voice channel " +:+ channelId p
                        +:+ ". Call connect() first."))
  | Some _ =>
      volumeAdjustedPCM <- applyVolume pcmData;;
      resolved <- processAudio volumeAdjustedPCM;;
      if resolved then ret tt else never
  end.

Definition playFromStream (stream : Readable) (source type : option string)
  : M unit :=
  modify_this (with_shouldStop false);;
  modify_this (with_isStreaming false);;
  pcmData <- convertAudioToPCM (In_stream stream) 48000 1;;
  emit (Ev_debug "PCM conversion completed");;
  publishPCMAudio pcmData;;
  emit (Ev_debug "Audio publishing completed");;
  match source, type with
  | Some s, Some t =>
      if truthy source && truthy type then
        emit (Ev_debug "Emitting audioEnd event");;
        emit (Ev_audioEnd s t)
      else emit (Ev_debug "No source/type provided, skipping audioEnd")
  | _, _ => emit (Ev_debug "No source/type provided, skipping audioEnd")
  end.

Definition playFromFile (filePath : string) : M unit :=
  p <- get_this;;
  (if connected p then ret tt else connect None);;
  modify_this (with_shouldStop false);;
  modify_this (with_isStreaming false);;
  emit (Ev_audioStart filePath "file");;
  emit (Ev_debug "Starting file playback");;
  try_catch
    (pcmData <- convertAudioToPCM (In_string filePath) 48000 1;;
     publishPCMAudio pcmData;;
     emit (Ev_audioEnd filePath "file");;
     emit (Ev_debug "File playback completed"))
    (fun error =>
       let errorObj := as_Error error in
       emit (Ev_audioError filePath "file" errorObj);;
       emit (Ev_error errorObj "file-playback");;
       p <- get_this;;
       console_error ("❌ [" +:+ channelId p +:+ "] File playback failed:")
                     (Some error);;
       throw error).

(** ** Live delivery *)

(** The [onChunk] callback handed to the streaming decoder, up to its
    [await]: the result is the promise of [captureFrame] with the outcome
    it will have, when a frame was handed over. *)
Definition onChunk_begin (source : AudioSource) (pcmChunk : Int16Array)
  : M (option (option JsError)) :=
  p <- get_this;;
  if negb (isStreaming p) || shouldStop p then ret None
  else
    volumeAdjustedPcmData <- applyVolume pcmChunk;;
    data <- read_Int16Array volumeAdjustedPcmData;;
    t <- get_trace;;
    act (CaptureFrame source data 48000 1 (Z.of_nat (length data)));;
    ret (Some (captureFrame ext t source data)).

(** The rest of [onChunk], once the transport has settled the frame. *)
Definition onChunk_settled (result : option JsError) : M unit :=
  act (CaptureFrame_settled result);;
  match result with
  | None => ret tt
  | Some frameError =>
      p <- get_this;;
      if negb (isStreaming p) || shouldStop p then ret tt
      else if instanceof_Error frameError
              && opt_includes (message frameError) "InvalidState"
      then ret tt
      else console_error "Error processing audio chunk:" (Some frameError)
  end.

(** The [onEnd] callback: [source] is the [AudioSource], always truthy. *)
Definition onEnd (source : AudioSource) (type : option string) : M unit :=
  modify_this (with_isStreaming false);;
  match type with
  | Some t => if truthy type then emit (Ev_audioEnd_source source t) else ret tt
  | None => ret tt
  end.

Definition onError (error : JsError) : M unit :=
  modify_this (with_isStreaming false);;
  emit (Ev_audioError "stream" "streaming" error).

(** [error instanceof Error ? error.message : "Unknown error"] in a
    template literal. *)
Definition message_or_unknown (error : JsError) : string :=
  if instanceof_Error error then default "undefined" (message error)
  else "Unknown error".

(** [resolve()] or [reject(e)] of the promise of pipeline [k]: a settled
    promise stays as it is. *)
Definition settle (k : nat) (outcome : option JsError) (st : Live) : Live :=
  {| pipelines :=
       alter (fun pl => match settled pl with
                        | None => {| isProcessing := isProcessing pl;
                                     settled := Some outcome |}
                        | Some _ => pl
                        end) k (pipelines st);
     in_flight := in_flight st |}.

(** [isProcessing = false] in pipeline [k]. *)
Definition stop_processing (k : nat) (st : Live) : Live :=
  {| pipelines :=
       alter (fun pl => {| isProcessing := false; settled := settled pl |})
             k (pipelines st);
     in_flight := in_flight st |}.

(** The [frame] listener of a decoder of pipeline [pl], up to the [await]
    of [onData]; node-av does not wait for the promise it returns. *)
Definition on_frame (source : AudioSource) (pl : Pipeline)
  (convertedData : option (list number)) : M (option (option JsError)) :=
  try_catch
    (if negb (isProcessing pl) then ret None
     else
       match convertedData with
       | Some data =>
           if (0 <? length data)%nat then
             pcmChunk <- alloc_Int16Array (map ToInt16 data);;
             onChunk_begin source pcmChunk
           else ret None
       | None => ret None
       end)
    (fun error =>
       onError (new_Error ("Frame processing error: "
                           +:+ message_or_unknown error));;
       ret None).

(** The rest of the [frame] listener, once the promise of [onData] is
    settled. *)
Definition on_frame_settled (result : option JsError) : M unit :=
  try_catch
    (onChunk_settled result)
    (fun error =>
       onError (new_Error ("Frame processing error: "
                           +:+ message_or_unknown error))).

(** The [end] and [error] listeners that pipeline [k] has on its decoders
    and on the input stream. *)
Definition on_end (source : AudioSource) (type : option string) (k : nat)
  (st : Live) : M Live :=
  onEnd source type;;
  ret (settle k None (stop_processing k st)).

Definition on_decoder_error (k : nat) (error : JsError) (st : Live) : M Live :=
  let err := new_Error ("node-av decoder error: "
                        +:+ default "undefined" (message error)) in
  onError err;;
  ret (settle k (Some err) (stop_processing k st)).

Definition on_source_error (k : nat) (error : JsError) (st : Live) : M Live :=
  onError error;;
  ret (settle k (Some error) (stop_processing k st)).

(** The listeners of the pipelines [k], [k + 1], ... up to [n] pipelines,
    in the order of their registration. *)
Fixpoint each_pipeline (n k : nat) (listener : nat -> Live -> M Live)
  (st : Live) : M Live :=
  match n with
  | O => ret st
  | S n' => st' <- listener k st;; each_pipeline n' (S k) listener st'
  end.

(** One event: the listeners registered for it run to their end, or to
    their [await]. *)
Definition live_event (source : AudioSource) (type : option string)
  (ev : LiveEvent) (st : Live) : M Live :=
  match ev with
  | Av_frame k convertedData =>
      match pipelines st !! k with
      | Some pl =>
          promise <- on_frame source pl convertedData;;
          ret match promise with
              | Some result => {| pipelines := pipelines st;
                                  in_flight := in_flight st ++ [result] |}
              | None => st
              end
      | None => ret st
      end
  | Av_end k =>
      match pipelines st !! k with
      | Some _ => on_end source type k st
      | None => ret st
      end
  | Av_error k error =>
      match pipelines st !! k with
      | Some _ => on_decoder_error k error st
      | None => ret st
      end
  | Source_error error =>
      each_pipeline (length (pipelines st)) 0
                    (fun k => on_source_error k error) st
  | Source_end =>
      each_pipeline (length (pipelines st)) 0 (on_end source type) st
  | Frame_settled n =>
      match in_flight st !! n with
      | Some result =>
          on_frame_settled result;;
          ret {| pipelines := pipelines st;
                 in_flight := delete n (in_flight st) |}
      | None => ret st
      end
  | Meanwhile i => deliver i;; ret st
  end.

(** [await] of the promise of pipeline [k]: the events go on until the
    promise is settled; the code after the [await] runs before the next
    event. *)
Fixpoint await_pipeline (events : list LiveEvent) (source : AudioSource)
  (type : option string) (k : nat) (st : Live) : M Live :=
  match pipelines st !! k with
  | Some {| settled := Some None |} => ret st
  | Some {| settled := Some (Some e) |} => throw e
  | _ =>
      match events with
      | [] => never
      | ev :: events' =>
          st' <- live_event source type ev st;;
          await_pipeline events' source type k st'
      end
  end.

(** [nodeAVProcessor.createAudioStream(inputStream, 48000, 1, onChunk,
    onEnd, onError)], awaited.  The pipeline registers its listeners on
    the decoders node-av will create for it and on the input stream, next
    to those of the pipelines set up before on the same stream.  When the
    set-up throws the promise is rejected at once; listeners that outlive
    the playback are not followed. *)
Definition createAudioStream (st : Live) (inputStream : Readable)
  (source : AudioSource) (type : option string) : M Live :=
  act (NodeAV_createAudioStream inputStream 48000 1);;
  (if isNodeAVAvailable ext then ret tt
   else throw (new_Error "node-av is not available"));;
  let k := length (pipelines st) in
  let failed (error : JsError) : M Live :=
    let err := new_Error ("node-av stream setup error: "
                          +:+ message_or_unknown error) in
    onError err;;
    throw err in
  t <- get_trace;;
  act (FormatContext_new inputStream);;
  match nodeAV_setup ext t inputStream with
  | FormatContext_throws error => failed error
  | Read_throws error => act (FormatContext_read inputStream);; failed error
  | Setup_ok =>
      act (FormatContext_read inputStream);;
      t <- get_trace;;
      await_pipeline (live_events ext t inputStream) source type k
        {| pipelines := pipelines st ++ [mkPipeline true None];
           in_flight := in_flight st |}
  end.

(** [samplesPerChunk * 2] of the FFmpeg streaming path. *)
Definition bytesPerChunk : nat := samplesPerChunk * 2.

(** The [while] loop of the [data] listener, which leaves through [return]
    after a failed frame once streaming is over.  The buffer shrinks at
    each pass, so [fuel] passes suffice once [fuel] reaches its length;
    the result is the buffer left. *)
Fixpoint stream_loop (fuel : nat) (source : AudioSource) (buffer : list Z)
  : M (list Z) :=
  match fuel with
  | O => ret buffer
  | S fuel' =>
      p <- get_this;;
      if (bytesPerChunk <=? length buffer)%nat && isStreaming p
         && negb (shouldStop p) then
        let audioChunk := take bytesPerChunk buffer in
        let buffer := drop bytesPerChunk buffer in
        originalPcmData <- alloc_Int16Array (decode_s16le audioChunk);;
        volumeAdjustedPcmData <- applyVolume originalPcmData;;
        continue <-
          try_catch
            (capture source volumeAdjustedPcmData 48000 1;;
             ret true)
            (fun frameError =>
               console_error "Error processing audio chunk:" (Some frameError);;
               p <- get_this;;
               ret (negb (negb (isStreaming p) || shouldStop p)));;
        if continue then stream_loop fuel' source buffer else ret buffer
      else ret buffer
  end.

(** The [data] listener of the FFmpeg streaming path; every exception is
    swallowed.  Each listener is run to its end before the next event is
    taken. *)
Definition on_data (source : AudioSource) (buffer chunk : list Z) : M (list Z) :=
  p <- get_this;;
  if negb (isStreaming p) || shouldStop p then ret buffer
  else
    try_catch
      (stream_loop (length (buffer ++ chunk)) source (buffer ++ chunk))
      (fun _ => ret (buffer ++ chunk)).

Fixpoint stream_events (source : AudioSource) (events : list ProcEvent)
  (buffer : list Z) : M unit :=
  match events with
  | [] => ret tt
  | ev :: events' =>
      match ev with
      | Stdout_data chunk =>
          buffer' <- on_data source buffer chunk;;
          stream_events source events' buffer'
      | Stderr_data _ => stream_events source events' buffer
      | Proc_error msg =>
          act (Uncaught (new_Error msg));;
          stream_events source events' buffer
      | Input_error err =>
          emit (Ev_audioError "stream" "streaming" err);;
          stream_events source events' buffer
      | Input_close =>
          act (Console_warn "⚠️ Audio stream closed unexpectedly");;
          stream_events source events' buffer
      | Input_end =>
          p <- get_this;;
          (if isStreaming p then
             modify_this (with_isStreaming false);;
             act Ffmpeg_kill
           else ret tt);;
          stream_events source events' buffer
      end
  end.

(** The two [close] listeners of the FFmpeg streaming path. *)
Definition stream_on_close (source : AudioSource) (type : option string)
  (code : option Z) : M unit :=
  modify_this (with_isStreaming false);;
  (if bool_decide (code = Some 0) || bool_decide (code = None) then ret tt
   else emit (Ev_audioError "stream" "streaming"
                (new_Error ("FFmpeg exited with code " +:+ code_to_string code))));;
  emit (Ev_debug "FFmpeg streaming ended");;
  match type with
  | Some t =>
      if truthy type then
        emit (Ev_debug "Emitting audioEnd for streaming");;
        emit (Ev_audioEnd_source source t)
      else emit (Ev_debug "No source/type for streaming audioEnd")
  | None => emit (Ev_debug "No source/type for streaming audioEnd")
  end;;
  if bool_decide (code = Some 0) || bool_decide (code = None) then ret tt
  else
    act (Console_warn ("⚠️ FFmpeg exited with code " +:+ code_to_string code
                       +:+ " - this may be normal for streaming")).

Definition streaming_ffmpeg_args : list string :=
  ["-i"; "pipe:0"; "-f"; "s16le"; "-ar"; pretty 48000; "-ac"; pretty 1; "-"].

Definition playStreamingAudio (audioStream : Readable)
  (source type : option string) : M unit :=
  modify_this (with_shouldStop false);;
  modify_this (with_isStreaming true);;
  p <- get_this;;
  match room p with
  | None =>
      throw (new_Error ("Not connected to voice channel " +:+ channelId p
                        +:+ ". Call connect() first."))
  | Some r =>
      t <- get_trace;;
      (if room_localParticipant ext t r then ret tt
       else
         sleep 1000;;
         p <- get_this;;
         t <- get_trace;;
         match room p with
         | None =>
             throw (new_Error
               "Cannot read properties of undefined (reading 'localParticipant')")
         | Some r =>
             if room_localParticipant ext t r then ret tt
             else throw (new_Error "Local participant not available after waiting")
         end);;
      try_catch
        (source <- new_AudioSource 48000 1;;
         register_source "stream" source;;
         publication <- publish source
           (new_Error
              "Cannot read properties of undefined (reading 'publishTrack')");;
         match publication with
         | Some publication =>
             record_publication publication;;
             unmute_track publication source false;;
             if isNodeAVAvailable ext then
               emit (Ev_debug "Using node-av for streaming audio");;
               st <- createAudioStream (mkLive [] []) audioStream source type;;
               once_disconnected_add Stop_streaming;;
               createAudioStream st audioStream source type;;
               once_disconnected_add Stop_streaming
             else
               emit (Ev_debug
                 "node-av not available, using FFmpeg for streaming audio");;
               t <- get_trace;;
               act (Spawn_ffmpeg streaming_ffmpeg_args);;
               let run := ffmpeg ext t streaming_ffmpeg_args in
               once_disconnected_add Stop_streaming_and_kill_ffmpeg;;
               stream_events source (proc_events run) [];;
               match proc_close run with
               | Some code => stream_on_close source type code
               | None => never
               end
         | None => throw (new_Error "Failed to publish audio track")
         end)
        (fun error =>
           p <- get_this;;
           console_error ("❌ [" +:+ channelId p
                          +:+ "] Failed to set up streaming:") (Some error);;
           throw error)
  end.

(** ** Playback entry points *)

(** [!contentLength]: a missing or empty header. *)
Definition falsy (s : option string) : bool := negb (truthy s).

(** The heuristic of [playFromUrl] for continuous streams. *)
Definition isLiveStream (url : string) (content_type content_length : option string)
  : bool :=
  let contentType := if truthy content_type then default "" content_type else "" in
  falsy content_length
  || (includes contentType "audio/mpeg" && includes url "stream")
  || includes contentType "application/ogg"
  || includes (String_toLowerCase ext url) "radio"
  || includes (String_toLowerCase ext url) "stream".

(** The [error] listener of the request of [playFromUrl]. *)
Definition on_request_error (url : string) (error : JsError) : M unit :=
  act (Console_error_message "Request error:" (message error));;
  emit (Ev_audioError url "url" error).

(** The promise of [playFromUrl]; it is settled by [resolve] after a
    completed playback and by nothing else. The dynamic imports of
    [node:https] and [node:http] succeed. *)
Definition playFromUrl (url : string) : M unit :=
  p <- get_this;;
  (if connected p then ret tt else connect None);;
  emit (Ev_audioStart url "url");;
  emit (Ev_debug "Starting URL playback");;
  let secure := String.prefix "https:" url in
  t <- get_trace;;
  act (Http_get secure url);;
  match http_get ext t secure url with
  | Http_throws e => throw e
  | Http_silent => never
  | Http_request_error e =>
      unawaited (on_request_error url e)
  | Http_timeout destroyed =>
      unawaited
        (act Request_destroy;;
         emit (Ev_audioError url "url" (new_Error "Request timeout"));;
         match destroyed with
         | Some e => on_request_error url e
         | None => ret tt
         end)
  | Http_response statusCode content_type content_length response =>
      if negb (statusCode =? 200) then
        let error := new_Error ("HTTP Error: " +:+ pretty statusCode) in
        unawaited
          (act (Console_error_message "HTTP Error:" (message error));;
           emit (Ev_audioError url "url" error))
      else if isLiveStream url content_type content_length then
        try_catch
          (playStreamingAudio response (Some url) (Some "url");;
           emit (Ev_audioEnd_url "URL playback completed" url))
          (fun error =>
             unawaited
               (console_error "Error streaming audio from URL:" (Some error);;
                emit (Ev_audioError url "url" error);;
                emit (Ev_error error "url-streaming")))
      else
        try_catch
          (playFromStream response (Some url) (Some "url");;
           emit (Ev_debug "URL playback completed"))
          (fun error =>
             unawaited
               (console_error "Error playing audio from URL:" (Some error);;
                emit (Ev_audioError url "url" error);;
                emit (Ev_error error "url-standard")))
  end.

(** [play]: the argument has type [string | Readable], so the last branch
    of the source (any other type) is not reachable from typed callers. *)
Definition play (input : Input) : M unit :=
  match input with
  | In_stream stream =>
      emit (Ev_debug "Auto-detected stream input");;
      emit (Ev_audioStart "stream" "stream");;
      playFromStream stream (Some "stream") (Some "stream")
  | In_string s =>
      if isUrl s then
        emit (Ev_debug "Auto-detected URL input");;
        playFromUrl s
      else if isFilePath s then
        emit (Ev_debug "Auto-detected file path input");;
        playFromFile s
      else
        throw (new_Error ("Invalid input: '" +:+ s
          +:+ "' is neither a valid URL nor an existing file path"))
  end.

(** [getStatus()] *)
Record Status : Type := mkStatus {
  status_connected : bool;
  status_volume : number;
  status_activeTracksCount : nat;
  status_channelId : string;
  status_serverId : string;
}.

Definition getStatus (p : AudioPlayer) : Status :=
  {| status_connected := connected p;
     status_volume := _volume p;
     status_activeTracksCount := length (publications p);
     status_channelId := channelId p;
     status_serverId := serverId p |}.

End Player.

(* ===================================================================== *)
(** ** Reference definitions and sample collaborators *)
(* ===================================================================== *)

(** The volume processor as the specification words it: the rounded
    product, clamped to the 16-bit range (the infinities saturate). *)
Definition clamp_round (x : number) : Z :=
  match x with
  | S754_finite s m e => Z.max (-32768) (Z.min 32767 (round_half_up s m e))
  | S754_infinity s => if s then -32768 else 32767
  | _ => 0
  end.

Definition applyVolume_reference (level : number) (samples : list Z) : list Z :=
  if strict_eq level one then samples
  else map (fun s => clamp_round (mul (of_Z s) level)) samples.

Definition int16 (x : Z) : Prop := -32768 <= x <= 32767.

Definition is_formatContext (a : Action) : bool :=
  match a with FormatContext_new _ => true | _ => false end.

(** A live stream of two frames of two samples each: the decoder of the
    newest pipeline emits both before the transport settles the first,
    then ends. *)
Definition two_frames (t : list Action) (inputStream : Readable)
  : list LiveEvent :=
  let k := (length (List.filter is_formatContext t) - 1)%nat in
  [Av_frame k (Some [of_Z 1; of_Z 2]); Av_frame k (Some [of_Z 3; of_Z 4]);
   Frame_settled 0; Frame_settled 0; Av_end k].

(** Collaborators given by their answers on the points that vary from one
    scenario to the next; the transport has a local participant and
    accepts every frame, nothing else throws. *)
Definition scripted
  (post : list Action -> string -> string -> bool -> JsError + JoinResponse)
  (delete : list Action -> string -> option JsError)
  (handshake : option JsError)
  (published : PublishResult)
  (unpublish : string -> option JsError)
  (hangup : option JsError)
  (nodeAV : bool)
  (process : ProcRun)
  (live : list Action -> Readable -> list LiveEvent)
  (interrupted : list Action -> list Interrupt) : External :=
  {| voiceOptions_nodes := None;
     api_post := post;
     api_delete := delete;
     room_connect := fun _ _ _ _ => handshake;
     room_name := fun _ _ => Some "room";
     room_disconnect := fun _ _ => hangup;
     room_localParticipant := fun _ _ => true;
     publishTrack := fun _ _ _ => published;
     unpublishTrack := fun _ _ trackSid => unpublish trackSid;
     track_has_setMuted := true;
     track_has_setEnabled := true;
     setMuted_throws := fun _ => None;
     setEnabled_throws := fun _ => None;
     captureFrame := fun _ _ _ => None;
     Date_now := fun t => Z.of_nat (length t);
     isNodeAVAvailable := nodeAV;
     nodeAV_convertAudioToPCM := fun _ _ => Resolved [100; -200; 300; -400];
     nodeAV_setup := fun _ _ => Setup_ok;
     live_events := live;
     ffmpeg := fun _ _ => process;
     URL_protocol := fun _ => None;
     existsSync := fun _ => Some false;
     String_toLowerCase := fun s => s;
     Number_toFixed0 := fun _ => "";
     http_get := fun _ _ _ => Http_silent;
     error_listener := true;
     util_inspect := to_String;
     interrupts := interrupted |}.

Definition granted_session : JoinResponse := mkJoinResponse "token" "wss://relay".

(** Collaborators for which everything succeeds: the endpoint grants the
    session, the transport publishes every track under the identifier
    [TR_1], the primary decoder is present and a live stream has two
    frames, and nobody interrupts. *)
Definition cooperative : External :=
  scripted (fun _ _ _ _ => inr granted_session) (fun _ _ => None) None
           (Publish_ok (mkPublication "TR_1" true)) (fun _ => None) None
           true (mkProcRun [] (Some (Some 0))) two_frames (fun _ => []).

Definition AlreadyConnected : JsError := new_Error "AlreadyConnected".

Definition released (t : list Action) : bool :=
  existsb (fun a => match a with Api_delete _ => true | _ => false end) t.

(** An endpoint that holds a stale grant until it is released. *)
Definition stale_grant : External :=
  scripted (fun t _ _ _ => if released t then inr granted_session
                           else inl AlreadyConnected)
           (fun _ _ => None) None
           (Publish_ok (mkPublication "TR_1" true)) (fun _ => None) None
           true (mkProcRun [] (Some (Some 0))) (fun _ _ => []) (fun _ => []).

(** An endpoint that answers every request with the conflict. *)
Definition stuck_grant : External :=
  scripted (fun _ _ _ _ => inl AlreadyConnected)
           (fun _ _ => Some AlreadyConnected) None
           (Publish_ok (mkPublication "TR_1" true)) (fun _ => None) None
           true (mkProcRun [] (Some (Some 0))) (fun _ _ => []) (fun _ => []).

(** A freshly constructed player in an empty world. *)
Definition fresh (channelId serverId : string) : World :=
  {| this := constructor channelId serverId; heap := []; trace := [] |}.

(** Numbers without fractional bits and their integer value. *)
Definition int_value (r : number) : option Z :=
  match r with
  | S754_zero _ => Some 0
  | S754_finite s m e => if 0 <=? e then Some (signed s m * 2 ^ e) else None
  | _ => None
  end.

Definition finite_or_zero (x : number) : bool :=
  match x with
  | S754_zero _ | S754_finite _ _ _ => true
  | _ => false
  end.

(** The value stored by one pass of the loop of [applyVolume]. *)
Definition stored (volume : number) (x : Z) : Z :=
  ToInt16 (Math_max (of_Z (-32768))
             (Math_min (of_Z 32767) (Math_round (scaled_sample (Some x) volume)))).

(** A player whose volume was set to one half, and a connected-less world
    holding one typed array with the volume at one and a half. *)
Definition half_volume : World :=
  {| this := with_volume (SFdiv prec emax one two) (constructor "c" "s");
     heap := []; trace := [] |}.

Definition loud_world : World :=
  {| this := with_volume (SFdiv prec emax (of_Z 3) two) (constructor "c" "s");
     heap := [[100; -200; 32767; -32768]]; trace := [] |}.

(** The relay node [connect] asks for when reading it does not throw. *)
Definition node_name (ext : External) : string :=
  match voiceOptions_nodes ext with
  | Some (Some n :: _) => if String.eqb n "" then "worldwide" else n
  | _ => "worldwide"
  end.


(** The requests sent to the signaling endpoint, in order. *)
Definition is_request (a : Action) : bool :=
  match a with
  | Api_post _ _ _ | Api_delete _ => true
  | _ => false
  end.

Definition requests (t : list Action) : list Action :=
  List.filter is_request t.

(** The world with more of the trace. *)
Definition logged (w : World) (t : list Action) : World :=
  {| this := this w; heap := heap w; trace := t |}.

Definition updated (w : World) (p : AudioPlayer) (t : list Action) : World :=
  {| this := p; heap := heap w; trace := t |}.

(** A player connected by cooperative collaborators. *)
Definition connected_world : World :=
  snd (connect cooperative None (fresh "c" "s")).

(** A transport whose handshake fails after the endpoint granted the
    session, and an endpoint that refuses the join for another reason. *)
Definition refused_handshake : External :=
  scripted (fun _ _ _ _ => inr granted_session) (fun _ _ => None)
           (Some (new_Error "could not establish signal connection"))
           (Publish_ok (mkPublication "TR_1" true)) (fun _ => None) None
           true (mkProcRun [] (Some (Some 0))) (fun _ _ => []) (fun _ => []).

Definition refused_join : External :=
  scripted (fun _ _ _ _ => inl (new_Error "MissingPermission")) (fun _ _ => None)
           None
           (Publish_ok (mkPublication "TR_1" true)) (fun _ => None) None
           true (mkProcRun [] (Some (Some 0))) (fun _ _ => []) (fun _ => []).

(** The session holds tracks and audio sources only while it holds a
    transport: the state of a new player. *)
Definition consistent (p : AudioPlayer) : Prop :=
  room p = None -> publications p = [] /\ audioSources p = [].

(** A transport on which unpublishing the track [TR_bad] fails, and a
    connected player holding that track and another one. *)
Definition flaky_unpublish : External :=
  scripted (fun _ _ _ _ => inr granted_session) (fun _ _ => None) None
           (Publish_ok (mkPublication "TR_1" true))
           (fun trackSid => if String.eqb trackSid "TR_bad"
                            then Some (new_Error "engine: connection error")
                            else None)
           None true (mkProcRun [] (Some (Some 0))) (fun _ _ => []) (fun _ => []).

Definition two_tracks : World :=
  {| this :=
       with_audioSources [("file_1", 7%nat); ("file_2", 9%nat)]
         (with_publications [("TR_bad", mkPublication "TR_bad" true);
                             ("TR_good", mkPublication "TR_good" true)]
            (this connected_world));
     heap := []; trace := [] |}.

(** Reading a trace: audio frames handed to the transport, pacing waits,
    and calls of [stop] by the host. *)
Definition is_frame (a : Action) : bool :=
  match a with CaptureFrame _ _ _ _ _ => true | _ => false end.

Definition is_timeout (a : Action) : bool :=
  match a with SetTimeout _ => true | _ => false end.

Definition is_host_stop (a : Action) : bool :=
  match a with Interrupted (Host_stop _) => true | _ => false end.

Definition frames (t : list Action) : nat := length (List.filter is_frame t).

Definition timeouts (t : list Action) : nat := length (List.filter is_timeout t).

Definition stop_called (t : list Action) : bool := existsb is_host_stop t.

(** Neither a frame, nor a pacing wait, nor a call of [stop]. *)
Definition quiet (a : Action) : bool :=
  negb (is_frame a) && negb (is_timeout a) && negb (is_host_stop a).

(** What an interrupting call may leave in the trace, and what it does to
    the cancellation flag. *)
Definition calm (m : M unit) : Prop :=
  forall w, exists w' added,
    m w = (Resolved tt, w') /\
    trace w' = trace w ++ added /\
    forallb quiet added = true /\
    heap w' = heap w /\
    (shouldStop (this w) = true -> shouldStop (this w') = true).


(** Once [stop] has been called, no frame follows and at most one wait
    does, which is a pacing wait of 100 ms. *)
Definition paced (a : Action) : Prop :=
  is_timeout a = true -> a = SetTimeout chunkDurationMs.

Definition halted (added : list Action) : Prop :=
  forall pre post,
    added = pre ++ post -> stop_called pre = true ->
    frames post = 0%nat /\ (timeouts post <= 1)%nat /\ Forall paced post.

(** Another playback that resets the flags, and collaborators that never
    start one while the player is suspended. *)
Definition is_restart (i : Interrupt) : bool :=
  match i with Playback_begins _ => true | _ => false end.

Definition undisturbed (ext : External) : Prop :=
  forall t, forallb (fun i => negb (is_restart i)) (interrupts ext t) = true.

(** What a guarded block may do: it settles, calmly. *)
Definition settles_calmly (m : M unit) : Prop :=
  forall w, exists o w' added,
    m w = (o, w') /\ o <> Pending /\ trace w' = trace w ++ added /\
    forallb quiet added = true /\ heap w' = heap w /\
    (shouldStop (this w) = true -> shouldStop (this w') = true).


(** The same collaborators with another view of URLs and of the file
    system. *)
Definition on_inputs (ext : External) (protocol : string -> option string)
  (file_exists : string -> option bool) : External :=
  {| voiceOptions_nodes := voiceOptions_nodes ext;
     api_post := api_post ext;
     api_delete := api_delete ext;
     room_connect := room_connect ext;
     room_name := room_name ext;
     room_disconnect := room_disconnect ext;
     room_localParticipant := room_localParticipant ext;
     publishTrack := publishTrack ext;
     unpublishTrack := unpublishTrack ext;
     track_has_setMuted := track_has_setMuted ext;
     track_has_setEnabled := track_has_setEnabled ext;
     setMuted_throws := setMuted_throws ext;
     setEnabled_throws := setEnabled_throws ext;
     captureFrame := captureFrame ext;
     Date_now := Date_now ext;
     isNodeAVAvailable := isNodeAVAvailable ext;
     nodeAV_convertAudioToPCM := nodeAV_convertAudioToPCM ext;
     nodeAV_setup := nodeAV_setup ext;
     live_events := live_events ext;
     ffmpeg := ffmpeg ext;
     URL_protocol := protocol;
     existsSync := file_exists;
     String_toLowerCase := String_toLowerCase ext;
     Number_toFixed0 := Number_toFixed0 ext;
     http_get := http_get ext;
     error_listener := error_listener ext;
     util_inspect := util_inspect ext;
     interrupts := interrupts ext |}.

(** A machine with one audio file, on which [new URL] accepts what starts
    with [https://]. *)
Definition one_file : External :=
  on_inputs cooperative
    (fun s => if String.prefix "https://" s then Some "https:" else None)
    (fun s => Some (String.eqb s "/tmp/a.mp3")).

(** No primary decoder, and an [ffmpeg] that writes to its error stream and
    exits with code 1. *)
Definition failing_ffmpeg : External :=
  scripted (fun _ _ _ _ => inr granted_session) (fun _ _ => None) None
           (Publish_ok (mkPublication "TR_1" true)) (fun _ => None) None
           false (mkProcRun [Stderr_data "Invalid data found"] (Some (Some 1)))
           (fun _ _ => []) (fun _ => []).

(** A transport whose [publishTrack] resolves with nothing. *)
Definition null_publication : External :=
  scripted (fun _ _ _ _ => inr granted_session) (fun _ _ => None) None
           Publish_null (fun _ => None) None
           true (mkProcRun [] (Some (Some 0))) (fun _ _ => []) (fun _ => []).

(** The events that report a failure to the host. *)
Definition is_error_event (a : Action) : bool :=
  match a with
  | Emit (Ev_error _ _) | Emit (Ev_audioError _ _ _)
  | Emit (Ev_conversionError _ _) => true
  | _ => false
  end.

Definition is_pipeline (a : Action) : bool :=
  match a with
  | NodeAV_createAudioStream _ _ _ | Spawn_ffmpeg _ => true
  | _ => false
  end.

(** The frames handed to the transport and their settling. *)
Definition is_frame_traffic (a : Action) : bool :=
  match a with
  | CaptureFrame _ _ _ _ _ | CaptureFrame_settled _ => true
  | _ => false
  end.

Definition is_audioEnd (a : Action) : bool :=
  match a with
  | Emit (Ev_audioEnd _ _) | Emit (Ev_audioEnd_url _ _)
  | Emit (Ev_audioEnd_source _ _) => true
  | _ => false
  end.

(** Calls into the voice-relay transport. *)
Definition is_transport_call (a : Action) : bool :=
  match a with
  | Room_connect _ _ _ | Room_disconnect _ | PublishTrack _ _
  | UnpublishTrack _ _ | CaptureFrame _ _ _ _ _
  | Publication_setMuted _ _ | Track_setMuted _ _ | Track_setEnabled _ _ => true
  | _ => false
  end.

(** The samples of the frames handed to the transport, in order. *)
Definition frame_data (a : Action) : list Z :=
  match a with
  | CaptureFrame _ data _ _ _ => data
  | _ => []
  end.

Definition sent_samples (t : list Action) : list Z := flat_map frame_data t.

(** What a process wrote to its standard output, in order. *)
Definition stdout_of (events : list ProcEvent) : list Z :=
  flat_map (fun ev => match ev with Stdout_data bytes => bytes | _ => [] end)
           events.

Definition is_connected_event (a : Action) : bool :=
  match a with Emit (Ev_connected _ _ _) => true | _ => false end.

Definition announced (t : list Action) : bool := existsb is_connected_event t.

(** A player holding the two tracks of [two_tracks], muted. *)
Definition muted_world : World :=
  {| this := with_volume zero (this connected_world);
     heap := [[100; -200; 32767; -32768]]; trace := [] |}.

(** A client configured with an empty list of relay nodes. *)
Definition no_nodes : External :=
  {| voiceOptions_nodes := Some [];
     api_post := api_post cooperative;
     api_delete := api_delete cooperative;
     room_connect := room_connect cooperative;
     room_name := room_name cooperative;
     room_disconnect := room_disconnect cooperative;
     room_localParticipant := room_localParticipant cooperative;
     publishTrack := publishTrack cooperative;
     unpublishTrack := unpublishTrack cooperative;
     track_has_setMuted := track_has_setMuted cooperative;
     track_has_setEnabled := track_has_setEnabled cooperative;
     setMuted_throws := setMuted_throws cooperative;
     setEnabled_throws := setEnabled_throws cooperative;
     captureFrame := captureFrame cooperative;
     Date_now := Date_now cooperative;
     isNodeAVAvailable := isNodeAVAvailable cooperative;
     nodeAV_convertAudioToPCM := nodeAV_convertAudioToPCM cooperative;
     nodeAV_setup := nodeAV_setup cooperative;
     live_events := live_events cooperative;
     ffmpeg := ffmpeg cooperative;
     URL_protocol := URL_protocol cooperative;
     existsSync := existsSync cooperative;
     String_toLowerCase := String_toLowerCase cooperative;
     Number_toFixed0 := Number_toFixed0 cooperative;
     http_get := http_get cooperative;
     error_listener := error_listener cooperative;
     util_inspect := util_inspect cooperative;
     interrupts := interrupts cooperative |}.

(** No primary decoder, and an [ffmpeg] that writes five bytes in two
    pieces, complains on its error stream and exits normally. *)
Definition working_ffmpeg : External :=
  scripted (fun _ _ _ _ => inr granted_session) (fun _ _ => None) None
           (Publish_ok (mkPublication "TR_1" true)) (fun _ => None) None
           false
           (mkProcRun [Stdout_data [1; 0; 255]; Stderr_data "size=";
                       Input_end; Stdout_data [255; 7]] (Some (Some 0)))
           (fun _ _ => []) (fun _ => []).





(** ** Sessions *)

(** What the host and the transport may do to a player between two
    playbacks: the public methods that manage the connection and the
    volume, and the [Disconnected] event of the room. *)
Inductive Call : Type :=
| Call_connect (targetChannelId : option string)
| Call_disconnect
| Call_stop (trackName : option string)
| Call_setVolume (level : number)
| Call_increaseVolume (amount : option number)
| Call_decreaseVolume (amount : option number)
| Call_mute
| Call_unmute
| Room_disconnected.

Definition perform (ext : External) (c : Call) : M unit :=
  match c with
  | Call_connect targetChannelId => connect ext targetChannelId
  | Call_disconnect => disconnect ext
  | Call_stop trackName => stop ext trackName
  | Call_setVolume level => setVolume ext level
  | Call_increaseVolume amount => increaseVolume ext amount
  | Call_decreaseVolume amount => decreaseVolume ext amount
  | Call_mute => mute ext
  | Call_unmute => unmute ext
  | Room_disconnected => handleDisconnected ext
  end.

(** The calls run one after the other, each to its end; a call that
    rejects leaves the player to the next one. *)
Definition session (ext : External) (calls : list Call) (w : World) : World :=
  fold_left (fun w c => snd (perform ext c w)) calls w.

(** A player without room is not flagged connected and holds neither a
    publication nor an audio source. *)
Definition coherent (p : AudioPlayer) : Prop :=
  room p = None ->
  isConnected p = false /\ publications p = [] /\ audioSources p = [].

Definition holds_room (p : AudioPlayer) : Prop := room p <> None.

(** A computation keeps a property of the player object, however it
    ends. *)
Definition keeps {A : Type} (I : AudioPlayer -> Prop) (m : M A) : Prop :=
  forall w, I (this w) -> I (this (snd (m w))).

(** A property that reads only the room, the connection flag and the two
    maps. *)
Definition reads_resources (I : AudioPlayer -> Prop) : Prop :=
  forall p p',
    room p' = room p -> isConnected p' = isConnected p ->
    publications p' = publications p -> audioSources p' = audioSources p ->
    I p -> I p'.

(** The same collaborators with another transport of frames, another
    decoded audio and another behaviour of the host and the room at the
    suspension points. *)
Definition on_delivery (ext : External)
  (capture : list Action -> AudioSource -> list Z -> option JsError)
  (decoded : list Z)
  (interrupted : list Action -> list Interrupt) : External :=
  {| voiceOptions_nodes := voiceOptions_nodes ext;
     api_post := api_post ext;
     api_delete := api_delete ext;
     room_connect := room_connect ext;
     room_name := room_name ext;
     room_disconnect := room_disconnect ext;
     room_localParticipant := room_localParticipant ext;
     publishTrack := publishTrack ext;
     unpublishTrack := unpublishTrack ext;
     track_has_setMuted := track_has_setMuted ext;
     track_has_setEnabled := track_has_setEnabled ext;
     setMuted_throws := setMuted_throws ext;
     setEnabled_throws := setEnabled_throws ext;
     captureFrame := capture;
     Date_now := Date_now ext;
     isNodeAVAvailable := isNodeAVAvailable ext;
     nodeAV_convertAudioToPCM := fun _ _ => Resolved decoded;
     nodeAV_setup := nodeAV_setup ext;
     live_events := live_events ext;
     ffmpeg := ffmpeg ext;
     URL_protocol := URL_protocol ext;
     existsSync := existsSync ext;
     String_toLowerCase := String_toLowerCase ext;
     Number_toFixed0 := Number_toFixed0 ext;
     http_get := http_get ext;
     error_listener := error_listener ext;
     util_inspect := util_inspect ext;
     interrupts := interrupted |}.

Definition after (a : Action -> bool) (t : list Action) : bool :=
  match last t with
  | Some x => a x
  | None => false
  end.

Definition is_publishTrack (a : Action) : bool :=
  match a with PublishTrack _ _ => true | _ => false end.

Definition is_interrupt (a : Action) : bool :=
  match a with Interrupted _ => true | _ => false end.

(** The room reports [Disconnected] while [publishTrack] is awaited. *)
Definition lost_during_publish : External :=
  on_delivery cooperative (fun _ _ _ => None) [100; -200; 300; -400]
    (fun t => if after is_publishTrack t then [Transport_disconnected] else []).

(** Audio of 4801 samples, two chunks; during the first pacing wait the
    host calls [stop()] and then starts another finite playback. *)
Definition stop_then_play : External :=
  on_delivery cooperative (fun _ _ _ => None) (replicate 4801 0)
    (fun t => if after is_timeout t && negb (stop_called t)
              then [Host_stop None; Playback_begins false] else []).

(** The host calls [stop()] while the transport holds the first frame,
    which it then refuses. *)
Definition refused_while_stopping : External :=
  on_delivery cooperative
    (fun _ _ _ => Some (new_Error "InvalidState: source closed"))
    [100; -200; 300; -400]
    (fun t => if after is_frame t then [Host_stop None] else []).

(** The host calls [stop()] during the first pacing wait and starts
    nothing. *)
(** What the finite-mode loop does with the samples left when nobody
    interferes: a frame of at most 4800 samples, then a wait of 100 ms,
    and so on until no sample is left. *)
Fixpoint paced_delivery (passes : nat) (source : AudioSource)
  (samples : list Z) : list Action :=
  match passes, samples with
  | S passes', _ :: _ =>
      let chunk := take samplesPerChunk samples in
      CaptureFrame source chunk 48000 1 (Z.of_nat (length chunk))
      :: SetTimeout chunkDurationMs
      :: paced_delivery passes' source (drop samplesPerChunk samples)
  | _, _ => []
  end.

Definition long_audio : World :=
  {| this := this connected_world; heap := [replicate 4801 0]; trace := [] |}.

Definition stop_during_wait : External :=
  on_delivery cooperative (fun _ _ _ => None) (replicate 4801 0)
    (fun t => if after is_timeout t && negb (stop_called t)
              then [Host_stop None] else []).







(* ===================================================================== *)
(** * Properties *)
(* ===================================================================== *)

(** Running the monad on a world: unfold its primitives only. *)
Ltac run :=
  cbn [bind ret throw never try_catch get_this modify_this get_trace act
       this heap trace fst snd].

(** Reading a field of an updated player object. *)
Ltac fields :=
  cbn [with_channelId with_volume with_room with_publications
       with_audioSources with_isConnected with_shouldStop with_isStreaming
       with_once_disconnected channelId serverId _volume room publications
       audioSources isConnected shouldStop isStreaming once_disconnected].

(** ** Numbers: rounding, clamping and the 16-bit store *)

Section Rounding_facts.

Lemma shr_1_nonneg (mrs : shr_record) : 0 <= shr_m mrs -> 0 <= shr_m (shr_1 mrs).
Proof.
  destruct mrs as [m r s]; simpl.
  destruct m as [|p|p]; simpl; try lia; destruct p; simpl; lia.
Qed.

Lemma iter_pos_invariant {A : Type} (P : A -> Prop) (f : A -> A) :
  (forall x, P x -> P (f x)) -> forall n x, P x -> P (SpecFloat.iter_pos f n x).
Proof.
  intros Hf n; induction n as [n IH|n IH|]; intros x Hx; simpl; auto.
Qed.

Lemma shr_nonneg (mrs : shr_record) (e n : Z) :
  0 <= shr_m mrs -> 0 <= shr_m (fst (shr mrs e n)).
Proof.
  intros H; destruct n as [|p|p]; simpl; auto.
  apply (iter_pos_invariant (fun x => 0 <= shr_m x)); auto using shr_1_nonneg.
Qed.

Lemma shr_record_of_loc_m (m : Z) (l : location) : shr_m (shr_record_of_loc m l) = m.
Proof. destruct l as [|[]]; reflexivity. Qed.

Lemma shr_fexp_nonneg (m e : Z) (l : location) :
  0 <= m -> 0 <= shr_m (fst (shr_fexp prec emax m e l)).
Proof.
  intros H; unfold shr_fexp; apply shr_nonneg; rewrite shr_record_of_loc_m; exact H.
Qed.

Lemma round_nearest_even_nonneg (m : Z) (l : location) :
  0 <= m -> 0 <= round_nearest_even m l.
Proof.
  intros H; destruct l as [|[]]; simpl; try lia; destruct (Z.even m); lia.
Qed.

Lemma binary_round_aux_not_nan (sx : bool) (mx ex : Z) (lx : location) :
  0 <= mx -> is_nan (binary_round_aux prec emax sx mx ex lx) = false.
Proof.
  intros H; unfold binary_round_aux.
  pose proof (shr_fexp_nonneg mx ex lx H) as H1.
  destruct (shr_fexp prec emax mx ex lx) as [mrs' e'] eqn:E1; simpl in H1.
  pose proof (shr_fexp_nonneg _ e' loc_Exact
                (round_nearest_even_nonneg _ (loc_of_shr_record mrs') H1)) as H2.
  destruct (shr_fexp prec emax _ e' loc_Exact) as [mrs'' e''] eqn:E2; simpl in H2.
  destruct (shr_m mrs'') as [|p|p]; try reflexivity; try lia.
  destruct (e'' <=? emax - prec); reflexivity.
Qed.

End Rounding_facts.

Lemma Z_compare_scale (a b k : Z) : 0 < k -> (a * k ?= b * k) = (a ?= b).
Proof.
  intros Hk. destruct (Z.compare_spec a b) as [E|E|E].
  - subst. apply Z.compare_refl.
  - apply Z.compare_lt_iff. nia.
  - apply Z.compare_gt_iff. nia.
Qed.


Lemma Math_round_int_value (s : bool) (m : positive) (e : Z) :
  int_value (Math_round (S754_finite s m e)) = Some (round_half_up s m e).
Proof.
  unfold Math_round, round_half_up.
  destruct (0 <=? e) eqn:He.
  - simpl. rewrite He. reflexivity.
  - destruct ((2 * signed s m + 2 ^ (- e)) / 2 ^ (1 - e)) as [|p|p]; simpl;
      f_equal; lia.
Qed.

Lemma compare_hi_int (r : number) (n : Z) :
  int_value r = Some n ->
  compare (of_Z 32767) r = Some (32767 ?= n) /\
  compare r (of_Z 32767) = Some (n ?= 32767).
Proof.
  change (of_Z 32767) with (S754_finite false 9006924376834048 (-38)).
  destruct r as [s| |  |s m e]; simpl; try discriminate.
  - intros [= <-]. split; reflexivity.
  - destruct (0 <=? e) eqn:He; [|discriminate]. intros [= <-].
    apply Z.leb_le in He.
    unfold compare_dyadic. rewrite Z.min_l, Z.min_r by lia.
    replace (e - -38) with (e + 38) by lia.
    rewrite Z.sub_diag, Z.pow_add_r by lia.
    change 9006924376834048 with (32767 * 2 ^ 38).
    rewrite Z.mul_assoc, !Z.mul_1_r.
    split; apply f_equal; apply Z_compare_scale; lia.
Qed.

Lemma compare_lo_int (r : number) (n : Z) :
  int_value r = Some n ->
  compare (of_Z (-32768)) r = Some (-32768 ?= n) /\
  compare r (of_Z (-32768)) = Some (n ?= -32768).
Proof.
  change (of_Z (-32768)) with (S754_finite true 4503599627370496 (-37)).
  destruct r as [s| |  |s m e]; simpl; try discriminate.
  - intros [= <-]. split; reflexivity.
  - destruct (0 <=? e) eqn:He; [|discriminate]. intros [= <-].
    apply Z.leb_le in He.
    unfold compare_dyadic. rewrite Z.min_l, Z.min_r by lia.
    replace (e - -37) with (e + 37) by lia.
    rewrite Z.sub_diag, Z.pow_add_r by lia.
    change (Z.neg 4503599627370496) with (-32768 * 2 ^ 37).
    rewrite Z.mul_assoc, !Z.mul_1_r.
    split; apply f_equal; apply Z_compare_scale; lia.
Qed.

Lemma int_value_not_nan (r : number) (n : Z) : int_value r = Some n -> is_nan r = false.
Proof. destruct r; simpl; congruence. Qed.

Lemma ToInt16_int (r : number) (n : Z) :
  int_value r = Some n -> -32768 <= n <= 32767 -> ToInt16 r = n.
Proof.
  destruct r as [s| |  |s m e]; simpl; try discriminate.
  - intros [= <-] _. reflexivity.
  - destruct (0 <=? e) eqn:He; [|discriminate]. intros [= <-] Hn.
    unfold truncate. rewrite He.
    assert (Ht : (if s then - (Z.pos m * 2 ^ e) else Z.pos m * 2 ^ e)
                 = signed s m * 2 ^ e) by (destruct s; simpl; lia).
    rewrite Ht. set (n := signed s m * 2 ^ e) in *.
    destruct (Z_lt_le_dec n 0) as [Hneg|Hpos].
    + replace (n mod 65536) with (n + 65536)
        by (apply Z.mod_unique with (q := -1); lia).
      destruct (32768 <=? n + 65536) eqn:E; [lia|apply Z.leb_gt in E; lia].
    + rewrite Z.mod_small by lia.
      destruct (32768 <=? n) eqn:E; [apply Z.leb_le in E; lia|reflexivity].
Qed.

Lemma store_clamped_int (r : number) (n : Z) :
  int_value r = Some n ->
  ToInt16 (Math_max (of_Z (-32768)) (Math_min (of_Z 32767) r))
  = Z.max (-32768) (Z.min 32767 n).
Proof.
  intros Hr.
  destruct (compare_hi_int r n Hr) as [Hhr Hrh].
  destruct (compare_lo_int r n Hr) as [Hlr Hrl].
  pose proof (int_value_not_nan r n Hr) as Hnan.
  unfold Math_min, lt. rewrite Hhr, Hrh, Hnan.
  change (is_nan (of_Z 32767)) with false. cbn [orb].
  destruct (Z.compare_spec 32767 n) as [E|E|E].
  - subst n. rewrite Z.compare_refl.
    change (of_Z 32767) with (S754_finite false 9006924376834048 (-38)).
    destruct r; reflexivity.
  - destruct (Z.compare_spec n 32767); try lia.
    replace (Z.max (-32768) (Z.min 32767 n)) with 32767 by lia.
    destruct r; reflexivity.
  - destruct (Z.compare_spec n 32767); try lia.
    replace (Z.min 32767 n) with n by lia.
    unfold Math_max, lt. rewrite Hlr, Hrl, Hnan.
    change (is_nan (of_Z (-32768))) with false. cbn [orb].
    destruct (Z.compare_spec (-32768) n) as [E'|E'|E'].
    + subst n. rewrite Z.compare_refl.
      change (of_Z (-32768)) with (S754_finite true 4503599627370496 (-37)).
      destruct r; reflexivity.
    + replace (Z.max (-32768) n) with n by lia.
      apply ToInt16_int; [exact Hr|lia].
    + destruct (Z.compare_spec n (-32768)); try lia.
      replace (Z.max (-32768) n) with (-32768) by lia.
      reflexivity.
Qed.

Lemma store_clamped (x : number) :
  is_nan x = false ->
  ToInt16 (Math_max (of_Z (-32768)) (Math_min (of_Z 32767) (Math_round x)))
  = clamp_round x.
Proof.
  destruct x as [s|s| |s m e]; intros Hx; try discriminate.
  - destruct s; reflexivity.
  - destruct s; reflexivity.
  - unfold clamp_round.
    apply store_clamped_int, Math_round_int_value.
Qed.


Lemma digits2_pos_lower (m : positive) :
  2 ^ (Z.pos (digits2_pos m) - 1) <= Z.pos m.
Proof.
  induction m as [m IH|m IH|]; cbn [digits2_pos]; [| |simpl; lia].
  - replace (Z.pos (Pos.succ (digits2_pos m)) - 1)
      with (Z.succ (Z.pos (digits2_pos m) - 1)) by lia.
    rewrite Z.pow_succ_r by lia. lia.
  - replace (Z.pos (Pos.succ (digits2_pos m)) - 1)
      with (Z.succ (Z.pos (digits2_pos m) - 1)) by lia.
    rewrite Z.pow_succ_r by lia. lia.
Qed.

Lemma digits2_pos_shift (m k : positive) :
  digits2_pos (Pos.iter xO m k) = (digits2_pos m + k)%positive.
Proof.
  induction k as [|k IH] using Pos.peano_ind.
  - simpl. lia.
  - rewrite Pos.iter_succ. simpl. rewrite IH. lia.
Qed.

Lemma digits2_pos_small (m : positive) :
  (m <= 32768)%positive -> (digits2_pos m <= 16)%positive.
Proof.
  intros Hm.
  destruct (Pos.leb_spec (digits2_pos m) 16) as [H|H]; [exact H|].
  exfalso. pose proof (digits2_pos_lower m) as Hlow.
  assert (Hpow : 2 ^ 16 <= 2 ^ (Z.pos (digits2_pos m) - 1))
    by (apply Z.pow_le_mono_r; lia).
  change (2 ^ 16) with 65536 in Hpow. lia.
Qed.

Lemma fexp_max (e : Z) : fexp prec emax e = Z.max (e - 53) (-1074).
Proof. reflexivity. Qed.

(** A mantissa of full width with an exponent in range is its own
    rounding. *)
Lemma binary_round_aux_canonical (s : bool) (m : positive) (e : Z) :
  Z.pos (digits2_pos m) = prec -> -1074 <= e <= 971 ->
  binary_round_aux prec emax s (Z.pos m) e loc_Exact = S754_finite s m e.
Proof.
  intros Hd He.
  assert (Hshift : shr_fexp prec emax (Z.pos m) e loc_Exact
                   = (Build_shr_record (Z.pos m) false false, e)).
  { unfold shr_fexp. rewrite fexp_max. cbn [Zdigits2]. rewrite Hd.
    unfold prec.
    replace (Z.max (53 + e - 53) (-1074) - e) with 0 by lia.
    reflexivity. }
  unfold binary_round_aux. rewrite Hshift. cbn [shr_m loc_of_shr_record round_nearest_even].
  rewrite Hshift. cbn [shr_m].
  unfold prec, emax. destruct (Z.leb_spec e (1024 - 53)); [reflexivity|lia].
Qed.

Lemma binary_round_small (s : bool) (m : positive) :
  (m <= 32768)%positive ->
  finite_or_zero (binary_round prec emax s m 0) = true.
Proof.
  intros Hm. pose proof (digits2_pos_small m Hm) as Hd.
  unfold binary_round, shl_align. rewrite fexp_max.
  replace (Z.max (Z.pos (digits2_pos m) + 0 - 53) (-1074))
    with (Z.pos (digits2_pos m) - 53) by lia.
  destruct (Z.pos (digits2_pos m) - 53 - 0) as [|p|p] eqn:Hp; try lia.
  rewrite binary_round_aux_canonical; [reflexivity| |lia].
  change (PosDef.Pos.iter xO m p) with (Pos.iter xO m p).
  rewrite digits2_pos_shift. unfold prec. lia.
Qed.

Lemma of_Z_int16_finite (s : Z) : int16 s -> finite_or_zero (of_Z s) = true.
Proof.
  intros Hs. unfold int16 in Hs. unfold of_Z, binary_normalize.
  destruct s as [|m|m]; [reflexivity| |]; apply binary_round_small; lia.
Qed.

Lemma in_range_finite (v : number) :
  le zero v = true -> le v two = true -> finite_or_zero v = true.
Proof. destruct v as [s|[]| |s m e]; try reflexivity; vm_compute; congruence. Qed.

Lemma mul_not_nan (x y : number) :
  finite_or_zero x = true -> finite_or_zero y = true -> is_nan (mul x y) = false.
Proof.
  destruct x as [sx| | |sx mx ex], y as [sy| | |sy my ey]; simpl;
    try discriminate; try reflexivity.
  intros _ _. apply binary_round_aux_not_nan. lia.
Qed.


Lemma stored_clamp_round (volume : number) (x : Z) :
  le zero volume = true -> le volume two = true -> int16 x ->
  stored volume x = clamp_round (mul (of_Z x) volume).
Proof.
  intros H0 H2 Hx. unfold stored, scaled_sample.
  apply store_clamped, mul_not_nan;
    [apply of_Z_int16_finite, Hx|apply in_range_finite; assumption].
Qed.

Section ApplyVolume.

Context (ext : External).

Lemma applyVolume_loop (p : AudioPlayer) (H : list (list Z)) (t : list Action)
  (pcmData : Int16Array) (data : list Z) :
  (forall arr, contents (H ++ [arr]) pcmData = data) ->
  forall (k : nat) (pre rest : list Z),
    data = pre ++ rest ->
    length rest = k ->
    for_upto k (length pre) (applyVolume_pass pcmData (length H))
      {| this := p;
         heap := H ++ [map (stored (_volume p)) pre ++ replicate k 0];
         trace := t |}
    = (Resolved tt,
       {| this := p;
          heap := H ++ [map (stored (_volume p)) (pre ++ rest)];
          trace := t |}).
Proof.
  intros Hdata k. induction k as [|k IH]; intros pre rest Hsplit Hlen.
  - destruct rest; [|discriminate]. cbn [for_upto replicate].
    rewrite !app_nil_r. reflexivity.
  - destruct rest as [|x rest]; [discriminate|].
    injection Hlen as Hlen.
    cbn [for_upto]. unfold bind at 1. unfold applyVolume_pass at 1.
    unfold bind at 1. unfold typed_get at 1. cbn [heap].
    rewrite Hdata, Hsplit.
    rewrite lookup_app_r, Nat.sub_diag by lia. cbn [lookup list_lookup].
    unfold bind at 1. unfold get_this at 1. cbn [this].
    unfold typed_set at 1. cbn [this heap trace].
    replace (alter _ (length H) (H ++ [map (stored (_volume p)) pre ++ replicate (S k) 0]))
      with (H ++ [map (stored (_volume p)) (pre ++ [x]) ++ replicate k 0]).
    + replace (S (length pre)) with (length (pre ++ [x]))
        by (rewrite length_app; simpl; lia).
      rewrite (IH (pre ++ [x]) rest).
      * rewrite <- app_assoc. reflexivity.
      * rewrite <- app_assoc. exact Hsplit.
      * exact Hlen.
    + replace (length H) with (length H + 0)%nat at 1 by lia.
      rewrite alter_app_r. cbn [alter list_alter].
      do 2 f_equal.
      rewrite insert_app_r_alt by (rewrite length_map; lia).
      rewrite length_map, Nat.sub_diag, map_app, <- app_assoc. reflexivity.
Qed.

End ApplyVolume.

Lemma clamp_round_int16 (x : number) : int16 (clamp_round x).
Proof.
  unfold int16, clamp_round. destruct x as [s|[]| |s m e]; lia.
Qed.

Lemma contents_app_l (H : list (list Z)) (arr : list Z) (a : Int16Array) :
  (a < length H)%nat -> contents (H ++ [arr]) a = contents H a.
Proof. intros Ha. unfold contents. rewrite lookup_app_l by exact Ha. reflexivity. Qed.

Lemma contents_fresh (H : list (list Z)) (arr : list Z) :
  contents (H ++ [arr]) (length H) = arr.
Proof.
  unfold contents. rewrite lookup_app_r, Nat.sub_diag by lia. reflexivity.
Qed.

Lemma contents_dangling (H : list (list Z)) (a : Int16Array) :
  (length H <= a)%nat -> contents H a = [].
Proof. intros Ha. unfold contents. rewrite lookup_ge_None_2 by exact Ha. reflexivity. Qed.

(** C5: for a level in [0, 2] and 16-bit input samples, [applyVolume]
    returns an array holding what the reference definition gives: the
    input array itself when the level is 1.0, and otherwise a fresh array of
    the same length whose samples are the rounded products clamped to
    [-32768, 32767].  Every output sample is a 16-bit value; the result
    depends on the level and the input samples only; the player, the trace
    and every array that existed before, the input included, are left as
    they were. *)
Theorem applyVolume_matches_reference (w : World) (pcmData : Int16Array) :
  let level := _volume (this w) in
  let samples := contents (heap w) pcmData in
  le zero level = true -> le level two = true ->
  Forall int16 samples ->
  exists (result : Int16Array) (w' : World),
    applyVolume pcmData w = (Resolved result, w') /\
    contents (heap w') result = applyVolume_reference level samples /\
    (strict_eq level one = true -> result = pcmData /\ w' = w) /\
    length (contents (heap w') result) = length samples /\
    Forall int16 (contents (heap w') result) /\
    contents (heap w') pcmData = samples /\
    (exists fresh, heap w' = heap w ++ fresh) /\
    this w' = this w /\ trace w' = trace w.
Proof.
  intros level samples H0 H2 Hin.
  destruct w as [p H t]. cbn [this heap trace] in *.
  unfold applyVolume, applyVolume_reference.
  unfold bind at 1. unfold get_this at 1. cbn [this].
  fold level. destruct (strict_eq level one) eqn:Hone.
  - exists pcmData, (mkWorld p H t). cbn [ret this heap trace]. fold samples.
    repeat split; auto. exists []. rewrite app_nil_r. reflexivity.
  - unfold bind at 1. unfold read_Int16Array at 1. cbn [heap]. fold samples.
    unfold bind at 1. unfold alloc_Int16Array at 1. cbn [this heap trace].
    assert (Hloop :
      for_upto (length samples) 0 (applyVolume_pass pcmData (length H))
        (mkWorld p (H ++ [replicate (length samples) 0]) t)
      = (Resolved tt, mkWorld p (H ++ [map (stored level) samples]) t)).
    { destruct (le_lt_dec (length H) pcmData) as [Hdang|Hvalid].
      - assert (samples = []) as -> by (apply contents_dangling; exact Hdang).
        reflexivity.
      - apply (applyVolume_loop p H t pcmData samples) with (pre := []);
          [intros arr; apply contents_app_l; exact Hvalid|reflexivity|reflexivity]. }
    unfold bind at 1. rewrite Hloop. cbn [ret].
    exists (length H), (mkWorld p (H ++ [map (stored level) samples]) t).
    cbn [this heap trace]. rewrite contents_fresh.
    assert (Hmap : map (stored level) samples
                   = map (fun s => clamp_round (mul (of_Z s) level)) samples).
    { apply map_ext_in. intros x Hx. apply stored_clamp_round; auto.
      rewrite Forall_forall in Hin. apply Hin, list_elem_of_In, Hx. }
    repeat split.
    + exact Hmap.
    + discriminate.
    + discriminate.
    + apply length_map.
    + rewrite Hmap. apply Forall_forall. intros y Hy.
      apply list_elem_of_In, in_map_iff in Hy. destruct Hy as (x & <- & _).
      apply clamp_round_int16.
    + destruct (le_lt_dec (length H) pcmData) as [Hdang|Hvalid].
      * assert (Hs : contents H pcmData = [])
          by (apply contents_dangling; exact Hdang).
        subst samples. rewrite Hs.
        destruct (decide (pcmData = length H)) as [->|Hne].
        -- rewrite contents_fresh. reflexivity.
        -- apply contents_dangling. rewrite length_app. simpl. lia.
      * apply contents_app_l. exact Hvalid.
    + eexists. reflexivity.
Qed.

Lemma applyVolume_matches_reference_witness :
  exists (result : Int16Array) (w' : World),
    applyVolume 0%nat loud_world = (Resolved result, w') /\
    contents (heap w') result = [150; -300; 32767; -32768] /\
    contents (heap w') 0%nat = [100; -200; 32767; -32768].
Proof.
  destruct (applyVolume_matches_reference loud_world 0%nat)
    as (result & w' & Hrun & Href & _ & _ & _ & Hin & _);
    [reflexivity|reflexivity|repeat constructor; unfold int16; lia|].
  exists result, w'. split; [exact Hrun|]. split; [|exact Hin].
  rewrite Href. reflexivity.
Defined.

(** ** Volume control *)

Lemma setVolume_run (ext : External) (level : number) (w : World) :
  setVolume ext level w
  = (Resolved tt,
     {| this := with_volume (Math_max zero (Math_min two level)) (this w);
        heap := heap w;
        trace := trace w ++
          [Emit (Ev_debug ("Volume set to "
                   +:+ Number_toFixed0 ext
                         (mul (Math_max zero (Math_min two level)) (of_Z 100))
                   +:+ "%"));
           Emit (Ev_volumeChanged (_volume (this w))
                   (Math_max zero (Math_min two level)))] |}).
Proof.
  destruct w as [p h t]. unfold setVolume, emit. run.
  cbn [with_volume _volume]. rewrite <- app_assoc. reflexivity.
Qed.

(** C10: [unmute] sets the volume to 1.0 exactly when the current volume
    is zero, and otherwise returns without changing the player or emitting
    anything; [mute] followed by [unmute] therefore ends at 1.0 from every
    starting volume, which differs from the starting volume unless that
    was 1.0 already: the level held before [mute] is not restored. *)
Theorem unmute_restores_full_volume_only (ext : External) (w : World) :
  (strict_eq (_volume (this w)) zero = true ->
   exists w', unmute ext w = (Resolved tt, w') /\
              _volume (this w') = one /\
              last (trace w') = Some (Emit (Ev_unmuted one))) /\
  (strict_eq (_volume (this w)) zero = false ->
   unmute ext w = (Resolved tt, w)) /\
  (exists w1 w2,
     mute ext w = (Resolved tt, w1) /\
     unmute ext w1 = (Resolved tt, w2) /\
     _volume (this w1) = zero /\
     _volume (this w2) = one /\
     (strict_eq (_volume (this w)) one = false ->
      strict_eq (_volume (this w)) (_volume (this w2)) = false)).
Proof.
  assert (Hunmute : forall w0, strict_eq (_volume (this w0)) zero = true ->
            exists w', unmute ext w0 = (Resolved tt, w') /\
                       _volume (this w') = one /\
                       last (trace w') = Some (Emit (Ev_unmuted one))).
  { intros w0 Hz. unfold unmute. unfold bind at 1. unfold get_this at 1.
    rewrite Hz. unfold bind at 1. rewrite setVolume_run.
    eexists. split; [reflexivity|]. cbn [this heap trace with_volume _volume].
    split; [reflexivity|]. rewrite last_snoc. reflexivity. }
  split; [apply Hunmute|]. split.
  - intros Hnz. unfold unmute, bind, get_this. rewrite Hnz.
    destruct w; reflexivity.
  - assert (Hmute : exists w1, mute ext w = (Resolved tt, w1)
                               /\ _volume (this w1) = zero).
    { unfold mute. unfold bind at 1. unfold get_this at 1.
      unfold bind at 1. rewrite setVolume_run.
      eexists. split; reflexivity. }
    destruct Hmute as (w1 & Hm & Hv1).
    destruct (Hunmute w1) as (w2 & Hu & Hv2 & _);
      [rewrite Hv1; reflexivity|].
    exists w1, w2. repeat split; auto. rewrite Hv2. auto.
Qed.


Lemma unmute_restores_full_volume_only_witness :
  (exists w', unmute cooperative (snd (mute cooperative half_volume)) = (Resolved tt, w')
              /\ _volume (this w') = one) /\
  unmute cooperative half_volume = (Resolved tt, half_volume) /\
  (exists w1 w2, mute cooperative half_volume = (Resolved tt, w1) /\
                 unmute cooperative w1 = (Resolved tt, w2) /\
                 strict_eq (_volume (this half_volume)) (_volume (this w2)) = false).
Proof.
  split; [|split].
  - destruct (unmute_restores_full_volume_only cooperative
                (snd (mute cooperative half_volume))) as (H & _ & _).
    destruct (H eq_refl) as (w' & Hu & Hv & _). exists w'. split; assumption.
  - destruct (unmute_restores_full_volume_only cooperative half_volume)
      as (_ & H & _).
    apply H. reflexivity.
  - destruct (unmute_restores_full_volume_only cooperative half_volume)
      as (_ & _ & w1 & w2 & Hm & Hu & _ & _ & Hne).
    exists w1, w2. repeat split; auto.
Defined.

(** ** Connection *)

Section Negotiation.

Context (ext : External).

Lemma post_join_call_run (channel node : string) (force : bool) (w : World) :
  post_join_call ext channel node force w
  = (match api_post ext (trace w) (join_call_path channel) node force with
     | inl e => Rejected e
     | inr response => Resolved response
     end,
     logged w (trace w ++ [Api_post (join_call_path channel) node force])).
Proof.
  unfold post_join_call. run.
  destruct (api_post ext (trace w) (join_call_path channel) node force);
    reflexivity.
Qed.

Lemma delete_join_call_run (channel : string) (w : World) :
  delete_join_call ext channel w
  = (match api_delete ext (trace w) (join_call_path channel) with
     | Some e => Rejected e
     | None => Resolved tt
     end,
     logged w (trace w ++ [Api_delete (join_call_path channel)])).
Proof.
  unfold delete_join_call. run.
  destruct (api_delete ext (trace w) (join_call_path channel)); reflexivity.
Qed.

Lemma selectedNode_run (w : World) :
  voiceOptions_nodes ext <> Some [] ->
  selectedNode ext w = (Resolved (node_name ext), w).
Proof.
  intros Hn. unfold selectedNode, node_name.
  destruct (voiceOptions_nodes ext) as [[|[n|] l]|]; try reflexivity.
  contradiction.
Qed.


Lemma emit_plain (e : Event) (w : World) :
  match e with Ev_error _ _ | Ev_disconnected _ _ _ => False | _ => True end ->
  emit ext e w = (Resolved tt, logged w (trace w ++ [Emit e])).
Proof. destruct e; intros []; reflexivity. Qed.

Lemma requests_snoc (t : list Action) (a : Action) :
  requests (t ++ [a]) = requests t ++ (if is_request a then [a] else []).
Proof.
  unfold requests. rewrite List.filter_app. simpl.
  destruct (is_request a); reflexivity.
Qed.

(** The transport half of [connect]: it sends no request; it leaves the
    room handle set whether or not the handshake succeeds. *)
Lemma open_transport_run (c : string) (r : JoinResponse) (w : World) :
  let handle := length (trace w) in
  let t := (trace w ++ [Room_new handle]) ++ [Room_on_Disconnected handle] in
  exists w',
    open_transport ext c r w
    = (match room_connect ext t handle (url r) (token r) with
       | Some e => Rejected e
       | None => Resolved tt
       end, w') /\
    requests (trace w') = requests (trace w) /\
    room (this w') = Some handle /\
    isConnected (this w')
    = isConnected (this w)
      || bool_decide (room_connect ext t handle (url r) (token r) = None).
Proof.
  intros room0 t. unfold open_transport. run.
  fold room0. fold t.
  destruct (room_connect ext t room0 (url r) (token r)) as [e|] eqn:Hc.
  - eexists. split; [reflexivity|]. cbn [this trace with_room room isConnected].
    repeat split.
    + subst t. rewrite !requests_snoc. cbn. rewrite !app_nil_r. reflexivity.
    + rewrite orb_false_r. reflexivity.
  - unfold emit. run. eexists. split; [reflexivity|].
    cbn [this trace with_room with_isConnected room isConnected].
    repeat split.
    + subst t. rewrite !requests_snoc. cbn. rewrite !app_nil_r. reflexivity.
    + rewrite orb_true_r. reflexivity.
Qed.

Lemma as_Error_is_Error (error : JsError) :
  instanceof_Error (as_Error error) = true.
Proof. unfold as_Error. destruct (instanceof_Error error) eqn:E; auto. Qed.

Lemma as_Error_of_Error (error : JsError) :
  instanceof_Error error = true -> as_Error error = error.
Proof. unfold as_Error. intros ->. reflexivity. Qed.

(** The [catch] block of [connect] surfaces the error: it rejects with
    what it caught (with the [Error] made of it when the [error] event has
    no listener), after emitting the [error] event, and touches neither
    the player nor the endpoint. *)
Lemma connection_failed_run (c : string) (error : JsError) (w : World) :
  exists w',
    connection_failed ext c error w
    = (Rejected (if error_listener ext then error else as_Error error), w') /\
    this w' = this w /\ requests (trace w') = requests (trace w) /\
    In (Emit (Ev_error (as_Error error) "connection")) (trace w').
Proof.
  unfold connection_failed, emit, console_error. run.
  rewrite as_Error_is_Error. destruct (error_listener ext); run.
  - eexists. split; [reflexivity|]. cbn [this trace]. repeat split.
    + rewrite !requests_snoc. cbn. rewrite !app_nil_r. reflexivity.
    + apply in_or_app. left. apply in_or_app. right. left. reflexivity.
  - eexists. split; [reflexivity|]. cbn [this trace]. repeat split.
    + rewrite !requests_snoc. cbn. rewrite !app_nil_r. reflexivity.
    + apply in_or_app. right. left. reflexivity.
Qed.

End Negotiation.


Section Conflict.

Context (ext : External) (w : World).

(** [connect] on a player that is not connected is the connection
    attempt proper. *)
Lemma connect_idle (targetChannelId : option string) :
  isConnected (this w) = false ->
  voiceOptions_nodes ext <> Some [] ->
  connect ext targetChannelId w
  = try_catch
      (response <- negotiate ext (channelToConnect (this w) targetChannelId)
                     (node_name ext);;
       open_transport ext (channelToConnect (this w) targetChannelId) response)
      (connection_failed ext (channelToConnect (this w) targetChannelId))
      (logged w (trace w ++ [Emit (Ev_debug "Starting connection")])).
Proof.
  intros Hidle Hnodes. unfold connect. run. rewrite Hidle. cbn [andb].
  unfold connect_to, emit. run.
  rewrite (selectedNode_run ext _ Hnodes). reflexivity.
Qed.

(** The three ways the negotiation can go after a conflict. *)
Lemma negotiate_conflict (c n : string) (e : JsError) (w0 : World) :
  let path := join_call_path c in
  api_post ext (trace w0) path n false = inl e ->
  is_AlreadyConnected e = true ->
  let t1 := trace w0 ++ [Api_post path n false] in
  let t2 := t1 ++ [Api_delete path] in
  let t3 := t2 ++ [Api_post path n false] in
  negotiate ext c n w0
  = match api_delete ext t1 path with
    | None =>
        match api_post ext t2 path n false with
        | inr r => (Resolved r, logged w0 t3)
        | inl _ =>
            (match api_post ext t3 path n true with
             | inr r => Resolved r
             | inl _ => Rejected (new_Error conflict_message)
             end, logged w0 (t3 ++ [Api_post path n true]))
        end
    | Some _ =>
        (match api_post ext t2 path n true with
         | inr r => Resolved r
         | inl _ => Rejected (new_Error conflict_message)
         end, logged w0 (t2 ++ [Api_post path n true]))
    end.
Proof.
  intros path Hfirst Hconflict t1 t2 t3. unfold negotiate.
  cbn [try_catch]. rewrite post_join_call_run. fold path. rewrite Hfirst, Hconflict.
  cbn [try_catch bind]. rewrite delete_join_call_run. fold path.
  cbn [logged trace]. fold t1.
  destruct (api_delete ext t1 path) as [ed|].
  - rewrite post_join_call_run. fold path. cbn [logged trace this heap]. fold t2.
    destruct (api_post ext t2 path n true); reflexivity.
  - rewrite post_join_call_run. fold path. cbn [logged trace this heap]. fold t2.
    destruct (api_post ext t2 path n false) as [e2|r].
    + rewrite post_join_call_run. fold path. cbn [logged trace this heap]. fold t3.
      destruct (api_post ext t3 path n true); reflexivity.
    + reflexivity.
Qed.

(** Once the endpoint has granted the session, the outcome of [connect]
    is the outcome of the handshake, and no further request is sent. *)
Lemma granted (c : string) (r : JoinResponse) (t : list Action) :
  let handshake :=
    room_connect ext ((t ++ [Room_new (length t)])
                      ++ [Room_on_Disconnected (length t)])
                 (length t) (url r) (token r) in
  exists o w',
    try_catch (open_transport ext c r) (connection_failed ext c) (logged w t)
    = (o, w') /\
    requests (trace w') = requests t /\
    (handshake = None -> o = Resolved tt /\ connected (this w') = true).
Proof.
  intros handshake.
  destruct (open_transport_run ext c r (logged w t)) as (w1 & Hrun & Hreq & Hroom & Hconn).
  cbn [logged trace this] in Hrun, Hreq, Hconn. fold handshake in Hrun, Hconn.
  cbn [try_catch]. rewrite Hrun.
  destruct handshake as [err|] eqn:Hh.
  - destruct (connection_failed_run ext c err w1) as (w2 & Hf & _ & Hreq2 & _).
    rewrite Hf. do 2 eexists. split; [reflexivity|]. split; [congruence|].
    discriminate.
  - do 2 eexists. split; [reflexivity|]. split; [exact Hreq|].
    intros _. split; [reflexivity|]. unfold connected.
    rewrite Hconn, Hroom, orb_true_r. reflexivity.
Qed.

End Conflict.

(** C2: after an [AlreadyConnected] answer to the join request,
    [connect] first releases the grant (DELETE) and joins again; when that
    succeeds the request with the force flag is never sent, and the session
    is connected once the handshake succeeds.  Only when the release or
    the second join fails is the join with the force flag sent, once; when
    it fails too, [connect] rejects with the conflict error and its list of
    solutions, leaves the player as it was and sends nothing more. *)
Theorem connect_conflict_recovery (ext : External) (w : World)
  (targetChannelId : option string) (e : JsError) :
  let c := channelToConnect (this w) targetChannelId in
  let n := node_name ext in
  let path := join_call_path c in
  let join := Api_post path n false in
  let release := Api_delete path in
  let forced := Api_post path n true in
  let t0 := trace w ++ [Emit (Ev_debug "Starting connection")] in
  let t1 := t0 ++ [join] in
  let t2 := t1 ++ [release] in
  let t3 := t2 ++ [join] in
  let handshake (t : list Action) (r : JoinResponse) :=
    room_connect ext ((t ++ [Room_new (length t)])
                      ++ [Room_on_Disconnected (length t)])
                 (length t) (url r) (token r) in
  isConnected (this w) = false ->
  voiceOptions_nodes ext <> Some [] ->
  api_post ext t0 path n false = inl e ->
  is_AlreadyConnected e = true ->
  (forall r,
     api_delete ext t1 path = None ->
     api_post ext t2 path n false = inr r ->
     exists o w',
       connect ext targetChannelId w = (o, w') /\
       requests (trace w') = requests (trace w) ++ [join; release; join] /\
       (handshake t3 r = None -> o = Resolved tt /\ connected (this w') = true)) /\
  (forall t sent,
     (api_delete ext t1 path <> None /\ t = t2 /\ sent = [join; release]) \/
     (api_delete ext t1 path = None /\
      (exists e', api_post ext t2 path n false = inl e') /\
      t = t3 /\ sent = [join; release; join]) ->
     exists o w',
       connect ext targetChannelId w = (o, w') /\
       requests (trace w') = requests (trace w) ++ sent ++ [forced] /\
       (forall r,
          api_post ext t path n true = inr r ->
          handshake (t ++ [forced]) r = None ->
          o = Resolved tt /\ connected (this w') = true) /\
       (forall e',
          api_post ext t path n true = inl e' ->
          o = Rejected (new_Error conflict_message) /\
          this w' = this w /\
          In (Emit (Ev_error (new_Error conflict_message) "connection"))
             (trace w'))) /\
  includes conflict_message "Solutions to try" = true.
Proof.
  intros c n path join release forced t0 t1 t2 t3 handshake Hidle Hnodes Hfirst Hconflict.
  assert (Hrun : connect ext targetChannelId w
            = try_catch
                (response <- negotiate ext c n;; open_transport ext c response)
                (connection_failed ext c) (logged w t0))
    by exact (connect_idle ext w targetChannelId Hidle Hnodes).
  assert (Hneg : negotiate ext c n (logged w t0)
            = match api_delete ext t1 path with
              | None =>
                  match api_post ext t2 path n false with
                  | inr r => (Resolved r, logged w t3)
                  | inl _ =>
                      (match api_post ext t3 path n true with
                       | inr r => Resolved r
                       | inl _ => Rejected (new_Error conflict_message)
                       end, logged w (t3 ++ [forced]))
                  end
              | Some _ =>
                  (match api_post ext t2 path n true with
                   | inr r => Resolved r
                   | inl _ => Rejected (new_Error conflict_message)
                   end, logged w (t2 ++ [forced]))
              end)
    by exact (negotiate_conflict ext c n e (logged w t0) Hfirst Hconflict).
  assert (Ht0 : requests t0 = requests (trace w))
    by (unfold t0; rewrite requests_snoc; cbn; apply app_nil_r).
  assert (Ht2 : requests t2 = requests (trace w) ++ [join; release]).
  { unfold t2, t1. rewrite !requests_snoc, Ht0. cbn. rewrite <- app_assoc. reflexivity. }
  assert (Ht3 : requests t3 = requests (trace w) ++ [join; release; join]).
  { unfold t3. rewrite requests_snoc, Ht2. cbn. rewrite <- app_assoc. reflexivity. }
  split; [|split].
  - intros r Hdel Hretry. rewrite Hdel, Hretry in Hneg.
    rewrite Hrun. cbn [try_catch bind]. rewrite Hneg.
    destruct (granted ext w c r t3) as (o & w' & Hg & Hreq & Hok).
    cbn [try_catch] in Hg. rewrite Hg.
    exists o, w'. split; [reflexivity|]. split; [congruence|exact Hok].
  - intros t sent Hfailed.
    assert (Hneg' : negotiate ext c n (logged w t0)
              = (match api_post ext t path n true with
                 | inr r => Resolved r
                 | inl _ => Rejected (new_Error conflict_message)
                 end, logged w (t ++ [forced])) /\
              requests t = requests (trace w) ++ sent).
    { destruct Hfailed as [(Hdel & -> & ->)|(Hdel & (e' & Hretry) & -> & ->)].
      - destruct (api_delete ext t1 path); [|contradiction]. split; assumption.
      - rewrite Hdel, Hretry in Hneg. split; assumption. }
    destruct Hneg' as [Hneg' Hsent]. clear Hneg Hfailed.
    rewrite Hrun. cbn [try_catch bind]. rewrite Hneg'.
    destruct (api_post ext t path n true) as [e'|r] eqn:Hforce.
    + destruct (connection_failed_run ext c (new_Error conflict_message)
                  (logged w (t ++ [forced]))) as (w' & Hf & Hthis & Hreq & Hin).
      rewrite Hf. exists (Rejected (new_Error conflict_message)), w'.
      split; [destruct (error_listener ext); reflexivity|].
      split; [|split].
      * rewrite Hreq. cbn [logged trace]. rewrite requests_snoc, Hsent.
        cbn. rewrite <- app_assoc. reflexivity.
      * discriminate.
      * intros e'' _. repeat split; auto.
    + destruct (granted ext w c r (t ++ [forced]))
        as (o & w' & Hg & Hreq & Hok).
      cbn [try_catch] in Hg. rewrite Hg.
      exists o, w'. split; [reflexivity|]. split; [|split].
      * rewrite Hreq, requests_snoc, Hsent. cbn. rewrite <- app_assoc. reflexivity.
      * intros r' [= <-]. exact Hok.
      * discriminate.
  - vm_compute. reflexivity.
Qed.

Lemma connect_conflict_recovery_witness :
  (exists w',
     connect stale_grant None (fresh "c" "s") = (Resolved tt, w') /\
     connected (this w') = true /\
     requests (trace w')
     = [Api_post "/channels/c/join_call" "worldwide" false;
        Api_delete "/channels/c/join_call";
        Api_post "/channels/c/join_call" "worldwide" false]) /\
  (exists w',
     connect stuck_grant None (fresh "c" "s")
     = (Rejected (new_Error conflict_message), w') /\
     requests (trace w')
     = [Api_post "/channels/c/join_call" "worldwide" false;
        Api_delete "/channels/c/join_call";
        Api_post "/channels/c/join_call" "worldwide" true]).
Proof.
  split.
  - destruct (connect_conflict_recovery stale_grant (fresh "c" "s") None
                AlreadyConnected) as (Ha & _ & _);
      [reflexivity|discriminate|reflexivity|reflexivity|].
    destruct (Ha granted_session) as (o & w' & Hrun & Hreq & Hok);
      [reflexivity|reflexivity|].
    destruct Hok as [-> Hc]; [reflexivity|].
    exists w'. repeat split; assumption.
  - destruct (connect_conflict_recovery stuck_grant (fresh "c" "s") None
                AlreadyConnected) as (_ & Hb & _);
      [reflexivity|discriminate|reflexivity|reflexivity|].
    destruct (Hb _ _ (or_introl (conj (fun H => Some_ne_None _ H)
                                      (conj eq_refl eq_refl))))
      as (o & w' & Hrun & Hreq & _ & Hfail).
    destruct (Hfail AlreadyConnected) as (-> & _ & _); [reflexivity|].
    exists w'. split; assumption.
Defined.



(** The negotiation sends requests and touches nothing of the player. *)
Lemma negotiate_this (ext : External) (c n : string) (w : World) :
  this (snd (negotiate ext c n w)) = this w.
Proof.
  unfold negotiate, post_join_call, delete_join_call. run.
  destruct (api_post ext _ _ n false) as [e|r]; run; [|reflexivity].
  destruct (is_AlreadyConnected e); run; [|reflexivity].
  destruct (api_delete ext _ _) as [ed|]; run.
  - destruct (api_post ext _ _ n true); reflexivity.
  - destruct (api_post ext _ _ n false); run; [|reflexivity].
    destruct (api_post ext _ _ n true); reflexivity.
Qed.

Lemma open_transport_channelId (ext : External) (c : string)
  (r : JoinResponse) (w : World) :
  channelId (this (snd (open_transport ext c r w))) = channelId (this w).
Proof.
  unfold open_transport. run. fields.
  destruct (room_connect ext _ _ _ _); run; [reflexivity|].
  unfold emit. run. reflexivity.
Qed.

Lemma connection_failed_this (ext : External) (c : string) (e : JsError)
  (w : World) :
  this (snd (connection_failed ext c e w)) = this w.
Proof.
  unfold connection_failed, emit, console_error. run.
  destruct (instanceof_Error (as_Error e)), (error_listener ext); reflexivity.
Qed.

(** An idle player that connects keeps the channel identifier it was
    built with, whatever the target and however the attempt ends: only the
    branch of a connected player stores the target. *)
Lemma connect_idle_keeps_channelId (ext : External) (w : World)
  (targetChannelId : option string) :
  isConnected (this w) = false ->
  channelId (this (snd (connect ext targetChannelId w))) = channelId (this w).
Proof.
  intros Hidle. unfold connect. run. rewrite Hidle. cbn [andb].
  set (c := channelToConnect (this w) targetChannelId).
  unfold connect_to, emit at 1. run.
  set (w0 := mkWorld _ _ _).
  assert (Hfail : forall e w1, channelId (this w1) = channelId (this w) ->
            channelId (this (snd (connection_failed ext c e w1))) = channelId (this w)).
  { intros e w1 H1. rewrite connection_failed_this. exact H1. }
  destruct (selectedNode ext w0) as [[node|e|] w1] eqn:Hnode.
  - assert (H1 : this w1 = this w).
    { unfold selectedNode in Hnode.
      destruct (voiceOptions_nodes ext) as [[|name nodes]|];
        injection Hnode as _ <-; reflexivity. }
    pose proof (negotiate_this ext c node w1) as Hneg.
    destruct (negotiate ext c node w1) as [[r|e|] w2]; cbn [snd] in Hneg.
    + pose proof (open_transport_channelId ext c r w2) as Hopen.
      destruct (open_transport ext c r w2) as [[[]|e|] w3]; cbn [snd] in *.
      * congruence.
      * apply Hfail. congruence.
      * congruence.
    + apply Hfail. congruence.
    + cbn [snd]. congruence.
  - apply Hfail. unfold selectedNode in Hnode.
    destruct (voiceOptions_nodes ext) as [[|name nodes]|];
      injection Hnode as _ <-; reflexivity.
  - unfold selectedNode in Hnode.
    destruct (voiceOptions_nodes ext) as [[|name nodes]|]; discriminate.
Qed.

(** C8 (the code departs from it): [connect] compares its target with
    the [channelId] field, and returns at once when the player is
    connected and they are equal.  But an idle player that connects to a
    target keeps the identifier it was built with, so the field need not
    be the channel the player is on: a player built for [c] and connected
    to [d] answers a second [connect(d)] by hanging up, storing [d] and
    negotiating again; only the third call is the no-op. *)
Theorem connect_again_compares_stored_channel :
  (forall ext w targetChannelId,
     isConnected (this w) = true ->
     channelToConnect (this w) targetChannelId = channelId (this w) ->
     connect ext targetChannelId w = (Resolved tt, w)) /\
  (forall ext w targetChannelId,
     isConnected (this w) = false ->
     channelId (this (snd (connect ext targetChannelId w))) = channelId (this w)) /\
  (let w1 := snd (connect cooperative (Some "d") (fresh "c" "s")) in
   fst (connect cooperative (Some "d") (fresh "c" "s")) = Resolved tt /\
   connected (this w1) = true /\ channelId (this w1) = "c" /\
   requests (trace w1) = [Api_post "/channels/d/join_call" "worldwide" false] /\
   exists w2,
     connect cooperative (Some "d") w1 = (Resolved tt, w2) /\
     List.filter is_transport_call (drop (length (trace w1)) (trace w2))
     = [Room_disconnect 2%nat;
        Room_connect 12%nat "wss://relay" "token"] /\
     requests (drop (length (trace w1)) (trace w2))
     = [Api_post "/channels/d/join_call" "worldwide" false] /\
     In (Emit (Ev_disconnected "c" "s" "manual")) (trace w2) /\
     room (this w1) = Some 2%nat /\ room (this w2) = Some 12%nat /\
     channelId (this w2) = "d" /\
     connect cooperative (Some "d") w2 = (Resolved tt, w2)).
Proof.
  split; [|split].
  - intros ext w targetChannelId Hc Hsame. unfold connect. run.
    rewrite Hc, Hsame, String.eqb_refl. reflexivity.
  - exact connect_idle_keeps_channelId.
  - cbv zeta. split; [vm_compute; reflexivity|].
    split; [vm_compute; reflexivity|]. split; [vm_compute; reflexivity|].
    split; [vm_compute; reflexivity|].
    eexists. split; [vm_compute; reflexivity|].
    repeat split; try (vm_compute; reflexivity).
    vm_compute. repeat first [left; reflexivity | right].
Qed.


(** A refused join that is not a conflict is rethrown as it is. *)
Lemma negotiate_refused (ext : External) (c n : string) (e : JsError) (w : World) :
  api_post ext (trace w) (join_call_path c) n false = inl e ->
  is_AlreadyConnected e = false ->
  negotiate ext c n w
  = (Rejected e, logged w (trace w ++ [Api_post (join_call_path c) n false])).
Proof.
  intros Hpost Hother. unfold negotiate. cbn [try_catch].
  rewrite post_join_call_run, Hpost, Hother. reflexivity.
Qed.

(** A failed negotiation leaves the player object as it was: a player
    that never connected still holds no transport handle. *)
Lemma connect_negotiation_failure (ext : External) (w : World)
  (targetChannelId : option string) (e : JsError) :
  let c := channelToConnect (this w) targetChannelId in
  let t0 := trace w ++ [Emit (Ev_debug "Starting connection")] in
  isConnected (this w) = false ->
  voiceOptions_nodes ext <> Some [] ->
  api_post ext t0 (join_call_path c) (node_name ext) false = inl e ->
  is_AlreadyConnected e = false ->
  exists w',
    connect ext targetChannelId w
    = (Rejected (if error_listener ext then e else as_Error e), w') /\
    this w' = this w /\
    In (Emit (Ev_error (as_Error e) "connection")) (trace w').
Proof.
  intros c t0 Hidle Hnodes Hpost Hother.
  rewrite (connect_idle ext w targetChannelId Hidle Hnodes).
  fold c t0. cbn [try_catch bind].
  rewrite (negotiate_refused ext c (node_name ext) e (logged w t0) Hpost Hother).
  destruct (connection_failed_run ext c e
              (logged (logged w t0) (trace (logged w t0) ++
                 [Api_post (join_call_path c) (node_name ext) false])))
    as (w' & Hf & Hthis & _ & Hin).
  rewrite Hf. exists w'. repeat split; assumption.
Qed.

(** A failed handshake leaves the room created for it in the player. *)
Lemma connect_handshake_failure (ext : External) (w : World)
  (targetChannelId : option string) (r : JoinResponse) (e : JsError) :
  let c := channelToConnect (this w) targetChannelId in
  let t0 := trace w ++ [Emit (Ev_debug "Starting connection")] in
  let t1 := t0 ++ [Api_post (join_call_path c) (node_name ext) false] in
  isConnected (this w) = false ->
  voiceOptions_nodes ext <> Some [] ->
  api_post ext t0 (join_call_path c) (node_name ext) false = inr r ->
  room_connect ext ((t1 ++ [Room_new (length t1)])
                    ++ [Room_on_Disconnected (length t1)])
               (length t1) (url r) (token r) = Some e ->
  exists w',
    connect ext targetChannelId w
    = (Rejected (if error_listener ext then e else as_Error e), w') /\
    connected (this w') = false /\
    room (this w') = Some (length t1).
Proof.
  intros c t0 t1 Hidle Hnodes Hpost Hshake.
  rewrite (connect_idle ext w targetChannelId Hidle Hnodes).
  fold c t0. cbn [try_catch bind]. unfold negotiate. cbn [try_catch].
  rewrite post_join_call_run. cbn [logged trace]. rewrite Hpost.
  destruct (open_transport_run ext c r
              (logged (logged w t0) t1)) as (w1 & Hrun & _ & Hroom & Hconn).
  cbn [logged trace this] in Hrun, Hroom, Hconn.
  fold t1. rewrite Hrun, Hshake.
  destruct (connection_failed_run ext c e w1) as (w' & Hf & Hthis & _ & _).
  rewrite Hf. exists w'. split; [reflexivity|].
  rewrite Hshake, Hidle in Hconn.
  unfold connected. rewrite Hthis, Hconn, Hroom. split; reflexivity.
Qed.

(** C6 (the code departs from it): after the endpoint granted the
    session and the transport handshake failed, [connect] rejects with the
    handshake error and the player reports itself not connected, but it
    holds the room created for the attempt.  It is therefore not in the
    state of a fresh player: [disconnect], which returns at once on a
    fresh player, now hangs up that room and announces a manual
    disconnection. *)
Theorem connect_failed_handshake_keeps_transport :
  exists w',
    connect refused_handshake None (fresh "c" "s")
    = (Rejected (new_Error "could not establish signal connection"), w') /\
    connected (this w') = false /\
    room (this w') = Some 2%nat /\
    room (this (fresh "c" "s")) = None /\
    disconnect refused_handshake (fresh "c" "s") = (Resolved tt, fresh "c" "s") /\
    trace (snd (disconnect refused_handshake w'))
    = trace w' ++ [Room_disconnect 2%nat;
                   Emit (Ev_disconnected "c" "s" "manual");
                   Emit (Ev_debug "Disconnected manually")].
Proof.
  eexists. split; [vm_compute; reflexivity|].
  repeat split.
Qed.


(** ** Cleanup *)

Section Cleanup.

Context (ext : External).

(** One pass of the loop of [stop]: the track is reported stopped or the
    failure is logged; in both cases the loop goes on, and the player
    object is not touched. *)
Lemma stop_one (key : string) (publication : LocalTrackPublication) (w : World) :
  exists added,
    try_catch
      (unpublish ext (sid publication);; emit ext (Ev_trackStopped key))
      (fun error =>
         p <- get_this;;
         console_error (failed_to_stop (channelId p) key) (Some error)) w
    = (Resolved tt, logged w (trace w ++ added)) /\
    (In (Emit (Ev_trackStopped key)) added \/
     exists e, In (Console_error (failed_to_stop (channelId (this w)) key)
                                 (Some e)) added).
Proof.
  unfold unpublish, emit, console_error. run.
  destruct (room (this w)) as [r|]; run.
  - destruct (room_localParticipant ext (trace w) r); run.
    + destruct (unpublishTrack ext (trace w) r (sid publication)) as [e|]; run.
      * eexists [_; _]. rewrite <- app_assoc. split; [reflexivity|].
        right. exists e. right. left. reflexivity.
      * eexists [_; _]. rewrite <- app_assoc. split; [reflexivity|].
        left. right. left. reflexivity.
    + eexists [_]. split; [reflexivity|]. left. left. reflexivity.
  - eexists [_]. split; [reflexivity|]. right. eexists. left. reflexivity.
Qed.

(** The loop of [stop] always runs to its end: every publication is
    either reported stopped or has its failure logged. *)
Lemma stop_all_run (pubs : list (string * LocalTrackPublication)) (w : World) :
  exists added,
    stop_all ext pubs w = (Resolved tt, logged w (trace w ++ added)) /\
    forall key publication,
      In (key, publication) pubs ->
      In (Emit (Ev_trackStopped key)) added \/
      exists e, In (Console_error (failed_to_stop (channelId (this w)) key)
                                  (Some e)) added.
Proof.
  revert w. induction pubs as [|[key publication] pubs IH]; intros w.
  - exists []. cbn [stop_all ret]. rewrite app_nil_r. destruct w.
    split; [reflexivity|]. intros ? ? [].
  - cbn [stop_all]. cbn [bind].
    destruct (stop_one key publication w) as (added1 & Hone & Hlog1).
    rewrite Hone.
    destruct (IH (logged w (trace w ++ added1))) as (added2 & Hrest & Hlog2).
    rewrite Hrest. exists (added1 ++ added2).
    cbn [logged this heap trace] in *. rewrite app_assoc.
    split; [reflexivity|].
    intros k p [[= <- <-]|Hin].
    + destruct Hlog1 as [H|[e H]].
      * left. apply in_or_app. left. exact H.
      * right. exists e. apply in_or_app. left. exact H.
    + destruct (Hlog2 k p Hin) as [H|[e H]].
      * left. apply in_or_app. right. exact H.
      * right. exists e. apply in_or_app. right. exact H.
Qed.

(** With a transport in hand, [disconnect] ends, by resolving or by
    rethrowing the error of the transport, with no published track, no
    audio source, no transport handle and the connection flag down; the
    transport was told to hang up, and on the way every published track
    was either reported stopped or had the failure of its unpublish call
    logged, the loop going on to the next track. *)
Lemma disconnect_with_room (w : World) (r : Room) :
  room (this w) = Some r ->
  exists o w' added,
    disconnect ext w = (o, w') /\
    o <> Pending /\
    publications (this w') = [] /\
    audioSources (this w') = [] /\
    room (this w') = None /\
    isConnected (this w') = false /\
    trace w' = trace w ++ added /\
    In (Room_disconnect r) added /\
    forall key publication,
      In (key, publication) (publications (this w)) ->
      In (Emit (Ev_trackStopped key)) added \/
      exists e, In (Console_error (failed_to_stop (channelId (this w)) key)
                                  (Some e)) added.
Proof.
  intros Hroom. unfold disconnect. cbn [bind get_this]. rewrite Hroom.
  unfold stop. cbn [try_catch bind modify_this get_this this heap trace].
    fields. rewrite Hroom. cbn [bind].
    destruct (stop_all_run (publications (this w))
                (updated w (with_isStreaming false (with_shouldStop true (this w)))
                         (trace w))) as (added & Hall & Hlog).
    unfold updated in Hall. rewrite Hall. clear Hall.
    cbn [logged this heap trace updated] in *. fields.
    cbn [channelId with_isStreaming with_shouldStop] in Hlog.
    run. cbn [logged this heap trace]. fields. rewrite Hroom.
    run.
    destruct (room_disconnect ext (trace w ++ added) r) as [e|].
    + unfold console_error. run.
      do 2 eexists. eexists (added ++ [_; _]). split; [reflexivity|].
      cbn [this trace with_room with_audioSources with_publications
           with_isConnected publications audioSources room isConnected].
      split; [discriminate|].
      split; [reflexivity|]. split; [reflexivity|]. split; [reflexivity|].
      split; [reflexivity|].
      split; [rewrite <- !app_assoc; reflexivity|].
      split; [apply in_or_app; right; left; reflexivity|].
      intros key publication Hin.
      destruct (Hlog key publication Hin) as [H|[e' H]].
      * left. apply in_or_app. left. exact H.
      * right. exists e'. apply in_or_app. left. exact H.
    + unfold emit. run.
      cbn [with_room with_publications with_isConnected once_disconnected].
      set (ls := once_disconnected _).
      assert (Hls : forall w0, exists kills,
                 run_once_listeners ls w0
                 = (Resolved tt,
                    updated w0 (match ls with
                                | [] => this w0
                                | _ => with_isStreaming false (this w0)
                                end)
                            (trace w0 ++ kills))).
      { clear. induction ls as [|l ls IH]; intros w0.
        - exists []. cbn. rewrite app_nil_r. destruct w0. reflexivity.
        - cbn [run_once_listeners bind].
          destruct l; cbn [run_once_listener bind modify_this act this heap trace].
          + destruct (IH (updated w0 (with_isStreaming false (this w0)) (trace w0)))
              as (kills & Hk).
            unfold updated in Hk. rewrite Hk. exists kills.
            cbn [updated this heap trace]. destruct ls; reflexivity.
          + destruct (IH (updated w0 (with_isStreaming false (this w0))
                                  (trace w0 ++ [Ffmpeg_kill])))
              as (kills & Hk).
            unfold updated in Hk. rewrite Hk. exists (Ffmpeg_kill :: kills).
            cbn [updated this heap trace]. rewrite <- app_assoc.
            destruct ls; reflexivity. }
      match goal with
      | |- context [run_once_listeners ls ?w0] =>
          destruct (Hls w0) as (kills & Hk); rewrite Hk
      end.
      cbn [updated this heap trace]. run.
      do 2 eexists. eexists ((added ++ [_; _]) ++ kills ++ [_]).
      split; [reflexivity|]. cbn [this trace].
      split; [discriminate|].
      assert (Hfields : forall q : AudioPlayer,
                publications q = [] -> audioSources q = [] -> room q = None ->
                isConnected q = false ->
                let q' := match ls with [] => q | _ => with_isStreaming false q end in
                publications q' = [] /\ audioSources q' = [] /\ room q' = None
                /\ isConnected q' = false)
        by (intros q ? ? ? ?; destruct ls; cbn; auto).
      match goal with
      | |- context [match ls with [] => ?q | _ => _ end] =>
          destruct (Hfields q) as (H1 & H2 & H3 & H4); try reflexivity
      end.
      cbv zeta in H1, H2, H3, H4.
      split; [exact H1|]. split; [exact H2|]. split; [exact H3|].
      split; [exact H4|].
      split; [rewrite <- !app_assoc; reflexivity|].
      split; [apply in_or_app; left; apply in_or_app; right; left; reflexivity|].
      intros key publication Hin.
      destruct (Hlog key publication Hin) as [H|[e' H]].
      * left. apply in_or_app. left. apply in_or_app. left. exact H.
      * right. exists e'. apply in_or_app. left. apply in_or_app. left. exact H.
Qed.

End Cleanup.

(** C3 (the code departs from it): [disconnect] releases everything
    only when the player still holds its transport; without one it
    returns at once and clears nothing.  And a player can hold a track
    without a transport: when the room reports [Disconnected] while
    [publishTrack] is awaited, the handler empties the maps and drops the
    room, after which the playback stores the publication it is handed.
    The playback runs to its end, and the [disconnect()] that follows
    resolves with the track still in the published-track set. *)
Theorem disconnect_without_room_keeps_tracks :
  (forall ext w r,
     room (this w) = Some r ->
     exists o w' added,
       disconnect ext w = (o, w') /\
       o <> Pending /\
       publications (this w') = [] /\
       audioSources (this w') = [] /\
       room (this w') = None /\
       isConnected (this w') = false /\
       trace w' = trace w ++ added /\
       In (Room_disconnect r) added /\
       forall key publication,
         In (key, publication) (publications (this w)) ->
         In (Emit (Ev_trackStopped key)) added \/
         exists e, In (Console_error (failed_to_stop (channelId (this w)) key)
                                     (Some e)) added) /\
  (forall ext w, room (this w) = None -> disconnect ext w = (Resolved tt, w)) /\
  (let played := playFromFile lost_during_publish "/tmp/a.mp3" connected_world in
   fst played = Resolved tt /\
   List.filter (fun a => is_publishTrack a || is_interrupt a)
               (drop (length (trace connected_world)) (trace (snd played)))
   = [PublishTrack 2%nat 12%nat; Interrupted Transport_disconnected] /\
   room (this (snd played)) = None /\
   publications (this (snd played)) = [("TR_1", mkPublication "TR_1" true)] /\
   exists w',
     disconnect lost_during_publish (snd played) = (Resolved tt, w') /\
     publications (this w') = [("TR_1", mkPublication "TR_1" true)] /\
     trace w' = trace (snd played)).
Proof.
  split; [exact disconnect_with_room|]. split.
  - intros ext w Hroom. unfold disconnect. run. rewrite Hroom. reflexivity.
  - cbv zeta. split; [vm_compute; reflexivity|].
    split; [vm_compute; reflexivity|]. split; [vm_compute; reflexivity|].
    split; [vm_compute; reflexivity|].
    eexists. split; [vm_compute; reflexivity|]. split; reflexivity.
Qed.


(** ** Cooperative cancellation *)

Lemma frames_app (t1 t2 : list Action) : frames (t1 ++ t2) = (frames t1 + frames t2)%nat.
Proof. unfold frames. rewrite List.filter_app, length_app. reflexivity. Qed.

Lemma timeouts_app (t1 t2 : list Action) :
  timeouts (t1 ++ t2) = (timeouts t1 + timeouts t2)%nat.
Proof. unfold timeouts. rewrite List.filter_app, length_app. reflexivity. Qed.

Lemma stop_called_app (t1 t2 : list Action) :
  stop_called (t1 ++ t2) = stop_called t1 || stop_called t2.
Proof. apply existsb_app. Qed.

Lemma quiet_frames (t : list Action) :
  forallb quiet t = true ->
  frames t = 0%nat /\ timeouts t = 0%nat /\ stop_called t = false.
Proof.
  unfold frames, timeouts, stop_called. induction t as [|a t IH]; [auto|].
  cbn [forallb List.filter existsb]. intros [Ha Ht]%andb_true_iff.
  apply andb_true_iff in Ha as [Ha Hh]. apply andb_true_iff in Ha as [Hf Hs].
  apply negb_true_iff in Hf, Hs, Hh. rewrite Hf, Hs, Hh. auto.
Qed.

Section Cancellation.

Context (ext : External).

Lemma calm_bind (m k : M unit) : calm m -> calm k -> calm (m;; k).
Proof.
  intros Hm Hk w. destruct (Hm w) as (w1 & a1 & H1 & T1 & Q1 & E1 & S1).
  destruct (Hk w1) as (w2 & a2 & H2 & T2 & Q2 & E2 & S2).
  exists w2, (a1 ++ a2). cbn [bind]. rewrite H1, H2.
  split; [reflexivity|]. split; [rewrite T2, T1, app_assoc; reflexivity|].
  split; [rewrite forallb_app, Q1, Q2; reflexivity|].
  split; [congruence|auto].
Qed.

Lemma calm_ret : calm (ret tt).
Proof.
  intros w. exists w, []. cbn. rewrite app_nil_r. auto.
Qed.

Lemma calm_act (a : Action) : quiet a = true -> calm (act a).
Proof.
  intros Ha w. eexists _, [a]. cbn [act]. split; [reflexivity|].
  cbn [trace this heap forallb]. rewrite Ha. auto.
Qed.

Lemma calm_modify (f : AudioPlayer -> AudioPlayer) :
  (forall p, shouldStop p = true -> shouldStop (f p) = true) ->
  calm (modify_this f).
Proof.
  intros Hf w. eexists _, []. cbn [modify_this]. split; [reflexivity|].
  cbn [trace this heap forallb]. rewrite app_nil_r. auto.
Qed.

Lemma calm_run_once_listeners (ls : list OnceListener) : calm (run_once_listeners ls).
Proof.
  induction ls as [|l ls IH]; [apply calm_ret|].
  cbn [run_once_listeners]. apply calm_bind; [|exact IH].
  destruct l; cbn [run_once_listener].
  - apply calm_modify. auto.
  - apply calm_bind; [apply calm_modify; auto|apply calm_act; reflexivity].
Qed.

(** An event other than [error] is emitted calmly. *)
Lemma calm_emit (e : Event) :
  match e with Ev_error _ _ => False | _ => True end -> calm (emit ext e).
Proof.
  intros He. unfold emit. apply calm_bind; [apply calm_act; reflexivity|].
  destruct e; try contradiction; try apply calm_ret.
  intros w. cbn [bind get_this].
  destruct (calm_bind (modify_this (with_once_disconnected []))
              (run_once_listeners (once_disconnected (this w)))) with (w := w)
    as (w' & added & Hrun & Hrest);
    [apply calm_modify; auto|apply calm_run_once_listeners|].
  exists w', added. cbn [bind] in Hrun. auto.
Qed.

Lemma calm_catch (m : M unit) (h : JsError -> M unit) :
  settles_calmly m -> (forall e, calm (h e)) -> calm (try_catch m h).
Proof.
  intros Hm Hh w. destruct (Hm w) as (o & w1 & a1 & H1 & Hp & T1 & Q1 & E1 & S1).
  cbn [try_catch]. rewrite H1. destruct o as [[]|e|]; [| |contradiction].
  - exists w1, a1. auto.
  - destruct (Hh e w1) as (w2 & a2 & H2 & T2 & Q2 & E2 & S2).
    exists w2, (a1 ++ a2). rewrite H2. split; [reflexivity|].
    split; [rewrite T2, T1, app_assoc; reflexivity|].
    split; [rewrite forallb_app, Q1, Q2; reflexivity|].
    split; [congruence|auto].
Qed.

(** [unpublish] followed by the report of the stopped track. *)
Lemma unpublish_then (k : M unit) (trackSid : string) :
  calm k -> settles_calmly (unpublish ext trackSid;; k).
Proof.
  intros Hk w. unfold unpublish. run.
  destruct (room (this w)) as [r|]; run.
  - destruct (room_localParticipant ext (trace w) r); run.
    + destruct (unpublishTrack ext (trace w) r trackSid) as [e|]; run.
      * eexists _, _, [_]. split; [reflexivity|]. split; [discriminate|].
        cbn. auto.
      * destruct (Hk (logged w (trace w ++ [UnpublishTrack r trackSid])))
          as (w' & added & Hrun & Ht & Hq & He & Hs).
        unfold logged in Hrun. rewrite Hrun.
        eexists _, _, (_ :: added). split; [reflexivity|]. split; [discriminate|].
        cbn [logged trace this heap] in *. rewrite Ht, <- app_assoc.
        split; [reflexivity|]. cbn. auto.
    + destruct (Hk w) as (w' & added & Hrun & Ht & Hq & He & Hs).
      destruct w. cbn [this heap trace] in *. rewrite Hrun.
      eexists _, _, added. split; [reflexivity|]. split; [discriminate|]. auto.
  - eexists _, _, []. split; [reflexivity|]. split; [discriminate|].
    cbn. rewrite app_nil_r. auto.
Qed.

Lemma calm_stop_all (pubs : list (string * LocalTrackPublication)) :
  calm (stop_all ext pubs).
Proof.
  induction pubs as [|[key publication] pubs IH]; [apply calm_ret|].
  cbn [stop_all]. apply calm_bind; [|exact IH].
  apply calm_catch.
  - apply unpublish_then. apply calm_emit. exact I.
  - intros e w. cbn [bind get_this]. apply calm_act. reflexivity.
Qed.

(** [stop] always resolves, raises the cancellation flag, and neither
    sends a frame nor waits. *)
Lemma stop_run (trackName : option string) (w : World) :
  exists w' added,
    stop ext trackName w = (Resolved tt, w') /\
    trace w' = trace w ++ added /\
    forallb quiet added = true /\
    heap w' = heap w /\
    shouldStop (this w') = true.
Proof.
  unfold stop. cbn [bind modify_this get_this this heap trace]. fields.
  set (w1 := mkWorld _ (heap w) (trace w)).
  assert (Hflag : shouldStop (this w1) = true) by reflexivity.
  assert (Ht1 : trace w1 = trace w) by reflexivity.
  assert (He1 : heap w1 = heap w) by reflexivity.
  assert (Hall : calm (stop_all ext (publications (this w));;
                       modify_this (with_publications [])))
    by (apply calm_bind; [apply calm_stop_all|apply calm_modify; auto]).
  destruct (room (this w)) as [r|].
  - assert (Hgoal : forall m : M unit, calm m ->
              exists w' added, m w1 = (Resolved tt, w') /\
                trace w' = trace w ++ added /\ forallb quiet added = true /\
                heap w' = heap w /\ shouldStop (this w') = true).
    { intros m Hm. destruct (Hm w1) as (w' & added & Hrun & Ht & Hq & He & Hs).
      exists w', added. split; [exact Hrun|]. split; [rewrite Ht; reflexivity|].
      split; [exact Hq|]. split; [rewrite He; reflexivity|]. auto. }
    destruct trackName as [name|]; [|apply Hgoal, Hall].
    destruct (String.eqb name ""); [apply Hgoal, Hall|].
    destruct (Map_get name (publications (this w))) as [publication|].
    + apply Hgoal. apply calm_catch.
      * apply unpublish_then. apply calm_bind; [apply calm_modify; auto|].
        apply calm_emit. exact I.
      * intros e w0. cbn [bind get_this]. apply calm_act. reflexivity.
    + apply Hgoal, calm_ret.
  - exists w1, []. rewrite app_nil_r. repeat split; auto.
Qed.

Lemma handleDisconnected_calm : calm (handleDisconnected ext).
Proof.
  unfold handleDisconnected.
  repeat (apply calm_bind; [apply calm_modify; auto|]).
  intros w. cbn [bind get_this].
  apply calm_bind; apply calm_emit; exact I.
Qed.

Lemma deliver_run (i : Interrupt) (w : World) :
  is_restart i = false ->
  exists w' added,
    deliver ext i w = (Resolved tt, w') /\
    trace w' = trace w ++ Interrupted i :: added /\
    forallb quiet added = true /\
    heap w' = heap w /\
    (shouldStop (this w) = true -> shouldStop (this w') = true) /\
    (is_host_stop (Interrupted i) = true -> shouldStop (this w') = true).
Proof.
  intros Hi. unfold deliver. cbn [bind act].
  destruct i as [trackName| |live]; [| |discriminate].
  - destruct (stop_run trackName (logged w (trace w ++ [Interrupted (Host_stop trackName)])))
      as (w' & added & Hrun & Ht & Hq & He & Hs).
    unfold detached. unfold logged in Hrun. rewrite Hrun. cbn [snd].
    exists w', added. cbn [logged trace heap] in Ht, He. rewrite Ht, <- app_assoc.
    repeat split; auto.
  - destruct (handleDisconnected_calm (logged w (trace w ++ [Interrupted Transport_disconnected])))
      as (w' & added & Hrun & Ht & Hq & He & Hs).
    unfold detached. unfold logged in Hrun. rewrite Hrun. cbn [snd].
    exists w', added. cbn [logged trace this heap] in Ht, Hs, He. rewrite Ht, <- app_assoc.
    split; [reflexivity|]. split; [reflexivity|]. split; [exact Hq|].
    split; [exact He|]. split; [exact Hs|discriminate].
Qed.

Lemma deliver_all_run (l : list Interrupt) (w : World) :
  forallb (fun i => negb (is_restart i)) l = true ->
  exists w' added,
    deliver_all ext l w = (Resolved tt, w') /\
    trace w' = trace w ++ added /\
    frames added = 0%nat /\ timeouts added = 0%nat /\
    heap w' = heap w /\
    (shouldStop (this w) = true -> shouldStop (this w') = true) /\
    (stop_called added = true -> shouldStop (this w') = true).
Proof.
  revert w. induction l as [|i l IH]; intros w Hl.
  - exists w, []. cbn. rewrite app_nil_r. repeat split; auto. discriminate.
  - cbn [deliver_all bind]. cbn [forallb] in Hl.
    apply andb_true_iff in Hl as [Hi Hl]. apply negb_true_iff in Hi.
    destruct (deliver_run i w Hi) as (w1 & a1 & H1 & T1 & Q1 & E1 & S1 & C1).
    rewrite H1.
    destruct (IH w1 Hl) as (w2 & a2 & H2 & T2 & F2 & W2 & E2 & S2 & C2).
    rewrite H2. exists w2, ((Interrupted i :: a1) ++ a2).
    destruct (quiet_frames a1 Q1) as (F1 & W1 & N1).
    split; [reflexivity|]. split; [rewrite T2, T1, app_assoc; reflexivity|].
    rewrite frames_app, timeouts_app, stop_called_app.
    change (frames (Interrupted i :: a1)) with (frames a1).
    change (timeouts (Interrupted i :: a1)) with (timeouts a1).
    rewrite F1, F2, W1, W2. split; [reflexivity|]. split; [reflexivity|].
    split; [congruence|]. split; [auto|].
    intros [Hc|Hc]%orb_true_iff; [|auto].
    apply S2. cbn [stop_called existsb] in Hc. fold (stop_called a1) in Hc.
    rewrite N1, orb_false_r in Hc. auto.
Qed.

Lemma suspended_run (w : World) :
  undisturbed ext ->
  exists w' added,
    suspended ext w = (Resolved tt, w') /\
    trace w' = trace w ++ added /\
    frames added = 0%nat /\ timeouts added = 0%nat /\
    heap w' = heap w /\
    (shouldStop (this w) = true -> shouldStop (this w') = true) /\
    (stop_called added = true -> shouldStop (this w') = true).
Proof.
  intros Hcalm. unfold suspended. cbn [bind get_trace].
  apply deliver_all_run, Hcalm.
Qed.

End Cancellation.


Lemma halted_nil : halted [].
Proof.
  intros pre post H _. symmetry in H. apply app_eq_nil in H as [_ ->].
  split; [reflexivity|]. split; [cbn; lia|constructor].
Qed.

Lemma no_timeouts_paced (t : list Action) : timeouts t = 0%nat -> Forall paced t.
Proof.
  unfold timeouts. induction t as [|a t IH]; [constructor|].
  cbn [List.filter]. destruct (is_timeout a) eqn:Ha; [discriminate|].
  intros H. constructor; [|exact (IH H)]. unfold paced. congruence.
Qed.

Lemma frames_suffix (pre post : list Action) : (frames post <= frames (pre ++ post))%nat.
Proof. rewrite frames_app. lia. Qed.

Lemma timeouts_suffix (pre post : list Action) :
  (timeouts post <= timeouts (pre ++ post))%nat.
Proof. rewrite timeouts_app. lia. Qed.

(** One pass of a delivery loop starts with an action that is not a call
    of [stop], sends no frame after it, waits at most once, and is the last
    pass when [stop] was called during it. *)
Lemma segment_halted (a : Action) (seg rest : list Action) :
  is_host_stop a = false ->
  frames seg = 0%nat ->
  (timeouts (a :: seg) <= 1)%nat ->
  Forall paced seg ->
  (stop_called seg = true -> rest = []) ->
  halted rest ->
  halted ((a :: seg) ++ rest).
Proof.
  intros Ha Hf Hw Hp Hlast Hrest pre post Hsplit Hstop.
  symmetry in Hsplit. apply app_eq_app in Hsplit as [l [[Hpre Hpost]|[Hseg Hpost]]].
  - (* the call of [stop] may lie in a later pass *)
    subst pre. rewrite stop_called_app in Hstop.
    apply orb_true_iff in Hstop as [Hstop|Hstop].
    + cbn [stop_called existsb] in Hstop. rewrite Ha in Hstop.
      rewrite (Hlast Hstop) in Hpost. symmetry in Hpost.
      apply app_eq_nil in Hpost as [_ ->].
      split; [reflexivity|]. split; [cbn; lia|constructor].
    + exact (Hrest l post Hpost Hstop).
  - (* the call of [stop] lies in this pass *)
    destruct pre as [|a' pre]; [discriminate|].
    injection Hseg as <- Hseg.
    assert (Hin : stop_called seg = true).
    { rewrite Hseg, stop_called_app. cbn [stop_called existsb] in Hstop.
      rewrite Ha in Hstop. cbn [orb] in Hstop. fold (stop_called pre) in Hstop.
      rewrite Hstop. reflexivity. }
    rewrite (Hlast Hin), app_nil_r in Hpost. subst post.
    split; [|split].
    + pose proof (frames_suffix pre l) as H. rewrite <- Hseg, Hf in H. lia.
    + pose proof (timeouts_suffix (a :: pre) l) as H.
      cbn [app] in H. rewrite <- Hseg in H. lia.
    + rewrite Hseg in Hp. apply Forall_app in Hp as [_ Hp]. exact Hp.
Qed.

Section Finite_delivery.

Context (ext : External).

(** The loop is left before anything is sent when the flag is up. *)
Lemma send_chunks_stopped (fuel : nat) (source : AudioSource)
  (pcm : Int16Array) (offset sent : nat) (w : World) :
  shouldStop (this w) = true ->
  send_chunks ext fuel source pcm offset sent w = (Resolved sent, w).
Proof.
  intros Hs. destruct fuel; [reflexivity|]. cbn [send_chunks]. run.
  unfold read_Int16Array. run. rewrite Hs, andb_false_r. reflexivity.
Qed.

(** C4 (amended): as long as no other playback is started while the
    loop is suspended, whatever else the host and the transport do at the
    suspension points of the finite-mode loop, once a call of [stop] is
    recorded no audio frame is handed to the transport any more and at
    most one wait is still run, a pacing wait of 100 ms: the loop tests
    the flag before each chunk and leaves.  The loop always returns, and a
    flag already up when it starts lets nothing through. *)
Theorem stop_halts_transmission (fuel : nat) (source : AudioSource)
  (pcm : Int16Array) (offset sent : nat) (w : World) :
  undisturbed ext ->
  exists o w' added,
    send_chunks ext fuel source pcm offset sent w = (o, w') /\
    o <> Pending /\
    trace w' = trace w ++ added /\
    halted added /\
    (shouldStop (this w) = true -> added = []).
Proof.
  intros Hcalm.
  revert offset sent w. induction fuel as [|fuel IH]; intros offset sent w.
  - exists (Resolved sent), w, []. cbn. rewrite app_nil_r.
    split; [reflexivity|]. split; [discriminate|]. split; [reflexivity|].
    split; [apply halted_nil|reflexivity].
  - destruct (shouldStop (this w)) eqn:Hs.
    { exists (Resolved sent), w, []. rewrite send_chunks_stopped by exact Hs.
      rewrite app_nil_r. split; [reflexivity|]. split; [discriminate|].
      split; [reflexivity|]. split; [apply halted_nil|reflexivity]. }
    cbn [send_chunks]. unfold read_Int16Array at 1. run. rewrite Hs.
    destruct (offset <? length (contents (heap w) pcm))%nat.
    2:{ exists (Resolved sent), w, []. cbn. rewrite app_nil_r.
        split; [reflexivity|]. split; [discriminate|]. split; [reflexivity|].
        split; [apply halted_nil|discriminate]. }
    cbn [andb negb]. unfold slice, capture. unfold read_Int16Array, alloc_Int16Array.
    run. unfold sleep. cbn [bind].
    match goal with
    | |- context [suspended ext ?w0] =>
        destruct (suspended_run ext w0 Hcalm)
          as (wb & I1 & Hb & Tb & Fb & Wb & _ & Sb & Cb);
        rewrite Hb
    end.
    cbn [trace this] in Tb, Sb.
    match type of Tb with
    | context [CaptureFrame source ?d ?r ?c ?n] =>
        set (frame := CaptureFrame source d r c n) in *
    end.
    assert (Htail : forall (sent' : nat) (w1 : World) (E : list Action),
              trace w1 = (trace w ++ [frame]) ++ I1 ++ E ->
              frames E = 0%nat -> timeouts E = 0%nat -> stop_called E = false ->
              (shouldStop (this wb) = true -> shouldStop (this w1) = true) ->
              exists o w' added,
                (let (o0, w'0) := (act (SetTimeout chunkDurationMs);; suspended ext) w1 in
                 match o0 with
                 | Resolved _ =>
                     send_chunks ext fuel source pcm
                       (Nat.min (offset + samplesPerChunk)
                                (length (contents (heap w) pcm))) sent' w'0
                 | Rejected e => (Rejected e, w'0)
                 | Pending => (Pending, w'0)
                 end) = (o, w') /\
                o <> Pending /\ trace w' = trace w ++ added /\ halted added /\
                (false = true -> added = [])).
    { intros sent' w1 E T1 FE WE NE S1. cbn [bind act].
      match goal with
      | |- context [suspended ext ?w0] =>
          destruct (suspended_run ext w0 Hcalm)
            as (wc & I2 & Hc & Tc & Fc & Wc & _ & Sc & Cc);
          rewrite Hc
      end.
      cbn [trace this] in Tc, Sc.
      destruct (IH (Nat.min (offset + samplesPerChunk)
                            (length (contents (heap w) pcm))) sent' wc)
        as (o & w' & rest & Hrun & Hp & Tr & Hh & Hnone).
      rewrite Hrun. exists o, w', ((frame :: I1 ++ E ++ SetTimeout chunkDurationMs :: I2) ++ rest).
      split; [reflexivity|]. split; [exact Hp|]. split.
      { rewrite Tr, Tc, T1. repeat (rewrite <- !app_assoc; cbn [app]). reflexivity. }
      split; [|discriminate].
      apply segment_halted; [reflexivity| | | | |exact Hh].
      - rewrite !frames_app. change (frames (SetTimeout chunkDurationMs :: I2)) with (frames I2).
        lia.
      - change (timeouts (frame :: I1 ++ E ++ SetTimeout chunkDurationMs :: I2))
          with (timeouts (I1 ++ E ++ SetTimeout chunkDurationMs :: I2)).
        rewrite !timeouts_app.
        change (timeouts (SetTimeout chunkDurationMs :: I2)) with (S (timeouts I2)).
        lia.
      - repeat apply Forall_app_2; try (apply no_timeouts_paced; assumption).
        constructor; [intros _; reflexivity|apply no_timeouts_paced; assumption].
      - rewrite !stop_called_app. change (stop_called (SetTimeout chunkDurationMs :: I2))
          with (stop_called I2). rewrite NE, orb_false_l.
        intros [H|H]%orb_true_iff; apply Hnone; auto. }
    destruct (captureFrame ext (trace w) source _) as [e|].
    + (* the transport refused the frame *)
      cbn [throw try_catch bind]. unfold emit. cbn [bind act].
      set (report := Emit (Ev_error e "frame-capture")).
      destruct (error_listener ext).
      * cbn [ret bind]. apply (Htail sent _ [report]); cbn [trace this]; auto.
        rewrite Tb, <- app_assoc. reflexivity.
      * cbn [throw]. eexists _, _, (frame :: I1 ++ [report]).
        split; [reflexivity|]. split; [discriminate|]. split.
        { cbn [trace]. rewrite Tb. repeat (rewrite <- !app_assoc; cbn [app]). reflexivity. }
        split; [|discriminate].
        rewrite <- (app_nil_r (frame :: I1 ++ [report])).
        apply segment_halted; [reflexivity| | | |reflexivity|apply halted_nil].
        -- rewrite frames_app. cbn. lia.
        -- change (timeouts (frame :: I1 ++ [report])) with (timeouts (I1 ++ [report])).
           rewrite timeouts_app. cbn. lia.
        -- apply Forall_app_2; [apply no_timeouts_paced; assumption|].
           constructor; [discriminate|constructor].
    + cbn [ret try_catch bind]. apply (Htail (S sent) wb []); auto.
      rewrite Tb, app_nil_r. reflexivity.
Qed.

End Finite_delivery.


(** C4 as stated fails.  When the host calls [stop()] during the first
    pacing wait and then starts another playback, whose entry resets the
    flag, the loop of the first playback never sees the flag up and hands
    its second chunk to the transport after the call of [stop].  And the
    result of the call in flight is not discarded: a frame refused while
    [stop()] runs is reported by an [error] event after it. *)
Lemma stop_then_play_resumes_transmission :
  (let played := playFromFile stop_then_play "/tmp/a.mp3" connected_world in
   exists pre post,
     trace (snd played) = pre ++ post /\
     stop_called pre = true /\
     frames post = 1%nat /\
     ~ halted (drop (length (trace connected_world)) (trace (snd played)))) /\
  (let played := playFromFile refused_while_stopping "/tmp/a.mp3" connected_world in
   undisturbed refused_while_stopping /\
   exists pre post,
     trace (snd played) = pre ++ post /\
     stop_called pre = true /\
     List.filter is_error_event post
     = [Emit (Ev_error (new_Error "InvalidState: source closed") "frame-capture")]).
Proof.
  split; cbv zeta.
  - set (t := trace (snd (playFromFile stop_then_play "/tmp/a.mp3" connected_world))).
    set (n := length (trace connected_world)).
    assert (Hsplit : t = take (n + 14) t ++ drop (n + 14) t)
      by (symmetry; apply take_drop).
    exists (take (n + 14) t), (drop (n + 14) t).
    split; [exact Hsplit|].
    assert (Hstop : stop_called (drop n (take (n + 14) t)) = true)
      by (vm_compute; reflexivity).
    assert (Hframes : frames (drop (n + 14) t) = 1%nat) by (vm_compute; reflexivity).
    split; [|split; [exact Hframes|]].
    + rewrite <- (take_drop n (take (n + 14) t)), stop_called_app, Hstop.
      apply orb_true_r.
    + intros Hh.
      destruct (Hh (drop n (take (n + 14) t)) (drop (n + 14) t)) as [H _].
      * rewrite Hsplit at 1. rewrite drop_app_le.
        -- reflexivity.
        -- rewrite length_take. vm_compute. lia.
      * exact Hstop.
      * rewrite Hframes in H. discriminate.
  - split.
    + intros t. cbn [refused_while_stopping on_delivery interrupts].
      destruct (after is_frame t); reflexivity.
    + set (t := trace (snd (playFromFile refused_while_stopping "/tmp/a.mp3"
                              connected_world))).
      set (n := length (trace connected_world)).
      exists (take (n + 13) t), (drop (n + 13) t).
      split; [symmetry; apply take_drop|].
      split; vm_compute; reflexivity.
Qed.

Lemma stop_halts_transmission_witness :
  undisturbed stop_during_wait /\
  exists o w' added,
    send_chunks stop_during_wait 4801 12%nat 0%nat 0 0 long_audio = (o, w') /\
    trace w' = trace long_audio ++ added /\
    halted added /\
    stop_called added = true /\ frames added = 1%nat.
Proof.
  assert (Hu : undisturbed stop_during_wait).
  { intros t. cbn [stop_during_wait on_delivery interrupts].
    destruct (after is_timeout t && negb (stop_called t)); reflexivity. }
  split; [exact Hu|].
  destruct (stop_halts_transmission stop_during_wait 4801 12%nat 0%nat 0 0
              long_audio Hu) as (o & w' & added & Hrun & _ & Ht & Hh & _).
  exists o, w', added. split; [exact Hrun|]. split; [exact Ht|].
  split; [exact Hh|].
  assert (Ha : added = trace (snd (send_chunks stop_during_wait 4801 12%nat
                                     0%nat 0 0 long_audio)))
    by (rewrite Hrun; exact (eq_sym Ht)).
  rewrite Ha. split; vm_compute; reflexivity.
Defined.



(** ** Failed playback attempts *)


Section Failures.

Context (ext : External).

(** The listeners of [convertAudioToPCM] never throw. *)
Lemma convert_events_run (input : Input) (events : list ProcEvent)
  (chunks : list (list Z)) (errorOutput : string) (w : World) :
  exists st w',
    convert_events ext input events chunks errorOutput w = (Resolved st, w') /\
    this w' = this w.
Proof.
  revert chunks errorOutput w.
  induction events as [|ev events IH]; intros chunks errorOutput w.
  - eexists _, _. split; reflexivity.
  - destruct ev; cbn [convert_events]; try apply IH.
    + unfold emit, console_error. run.
      match goal with
      | |- context [convert_events ext input events chunks errorOutput ?w0] =>
          destruct (IH chunks errorOutput w0) as (st & w' & Hrun & Hthis)
      end.
      rewrite Hrun. eexists _, _. split; [reflexivity|exact Hthis].
    + destruct input; unfold console_error; run.
      * apply IH.
      * match goal with
        | |- context [convert_events ext ?i events chunks errorOutput ?w0] =>
            destruct (IH chunks errorOutput w0) as (st & w' & Hrun & Hthis)
        end.
        rewrite Hrun. eexists _, _. split; [reflexivity|exact Hthis].
Qed.

(** A fallback decode that ends with a status other than 0 reports a
    [conversionError] and leaves the promise of [convertAudioToPCM]
    unsettled: [reject] is never called. *)
Lemma convertAudioToPCM_failed_exit (input : Input) (sampleRate channels : Z)
  (w : World) (code : option Z) :
  isNodeAVAvailable ext = false ->
  (forall t, proc_close (ffmpeg ext t (ffmpeg_args input sampleRate channels))
             = Some code) ->
  code <> Some 0 ->
  exists w',
    convertAudioToPCM ext input sampleRate channels w = (Pending, w') /\
    this w' = this w.
Proof.
  intros Hav Hclose Hcode. unfold convertAudioToPCM, emit. run. rewrite Hav. run.
  match goal with
  | |- context [convert_events ext input ?evs [] "" ?w0] =>
      destruct (convert_events_run input evs [] "" w0) as (st & w1 & Hrun & Hthis)
  end.
  rewrite Hrun, Hclose. unfold convert_on_close.
  rewrite bool_decide_eq_false_2 by exact Hcode.
  unfold emit, console_error. run. eexists. split; [reflexivity|].
  cbn [this]. exact Hthis.
Qed.

End Failures.

(** C1 (the code departs from it): on a connected player, a fallback
    decode that exits with status 1 and a publish that returns no handle
    both leave the promise of [play] unsettled for ever instead of
    rejecting it.  The failed decode is reported by [conversionError]
    alone; the failed publish by no event at all.  The session itself stays
    connected. *)
Theorem play_never_settles_on_failure :
  (exists w',
     play failing_ffmpeg (In_stream (mkReadable 0)) connected_world = (Pending, w') /\
     connected (this w') = true /\
     List.filter is_error_event (trace w')
     = [Emit (Ev_conversionError "stream"
                (new_Error "FFmpeg failed with code 1: Invalid data found"))]) /\
  (exists w',
     playFromFile failing_ffmpeg "/tmp/a.mp3" connected_world = (Pending, w') /\
     connected (this w') = true /\
     List.filter is_error_event (trace w')
     = [Emit (Ev_conversionError "/tmp/a.mp3"
                (new_Error "FFmpeg failed with code 1: Invalid data found"))]) /\
  (exists w',
     play null_publication (In_stream (mkReadable 0)) connected_world = (Pending, w') /\
     connected (this w') = true /\
     List.filter is_error_event (trace w') = []).
Proof.
  split; [|split]; eexists; (split; [vm_compute; reflexivity|]);
    split; vm_compute; reflexivity.
Qed.


(** ** Input classification *)

(** C7: [play] routes a [Readable] to the stream path, announced as
    [stream]; a string whose URL has the protocol [http:] or [https:] to
    the URL path; any other string that names an existing file to the file
    path; and rejects every other string with the invalid-input error,
    leaving the world as it was: nothing is emitted and no playback is
    started. *)
Theorem play_classifies_input (ext : External) (w : World) :
  (forall stream,
     play ext (In_stream stream) w
     = (emit ext (Ev_debug "Auto-detected stream input");;
        emit ext (Ev_audioStart "stream" "stream");;
        playFromStream ext stream (Some "stream") (Some "stream")) w) /\
  (forall s,
     URL_protocol ext s = Some "http:" \/ URL_protocol ext s = Some "https:" ->
     play ext (In_string s) w
     = (emit ext (Ev_debug "Auto-detected URL input");; playFromUrl ext s) w) /\
  (forall s,
     URL_protocol ext s <> Some "http:" -> URL_protocol ext s <> Some "https:" ->
     existsSync ext s = Some true ->
     play ext (In_string s) w
     = (emit ext (Ev_debug "Auto-detected file path input");;
        playFromFile ext s) w) /\
  (forall s,
     URL_protocol ext s <> Some "http:" -> URL_protocol ext s <> Some "https:" ->
     existsSync ext s <> Some true ->
     play ext (In_string s) w
     = (Rejected (new_Error ("Invalid input: '" +:+ s
          +:+ "' is neither a valid URL nor an existing file path")), w)).
Proof.
  assert (Hurl : forall s,
            URL_protocol ext s <> Some "http:" ->
            URL_protocol ext s <> Some "https:" -> isUrl ext s = false).
  { intros s H1 H2. unfold isUrl. destruct (URL_protocol ext s) as [protocol|]; auto.
    apply orb_false_iff. split; apply String.eqb_neq; congruence. }
  split; [reflexivity|]. split; [|split].
  - intros s Hs. unfold play, isUrl. destruct Hs as [-> | ->]; reflexivity.
  - intros s H1 H2 Hf. unfold play. rewrite (Hurl s H1 H2).
    unfold isFilePath. rewrite Hf. reflexivity.
  - intros s H1 H2 Hf. unfold play. rewrite (Hurl s H1 H2).
    unfold isFilePath. destruct (existsSync ext s) as [[]|]; try reflexivity.
    congruence.
Qed.

Lemma play_classifies_input_witness :
  (exists w', play one_file (In_string "https://example.com/a.mp3") connected_world
              = (Pending, w') /\
              In (Emit (Ev_audioStart "https://example.com/a.mp3" "url")) (trace w')) /\
  (exists w', play one_file (In_string "/tmp/a.mp3") connected_world
              = (Resolved tt, w') /\
              In (Emit (Ev_audioStart "/tmp/a.mp3" "file")) (trace w')) /\
  play one_file (In_string "/tmp/nonexistent.mp3") connected_world
  = (Rejected (new_Error
       "Invalid input: '/tmp/nonexistent.mp3' is neither a valid URL nor an existing file path"),
     connected_world).
Proof.
  destruct (play_classifies_input one_file connected_world) as (_ & Hu & Hf & Hi).
  split; [|split].
  - rewrite (Hu "https://example.com/a.mp3") by (right; reflexivity).
    eexists. split; [vm_compute; reflexivity|].
    vm_compute. repeat first [left; reflexivity | right].
  - rewrite (Hf "/tmp/a.mp3") by (discriminate || reflexivity).
    eexists. split; [vm_compute; reflexivity|].
    vm_compute. repeat first [left; reflexivity | right].
  - apply Hi; (discriminate || (intros H; vm_compute in H; discriminate H)).
Defined.


(** ** Live delivery *)

(** C9 (the code departs from it): with the primary decoder present,
    one live playback on a connected player creates one audio source and
    publishes one track, but sets up the decode pipeline twice on the same
    stream: [createAudioStream] is called a second time once the first call
    has returned.  Nor is the handoff strict: the decoder does not wait for
    the chunk callback, so when it emits two frames in a row both are
    handed to the transport before the first is settled.  With a stream of
    two frames, the frames of the first pipeline are sent in decode order,
    those of the second are dropped (the end of the first lowered
    [isStreaming]), the end of the playback is announced twice, and two
    [disconnected] listeners are left registered. *)
Theorem live_playback_sets_up_two_pipelines :
  exists w',
    playStreamingAudio cooperative (mkReadable 0) (Some "u") (Some "url")
      connected_world = (Resolved tt, w') /\
    List.filter (fun a => is_pipeline a || is_formatContext a) (trace w')
    = [NodeAV_createAudioStream (mkReadable 0) 48000 1;
       FormatContext_new (mkReadable 0);
       NodeAV_createAudioStream (mkReadable 0) 48000 1;
       FormatContext_new (mkReadable 0)] /\
    List.filter is_frame_traffic (trace w')
    = [CaptureFrame 7%nat [1; 2] 48000 1 2; CaptureFrame 7%nat [3; 4] 48000 1 2;
       CaptureFrame_settled None; CaptureFrame_settled None] /\
    List.filter is_audioEnd (trace w')
    = [Emit (Ev_audioEnd_source 7%nat "url"); Emit (Ev_audioEnd_source 7%nat "url")] /\
    length (audioSources (this w')) = 1%nat /\
    length (publications (this w')) = 1%nat /\
    once_disconnected (this w') = [Stop_streaming; Stop_streaming].
Proof.
  eexists. split; [vm_compute; reflexivity|].
  repeat split.
Qed.

(* ===================================================================== *)
(** * Further properties of the player *)
(* ===================================================================== *)

(** ** More on the volume *)

Lemma compare_dyadic_antisym (m1 e1 m2 e2 : Z) :
  compare_dyadic m2 e2 m1 e1 = CompOpp (compare_dyadic m1 e1 m2 e2).
Proof.
  unfold compare_dyadic. rewrite (Z.min_comm e2 e1). apply Z.compare_antisym.
Qed.

Lemma compare_antisym (x y : number) :
  compare y x = option_map CompOpp (compare x y).
Proof.
  destruct x as [sx|sx| |sx mx ex], y as [sy|sy| |sy my ey]; cbn [compare option_map];
    try reflexivity;
    try (destruct sx; reflexivity); try (destruct sy; reflexivity);
    try (destruct sx, sy; reflexivity).
  rewrite compare_dyadic_antisym. reflexivity.
Qed.

Lemma compare_refl (x : number) : is_nan x = false -> compare x x = Some Eq.
Proof.
  destruct x as [s|[]| |s m e]; cbn [compare is_nan]; try reflexivity; try discriminate.
  intros _. unfold compare_dyadic. rewrite Z.compare_refl. reflexivity.
Qed.

Lemma lt_le (x y : number) : lt x y = true -> le x y = true.
Proof. unfold lt, le. destruct (compare x y) as [[]|]; congruence. Qed.

Lemma lt_not_le (x y : number) : lt x y = true -> le y x = false.
Proof.
  unfold lt, le. rewrite (compare_antisym x y).
  destruct (compare x y) as [[]|]; cbn; congruence.
Qed.

Lemma le_not_lt_eq (x y : number) :
  le x y = true -> lt x y = false -> strict_eq x y = true /\ strict_eq y x = true.
Proof.
  unfold lt, le, strict_eq. rewrite (compare_antisym x y).
  destruct (compare x y) as [[]|]; cbn; auto; congruence.
Qed.

Lemma negative_below_two (level : number) :
  lt level zero = true -> lt two level = false.
Proof.
  unfold lt. destruct level as [s|[]| |[] m e]; try discriminate; try reflexivity.
  intros _. change two with (S754_finite false 4503599627370496 (-51)).
  cbn [compare signed]. unfold compare_dyadic.
  assert (H1 : 0 < 2 ^ (-51 - Z.min (-51) e)) by (apply Z.pow_pos_nonneg; lia).
  assert (H2 : 0 < 2 ^ (e - Z.min (-51) e)) by (apply Z.pow_pos_nonneg; lia).
  assert (Hgt : (4503599627370496 * 2 ^ (-51 - Z.min (-51) e)
                 ?= Z.neg m * 2 ^ (e - Z.min (-51) e)) = Gt)
    by (apply Z.compare_gt_iff; nia).
  rewrite Hgt. reflexivity.
Qed.

Lemma clamp_volume_cases (level : number) :
  is_nan level = false ->
  let v := Math_max zero (Math_min two level) in
  (lt two level = true /\ v = two) \/
  (lt two level = false /\ lt level two = true /\ lt zero level = true /\ v = level) \/
  (lt two level = false /\ lt level two = true /\ lt zero level = false /\ v = zero) \/
  (lt two level = false /\ lt level two = false /\ v = two).
Proof.
  intros Hn v. subst v. unfold Math_min. rewrite Hn.
  change (is_nan two) with false. cbn [orb].
  destruct (lt two level) eqn:H2.
  - left. split; reflexivity.
  - right. destruct (lt level two) eqn:Hl.
    + unfold Math_max. rewrite Hn. change (is_nan zero) with false. cbn [orb].
      destruct (lt zero level) eqn:H0; [left; auto|right; left].
      repeat split. destruct (lt level zero); reflexivity.
    + right. right. repeat split.
Qed.

(** X1: [setVolume] stores the level clamped to [0, 2]: a level in the range
    is kept, a larger one becomes 2, a smaller one 0, so the stored volume
    is in the range whenever the argument is a number; NaN is stored as
    NaN.  The call always returns. *)
Theorem setVolume_clamps (ext : External) (level : number) (w : World) :
  exists w',
    setVolume ext level w = (Resolved tt, w') /\
    (is_nan level = true -> is_nan (_volume (this w')) = true) /\
    (is_nan level = false ->
     le zero (_volume (this w')) = true /\ le (_volume (this w')) two = true) /\
    (le zero level = true -> le level two = true ->
     strict_eq (_volume (this w')) level = true) /\
    (lt two level = true -> _volume (this w') = two) /\
    (lt level zero = true -> _volume (this w') = zero).
Proof.
  rewrite setVolume_run. eexists. split; [reflexivity|].
  cbn [this with_volume _volume].
  split; [|split; [|split; [|split]]].
  - destruct level; try discriminate. reflexivity.
  - intros Hn. destruct (clamp_volume_cases level Hn)
      as [[_ ->]|[(_ & Hl & H0 & ->)|[(_ & _ & _ & ->)|(_ & _ & ->)]]];
      try (split; reflexivity).
    split; apply lt_le; assumption.
  - intros H0 H2.
    assert (Hn : is_nan level = false) by (destruct level; auto; discriminate).
    destruct (clamp_volume_cases level Hn)
      as [[Hgt _]|[(_ & _ & _ & ->)|[(_ & Hl & Hz & ->)|(Hgt & Hl & ->)]]].
    + apply lt_not_le in Hgt. congruence.
    + unfold strict_eq. rewrite compare_refl by exact Hn. reflexivity.
    + apply (le_not_lt_eq zero level H0 Hz).
    + apply (le_not_lt_eq level two H2 Hl).
  - intros Hgt.
    assert (Hn : is_nan level = false) by (destruct level; auto; discriminate).
    destruct (clamp_volume_cases level Hn)
      as [[_ ->]|[(Hf & _)|[(Hf & _)|(Hf & _)]]]; congruence.
  - intros Hneg.
    assert (Hn : is_nan level = false) by (destruct level; auto; discriminate).
    destruct (clamp_volume_cases level Hn)
      as [[Hgt _]|[(_ & _ & H0 & _)|[(_ & _ & _ & ->)|(_ & Hl & _)]]].
    + apply negative_below_two in Hneg. congruence.
    + apply lt_not_le in Hneg. apply lt_le in H0. congruence.
    + reflexivity.
    + exfalso. clear - Hl Hneg. unfold lt in *.
      destruct level as [s|[]| |[] m e]; try discriminate.
      change two with (S754_finite false 4503599627370496 (-51)) in Hl.
      cbn [compare signed] in Hl. unfold compare_dyadic in Hl.
      assert (H1 : 0 < 2 ^ (-51 - Z.min e (-51))) by (apply Z.pow_pos_nonneg; lia).
      assert (H2 : 0 < 2 ^ (e - Z.min e (-51))) by (apply Z.pow_pos_nonneg; lia).
      assert (Hlt : (Z.neg m * 2 ^ (e - Z.min e (-51))
                     ?= 4503599627370496 * 2 ^ (-51 - Z.min e (-51))) = Lt)
        by (apply Z.compare_lt_iff; nia).
      rewrite Hlt in Hl. discriminate.
Qed.

Lemma setVolume_clamps_witness :
  _volume (this (snd (setVolume cooperative (of_Z 5) (fresh "c" "s")))) = two /\
  _volume (this (snd (setVolume cooperative (of_Z (-3)) (fresh "c" "s")))) = zero /\
  is_nan (_volume (this (snd (setVolume cooperative NaN (fresh "c" "s"))))) = true /\
  strict_eq (_volume (this (snd (setVolume cooperative one (fresh "c" "s"))))) one = true.
Proof.
  destruct (setVolume_clamps cooperative (of_Z 5) (fresh "c" "s"))
    as (w1 & H1 & _ & _ & _ & Hhi & _).
  destruct (setVolume_clamps cooperative (of_Z (-3)) (fresh "c" "s"))
    as (w2 & H2 & _ & _ & _ & _ & Hlo).
  destruct (setVolume_clamps cooperative NaN (fresh "c" "s"))
    as (w3 & H3 & Hnan & _).
  destruct (setVolume_clamps cooperative one (fresh "c" "s"))
    as (w4 & H4 & _ & _ & Hin & _).
  rewrite H1, H2, H3, H4. cbn [snd].
  split; [apply Hhi; reflexivity|]. split; [apply Hlo; reflexivity|].
  split; [apply Hnan; reflexivity|apply Hin; reflexivity].
Defined.


Lemma stored_silence (volume : number) (x : Z) :
  strict_eq volume zero = true -> int16 x -> stored volume x = 0.
Proof.
  intros Hz Hx.
  assert (Hv : exists s, volume = S754_zero s).
  { unfold strict_eq in Hz. destruct volume as [s|[]| |[] m e]; try discriminate.
    exists s. reflexivity. }
  destruct Hv as [s ->]. unfold stored, scaled_sample.
  pose proof (of_Z_int16_finite x Hx) as Hf.
  rewrite store_clamped.
  - unfold mul. destruct (of_Z x); try discriminate; reflexivity.
  - apply mul_not_nan; [exact Hf|reflexivity].
Qed.

(** X2: At volume zero [applyVolume] turns 16-bit samples into silence of
    the same length, in a fresh array: the one array added to the heap.
    The input array is left alone, and so are the arrays that existed,
    the player object and the trace. *)
Theorem applyVolume_muted_is_silence (w : World) (pcmData : Int16Array) :
  strict_eq (_volume (this w)) zero = true ->
  Forall int16 (contents (heap w) pcmData) ->
  exists result w',
    applyVolume pcmData w = (Resolved result, w') /\
    contents (heap w') result
    = replicate (length (contents (heap w) pcmData)) 0 /\
    result = length (heap w) /\
    heap w' = heap w ++ [replicate (length (contents (heap w) pcmData)) 0] /\
    contents (heap w') pcmData = contents (heap w) pcmData /\
    this w' = this w /\ trace w' = trace w.
Proof.
  intros Hz Hin.
  assert (Hone : strict_eq (_volume (this w)) one = false).
  { unfold strict_eq in *. destruct (_volume (this w)) as [s|[]| |[] m e];
      try discriminate; reflexivity. }
  destruct w as [p H t]. cbn [this heap trace] in *.
  unfold applyVolume. unfold bind at 1. unfold get_this at 1. cbn [this].
  rewrite Hone.
  unfold bind at 1. unfold read_Int16Array at 1. cbn [heap].
  unfold bind at 1. unfold alloc_Int16Array at 1. cbn [this heap trace].
  set (samples := contents H pcmData) in *.
  assert (Hloop :
    for_upto (length samples) 0 (applyVolume_pass pcmData (length H))
      (mkWorld p (H ++ [replicate (length samples) 0]) t)
    = (Resolved tt, mkWorld p (H ++ [map (stored (_volume p)) samples]) t)).
  { destruct (le_lt_dec (length H) pcmData) as [Hdang|Hvalid].
    - assert (Hs : samples = []) by (apply contents_dangling; exact Hdang).
      rewrite Hs. reflexivity.
    - apply (applyVolume_loop p H t pcmData samples) with (pre := []);
        [intros arr; apply contents_app_l; exact Hvalid|reflexivity|reflexivity]. }
  unfold bind at 1. rewrite Hloop. cbn [ret].
  assert (Hzeros : map (stored (_volume p)) samples
                   = replicate (length samples) 0).
  { clear Hloop. induction Hin as [|x l Hx Hl IH]; [reflexivity|].
    cbn [map length replicate]. rewrite IH, (stored_silence _ x Hz Hx).
    reflexivity. }
  rewrite Hzeros.
  eexists _, _. split; [reflexivity|]. cbn [this heap trace].
  rewrite contents_fresh.
  split; [reflexivity|]. split; [reflexivity|]. split; [reflexivity|].
  split; [|split; reflexivity].
  destruct (le_lt_dec (length H) pcmData) as [Hdang|Hvalid].
  - assert (Hs : samples = []) by (apply contents_dangling; exact Hdang).
    rewrite Hs. cbn [length replicate].
    destruct (decide (pcmData = length H)) as [->|Hne].
    + rewrite contents_fresh. reflexivity.
    + apply contents_dangling. rewrite length_app. simpl. lia.
  - apply contents_app_l. exact Hvalid.
Qed.

Lemma applyVolume_muted_is_silence_witness :
  exists result w',
    applyVolume 0%nat muted_world = (Resolved result, w') /\
    contents (heap w') result = [0; 0; 0; 0] /\
    contents (heap w') 0%nat = [100; -200; 32767; -32768].
Proof.
  destruct (applyVolume_muted_is_silence muted_world 0%nat)
    as (result & w' & Hrun & Hc & _ & _ & Hin & _);
    [reflexivity|repeat constructor; unfold int16; lia|].
  exists result, w'. split; [exact Hrun|]. split; [exact Hc|exact Hin].
Defined.


(** ** More on cleanup *)

Section More_cleanup.

Context (ext : External).

(** The [once] listeners only lower [isStreaming] and kill the fallback
    decoder. *)
Lemma run_once_listeners_run (ls : list OnceListener) (w : World) :
  exists kills,
    run_once_listeners ls w
    = (Resolved tt,
       updated w (match ls with
                  | [] => this w
                  | _ => with_isStreaming false (this w)
                  end) (trace w ++ kills)) /\
    Forall (fun a => a = Ffmpeg_kill) kills.
Proof.
  revert w. induction ls as [|l ls IH]; intros w.
  - exists []. cbn. rewrite app_nil_r. destruct w. split; [reflexivity|constructor].
  - cbn [run_once_listeners bind].
    destruct l; cbn [run_once_listener bind modify_this act this heap trace].
    + destruct (IH (updated w (with_isStreaming false (this w)) (trace w)))
        as (kills & Hk & Hf).
      unfold updated in Hk. rewrite Hk. exists kills.
      cbn [updated this heap trace]. split; [destruct ls; reflexivity|exact Hf].
    + destruct (IH (updated w (with_isStreaming false (this w))
                            (trace w ++ [Ffmpeg_kill])))
        as (kills & Hk & Hf).
      unfold updated in Hk. rewrite Hk. exists (Ffmpeg_kill :: kills).
      cbn [updated this heap trace]. rewrite <- app_assoc.
      split; [destruct ls; reflexivity|constructor; auto].
Qed.

(** X3: An unexpected disconnection empties the session like a manual one,
    without calling the transport: no track, no source, no room, the
    connection flag down, the [once] listeners consumed, and
    [disconnected] announced with the reason [unexpected]. *)
Theorem handleDisconnected_cleans_up (w : World) :
  exists w' added,
    handleDisconnected ext w = (Resolved tt, w') /\
    publications (this w') = [] /\
    audioSources (this w') = [] /\
    room (this w') = None /\
    isConnected (this w') = false /\
    once_disconnected (this w') = [] /\
    trace w' = trace w ++ added /\
    In (Emit (Ev_disconnected (channelId (this w)) (serverId (this w))
                              "unexpected")) added /\
    existsb is_transport_call added = false.
Proof.
  unfold handleDisconnected, emit. run. fields.
  match goal with
  | |- context [run_once_listeners ?ls ?w0] =>
      destruct (run_once_listeners_run ls w0) as (kills & Hk & Hf); rewrite Hk
  end.
  cbn [updated this heap trace]. run.
  eexists _, (_ :: kills ++ [_]). split; [reflexivity|].
  cbn [this trace].
  assert (Hq : forall q : AudioPlayer,
            publications q = [] -> audioSources q = [] -> room q = None ->
            isConnected q = false -> once_disconnected q = [] ->
            let q' := match once_disconnected (this w) with
                      | [] => q
                      | _ => with_isStreaming false q
                      end in
            publications q' = [] /\ audioSources q' = [] /\ room q' = None /\
            isConnected q' = false /\ once_disconnected q' = [])
    by (intros q ? ? ? ? ?; destruct (once_disconnected (this w)); cbn; auto).
  match goal with
  | |- context [match once_disconnected (this w) with [] => ?q | _ => _ end] =>
      destruct (Hq q) as (H1 & H2 & H3 & H4 & H5); try reflexivity
  end.
  cbv zeta in H1, H2, H3, H4, H5.
  split; [exact H1|]. split; [exact H2|]. split; [exact H3|].
  split; [exact H4|]. split; [exact H5|].
  split; [cbn [app]; rewrite <- !app_assoc; reflexivity|].
  split; [left; reflexivity|].
  cbn [existsb is_transport_call orb]. rewrite existsb_app.
  cbn [existsb is_transport_call orb]. rewrite orb_false_r.
  clear - Hf. induction Hf as [|a l -> _ IH]; [reflexivity|exact IH].
Qed.

End More_cleanup.


Section Stop.

Context (ext : External).

(** X4: [stop(name)] on a connected player.  An unknown name only raises the
    flags; a known track whose unpublish call fails stays in the
    publications, with the failure logged and no [trackStopped]; a known
    track that is unpublished is removed and reported.  The audio sources
    are never touched. *)
Theorem stop_named_track (name : string) (r : Room) (w : World) :
  room (this w) = Some r ->
  name <> "" ->
  room_localParticipant ext (trace w) r = true ->
  exists w',
    stop ext (Some name) w = (Resolved tt, w') /\
    shouldStop (this w') = true /\ isStreaming (this w') = false /\
    audioSources (this w') = audioSources (this w) /\
    match Map_get name (publications (this w)) with
    | None =>
        publications (this w') = publications (this w) /\ trace w' = trace w
    | Some publication =>
        match unpublishTrack ext (trace w) r (sid publication) with
        | Some e =>
            publications (this w') = publications (this w) /\
            trace w' = trace w ++
              [UnpublishTrack r (sid publication);
               Console_error (failed_to_stop (channelId (this w)) name) (Some e)]
        | None =>
            publications (this w') = Map_delete name (publications (this w)) /\
            trace w' = trace w ++
              [UnpublishTrack r (sid publication); Emit (Ev_trackStopped name)]
        end
    end.
Proof.
  intros Hroom Hname Hlp. unfold stop.
  cbn [bind modify_this get_this this heap trace]. fields. rewrite Hroom.
  apply String.eqb_neq in Hname. rewrite Hname.
  destruct (Map_get name (publications (this w))) as [publication|].
  - unfold unpublish, emit, console_error. run. fields. rewrite Hroom. run.
    rewrite Hlp. run.
    destruct (unpublishTrack ext (trace w) r (sid publication)) as [e|]; run; fields.
    + eexists. split; [reflexivity|]. cbn [this trace]. fields.
      repeat split. rewrite <- app_assoc. reflexivity.
    + eexists. split; [reflexivity|]. cbn [this trace]. fields.
      repeat split. rewrite <- app_assoc. reflexivity.
  - eexists. split; [reflexivity|]. cbn [this trace]. fields. repeat split.
Qed.

End Stop.

Lemma stop_named_track_witness :
  publications (this (snd (stop flaky_unpublish (Some "TR_bad") two_tracks)))
  = publications (this two_tracks) /\
  publications (this (snd (stop flaky_unpublish (Some "TR_good") two_tracks)))
  = [("TR_bad", mkPublication "TR_bad" true)] /\
  trace (snd (stop flaky_unpublish (Some "TR_none") two_tracks)) = [].
Proof.
  destruct (stop_named_track flaky_unpublish "TR_bad" 2%nat two_tracks)
    as (w1 & H1 & _ & _ & _ & Hm1); [reflexivity|discriminate|reflexivity|].
  destruct (stop_named_track flaky_unpublish "TR_good" 2%nat two_tracks)
    as (w2 & H2 & _ & _ & _ & Hm2); [reflexivity|discriminate|reflexivity|].
  destruct (stop_named_track flaky_unpublish "TR_none" 2%nat two_tracks)
    as (w3 & H3 & _ & _ & _ & Hm3); [reflexivity|discriminate|reflexivity|].
  rewrite H1, H2, H3. cbn [snd].
  split; [exact (proj1 Hm1)|]. split; [exact (proj1 Hm2)|exact (proj2 Hm3)].
Defined.


(** ** More on the connection *)

Section More_connection.

Context (ext : External).

(** The negotiation settles, sends requests only and leaves the player
    and the heap alone. *)
Lemma negotiate_run (c n : string) (w : World) :
  exists o reqs,
    negotiate ext c n w = (o, logged w (trace w ++ reqs)) /\
    o <> Pending /\
    forallb is_request reqs = true /\
    reqs <> [].
Proof.
  unfold negotiate. cbn [try_catch]. rewrite post_join_call_run.
  destruct (api_post ext (trace w) (join_call_path c) n false) as [e|r].
  2:{ eexists _, [_]. split; [reflexivity|]. repeat split; discriminate. }
  destruct (is_AlreadyConnected e).
  2:{ eexists _, [_]. split; [reflexivity|]. repeat split; discriminate. }
  cbn [try_catch bind]. rewrite delete_join_call_run. cbn [logged trace this heap].
  destruct (api_delete ext _ (join_call_path c)) as [ed|].
  - rewrite post_join_call_run. cbn [logged trace this heap].
    destruct (api_post ext _ (join_call_path c) n true) as [ef|r].
    + eexists _, [_; _; _]. unfold logged. cbn [this heap trace].
      rewrite <- !app_assoc. split; [reflexivity|]. repeat split; discriminate.
    + eexists _, [_; _; _]. unfold logged. cbn [this heap trace].
      rewrite <- !app_assoc. split; [reflexivity|]. repeat split; discriminate.
  - rewrite post_join_call_run. cbn [logged trace this heap].
    destruct (api_post ext _ (join_call_path c) n false) as [e2|r].
    + rewrite post_join_call_run. cbn [logged trace this heap].
      destruct (api_post ext _ (join_call_path c) n true) as [ef|r].
      * eexists _, [_; _; _; _]. unfold logged. cbn [this heap trace].
        rewrite <- !app_assoc. split; [reflexivity|]. repeat split; discriminate.
      * eexists _, [_; _; _; _]. unfold logged. cbn [this heap trace].
        rewrite <- !app_assoc. split; [reflexivity|]. repeat split; discriminate.
    + eexists _, [_; _; _]. unfold logged. cbn [this heap trace].
      rewrite <- !app_assoc. split; [reflexivity|]. repeat split; discriminate.
Qed.

Lemma requests_not_announced (reqs : list Action) :
  forallb is_request reqs = true -> announced reqs = false.
Proof.
  unfold announced. induction reqs as [|a reqs IH]; [reflexivity|].
  cbn [forallb existsb]. intros [Ha Hr]%andb_true_iff. rewrite (IH Hr).
  destruct a; try discriminate; reflexivity.
Qed.

Lemma connection_failed_trace (c : string) (error : JsError) (w : World) :
  exists e tail,
    connection_failed ext c error w
    = (Rejected e, logged w (trace w ++ tail)) /\
    announced tail = false /\ requests tail = [].
Proof.
  unfold connection_failed, emit, console_error. run.
  rewrite as_Error_is_Error. destruct (error_listener ext); run.
  - eexists _, [_; _]. unfold logged. rewrite <- app_assoc.
    split; [reflexivity|split; reflexivity].
  - eexists _, [_]. split; [reflexivity|split; reflexivity].
Qed.

(** X5: [connected] is announced only once the transport handshake has
    succeeded: a [connect] that resolves ends with the handshake, the
    [connected] event and the closing debug message, and never announced
    the connection before; a [connect] that rejects never announces it and
    leaves the connection flag down. *)
Theorem connected_announced_after_handshake (w : World)
  (targetChannelId : option string) :
  isConnected (this w) = false ->
  voiceOptions_nodes ext <> Some [] ->
  exists o w' added,
    connect ext targetChannelId w = (o, w') /\
    trace w' = trace w ++ added /\
    ((o = Resolved tt /\ connected (this w') = true /\
      exists pre handle u tk name,
        added = pre ++ [Room_connect handle u tk;
                        Emit (Ev_connected
                                (channelToConnect (this w) targetChannelId)
                                (serverId (this w)) name);
                        Emit (Ev_debug "Connection established")] /\
        announced pre = false) \/
     (exists e, o = Rejected e /\ announced added = false /\
                isConnected (this w') = false)).
Proof.
  intros Hidle Hnodes. rewrite (connect_idle ext w targetChannelId Hidle Hnodes).
  set (c := channelToConnect (this w) targetChannelId).
  cbn [try_catch bind].
  destruct (negotiate_run c (node_name ext)
              (logged w (trace w ++ [Emit (Ev_debug "Starting connection")])))
    as (o1 & reqs & Hneg & Hp & Hreq & _).
  rewrite Hneg. clear Hneg. unfold logged. cbn [this heap trace].
  pose proof (requests_not_announced reqs Hreq) as Hquiet.
  destruct o1 as [r|e|]; [| |contradiction].
  - unfold open_transport. run. fields.
    match goal with
    | |- context [room_connect ext ?t ?h ?u ?k] =>
        destruct (room_connect ext t h u k) as [e|]
    end.
    + run.
      match goal with
      | |- context [connection_failed ext c e ?w0] =>
          destruct (connection_failed_trace c e w0) as (e' & tail & Hf & Ha & _);
          rewrite Hf
      end.
      unfold logged. cbn [this heap trace].
      eexists _, _, _. split; [reflexivity|]. cbn [trace this].
      split; [repeat rewrite <- app_assoc; reflexivity|].
      right. exists e'. split; [reflexivity|]. split; [|fields; exact Hidle].
      unfold announced in *. rewrite !existsb_app. cbn [existsb is_connected_event orb].
      rewrite Hquiet, Ha. reflexivity.
    + unfold emit. run. fields.
      eexists _, _, _. split; [reflexivity|]. cbn [trace this].
      split; [repeat rewrite <- app_assoc; reflexivity|].
      left. split; [reflexivity|]. split; [reflexivity|].
      eexists ([Emit (Ev_debug "Starting connection")] ++ reqs ++ [_; _]), _, _, _, _.
      split; [repeat (rewrite <- !app_assoc; cbn [app]); reflexivity|].
      unfold announced in *. rewrite !existsb_app. cbn [existsb is_connected_event orb].
      rewrite Hquiet. reflexivity.
  - match goal with
    | |- context [connection_failed ext c e ?w0] =>
        destruct (connection_failed_trace c e w0) as (e' & tail & Hf & Ha & _);
        rewrite Hf
    end.
    unfold logged. cbn [this heap trace].
    eexists _, _, _. split; [reflexivity|]. cbn [trace this].
    split; [repeat rewrite <- app_assoc; reflexivity|].
    right. exists e'. split; [reflexivity|]. split; [|exact Hidle].
    unfold announced in *. rewrite !existsb_app. cbn [existsb is_connected_event orb].
    rewrite Hquiet, Ha. reflexivity.
Qed.

End More_connection.

Lemma connected_announced_after_handshake_witness :
  (exists w', connect cooperative None (fresh "c" "s") = (Resolved tt, w') /\
              announced (trace w') = true) /\
  (exists e w', connect refused_handshake None (fresh "c" "s") = (Rejected e, w') /\
                announced (trace w') = false).
Proof.
  split.
  - destruct (connected_announced_after_handshake cooperative (fresh "c" "s") None)
      as (o & w' & added & Hrun & Ht & [(-> & _ & pre & h & u & tk & nm & -> & _)
                                        |(e & -> & Hno & _)]);
      [reflexivity|discriminate| |].
    + exists w'. split; [exact Hrun|]. rewrite Ht. cbn [fresh trace app].
      unfold announced. rewrite existsb_app. cbn. apply orb_true_r.
    + exfalso. vm_compute in Hrun. discriminate Hrun.
  - destruct (connected_announced_after_handshake refused_handshake
                (fresh "c" "s") None)
      as (o & w' & added & Hrun & Ht & [(-> & _)|(e & -> & Hno & _)]);
      [reflexivity|discriminate| |].
    + exfalso. vm_compute in Hrun. discriminate Hrun.
    + exists e, w'. split; [exact Hrun|]. rewrite Ht. exact Hno.
Defined.




Section Refusals.

Context (ext : External).

(** X6: A join refused for a reason other than the conflict is not retried:
    one request is sent, [connect] rejects with the error of the endpoint
    (with the [Error] made of it when nobody listens to [error]), and the
    player object is as before. *)
Theorem connect_other_refusal_not_retried (w : World)
  (targetChannelId : option string) (e : JsError) :
  let c := channelToConnect (this w) targetChannelId in
  let t0 := trace w ++ [Emit (Ev_debug "Starting connection")] in
  isConnected (this w) = false ->
  voiceOptions_nodes ext <> Some [] ->
  api_post ext t0 (join_call_path c) (node_name ext) false = inl e ->
  is_AlreadyConnected e = false ->
  exists w',
    connect ext targetChannelId w
    = (Rejected (if error_listener ext then e else as_Error e), w') /\
    this w' = this w /\
    requests (trace w')
    = requests (trace w) ++ [Api_post (join_call_path c) (node_name ext) false].
Proof.
  intros c t0 Hidle Hnodes Hpost Hother.
  rewrite (connect_idle ext w targetChannelId Hidle Hnodes).
  fold c t0. cbn [try_catch bind].
  rewrite (negotiate_refused ext c (node_name ext) e (logged w t0) Hpost Hother).
  match goal with
  | |- context [connection_failed ext c e ?w0] =>
      destruct (connection_failed_run ext c e w0) as (w' & Hf & Hthis & Hreq & _)
  end.
  rewrite Hf. exists w'. split; [reflexivity|]. split; [exact Hthis|].
  rewrite Hreq. cbn [logged trace]. unfold t0. rewrite !requests_snoc. cbn.
  rewrite app_nil_r. reflexivity.
Qed.

(** X7: With an empty list of relay nodes, reading the name of the first node
    throws: [connect] rejects before any request is sent and before any
    room is created. *)
Theorem connect_without_nodes (w : World) (targetChannelId : option string) :
  isConnected (this w) = false ->
  voiceOptions_nodes ext = Some [] ->
  exists e w',
    connect ext targetChannelId w = (Rejected e, w') /\
    message e = Some "Cannot read properties of undefined (reading 'name')" /\
    this w' = this w /\
    requests (trace w') = requests (trace w) /\
    existsb is_transport_call (drop (length (trace w)) (trace w')) = false.
Proof.
  intros Hidle Hnodes. unfold connect. run. rewrite Hidle. cbn [andb].
  unfold connect_to, emit. run. unfold selectedNode. rewrite Hnodes.
  cbn [throw try_catch bind].
  set (c := channelToConnect (this w) targetChannelId).
  set (err := new_Error "Cannot read properties of undefined (reading 'name')").
  unfold connection_failed, emit, console_error. run.
  replace (as_Error err) with err by reflexivity.
  cbn [instanceof_Error err new_Error].
  destruct (error_listener ext); run.
  - eexists _, _. split; [reflexivity|]. cbn [this trace].
    split; [reflexivity|]. split; [reflexivity|].
    split; [rewrite !requests_snoc; cbn; rewrite !app_nil_r; reflexivity|].
    rewrite <- !app_assoc, drop_app_length. reflexivity.
  - eexists _, _. split; [reflexivity|]. cbn [this trace].
    split; [reflexivity|]. split; [reflexivity|].
    split; [rewrite !requests_snoc; cbn; rewrite !app_nil_r; reflexivity|].
    rewrite <- !app_assoc, drop_app_length. reflexivity.
Qed.

End Refusals.

Lemma connect_other_refusal_not_retried_witness :
  exists w',
    connect refused_join None (fresh "c" "s")
    = (Rejected (new_Error "MissingPermission"), w') /\
    this w' = this (fresh "c" "s") /\
    requests (trace w') = [Api_post "/channels/c/join_call" "worldwide" false].
Proof.
  destruct (connect_other_refusal_not_retried refused_join (fresh "c" "s") None
              (new_Error "MissingPermission"))
    as (w' & Hrun & Hthis & Hreq);
    [reflexivity|discriminate|reflexivity|reflexivity|].
  exists w'. split; [exact Hrun|]. split; [exact Hthis|exact Hreq].
Defined.

Lemma connect_without_nodes_witness :
  exists e w',
    connect no_nodes None (fresh "c" "s") = (Rejected e, w') /\
    requests (trace w') = [].
Proof.
  destruct (connect_without_nodes no_nodes (fresh "c" "s") None)
    as (e & w' & Hrun & _ & _ & Hreq & _); [reflexivity|reflexivity|].
  exists e, w'. split; [exact Hrun|exact Hreq].
Defined.


(** ** Finite delivery without interruption *)

Section Uninterrupted.

Context (ext : External).
Context (Hquiet : forall t, interrupts ext t = []).
Context (Haccept : forall t s d, captureFrame ext t s d = None).

Lemma suspended_quiet (w : World) : suspended ext w = (Resolved tt, w).
Proof. unfold suspended. run. rewrite Hquiet. reflexivity. Qed.

Lemma send_chunks_done (fuel : nat) (source : AudioSource) (pcm : Int16Array)
  (offset sent : nat) (w : World) :
  (length (contents (heap w) pcm) <= offset)%nat ->
  send_chunks ext fuel source pcm offset sent w = (Resolved sent, w).
Proof.
  intros Hend. destruct fuel; [reflexivity|]. cbn [send_chunks].
  unfold read_Int16Array. run.
  destruct (Nat.ltb_spec offset (length (contents (heap w) pcm))); [lia|].
  reflexivity.
Qed.

(** The chunk sent at [offset]. *)
Lemma send_chunks_step (fuel : nat) (source : AudioSource) (pcm : Int16Array)
  (offset sent : nat) (w : World) :
  shouldStop (this w) = false ->
  (offset < length (contents (heap w) pcm))%nat ->
  let data := contents (heap w) pcm in
  let chunk := take samplesPerChunk (drop offset data) in
  send_chunks ext (S fuel) source pcm offset sent w
  = send_chunks ext fuel source pcm
      (Nat.min (offset + samplesPerChunk) (length data)) (S sent)
      (mkWorld (this w) (heap w ++ [chunk])
         ((trace w ++ [CaptureFrame source chunk 48000 1
                         (Z.of_nat (length chunk))])
          ++ [SetTimeout chunkDurationMs])).
Proof.
  intros Hs Hlt data chunk. subst chunk data. cbn [send_chunks].
  unfold read_Int16Array at 1. run. rewrite Hs.
  set (data := contents (heap w) pcm) in *.
  destruct (Nat.ltb_spec offset (length data)); [|lia]. cbn [andb negb].
  unfold slice, capture, sleep. unfold read_Int16Array, alloc_Int16Array. run.
  fold data. rewrite contents_fresh.
  assert (Hchunk : take (Nat.min (offset + samplesPerChunk) (length data) - offset)
                        (drop offset data) = take samplesPerChunk (drop offset data)).
  { destruct (Nat.le_ge_cases (offset + samplesPerChunk) (length data)).
    - rewrite Nat.min_l by lia. f_equal. lia.
    - rewrite Nat.min_r by lia.
      rewrite !take_ge by (rewrite length_drop; lia). reflexivity. }
  rewrite Hchunk, suspended_quiet. run. rewrite Haccept. run.
  rewrite suspended_quiet. reflexivity.
Qed.

Lemma samplesPerChunk_value : samplesPerChunk = 4800%nat.
Proof. reflexivity. Qed.

Lemma chunks_needed_step (n : nat) :
  (0 < n)%nat ->
  ((n + 4799) / 4800 = S ((n - Nat.min 4800 n + 4799) / 4800))%nat.
Proof.
  intros Hn. destruct (Nat.le_gt_cases n 4800) as [Hsmall|Hbig].
  - rewrite Nat.min_r by lia. replace (n - n + 4799)%nat with 4799%nat by lia.
    rewrite (Nat.div_small 4799 4800) by lia.
    symmetry. apply Nat.div_unique with (r := (n - 1)%nat); lia.
  - rewrite Nat.min_l by lia.
    replace (n + 4799)%nat with ((n - 4800 + 4799) + 1 * 4800)%nat by lia.
    rewrite Nat.div_add by lia. lia.
Qed.

(** X8: Left alone (nobody interrupts, the transport accepts every frame, no
    stop requested), the finite-mode loop does exactly this: a frame of
    the next 4800 samples at most, then a wait of 100 ms, and so on until
    no sample is left.  So every sample of the buffer is handed to the
    transport once and in order; the number of frames is the buffer length
    divided by 4800, rounded up, and is what the loop counts.  The bound
    on the number of passes is never what ends the loop: more fuel changes
    nothing. *)
Theorem finite_delivery_sends_every_sample (fuel : nat) (source : AudioSource)
  (pcm : Int16Array) (offset sent : nat) (w : World) :
  shouldStop (this w) = false ->
  (pcm < length (heap w))%nat ->
  (length (contents (heap w) pcm) - offset <= fuel)%nat ->
  exists w' added,
    send_chunks ext fuel source pcm offset sent w
    = (Resolved (sent + frames added)%nat, w') /\
    this w' = this w /\
    trace w' = trace w ++ added /\
    added = paced_delivery fuel source (drop offset (contents (heap w) pcm)) /\
    sent_samples added = drop offset (contents (heap w) pcm) /\
    frames added
    = ((length (contents (heap w) pcm) - offset + 4799) / 4800)%nat /\
    timeouts added = frames added /\
    Forall (fun a => (length (frame_data a) <= 4800)%nat) added /\
    forall more,
      send_chunks ext (fuel + more) source pcm offset sent w
      = send_chunks ext fuel source pcm offset sent w.
Proof.
  revert offset sent w. induction fuel as [|fuel IH]; intros offset sent w Hs Hvalid Hfuel.
  - assert (Hend : (length (contents (heap w) pcm) <= offset)%nat) by lia.
    exists w, []. rewrite send_chunks_done by exact Hend.
    rewrite app_nil_r, Nat.add_0_r.
    replace (length (contents (heap w) pcm) - offset)%nat with 0%nat by lia.
    repeat split; auto.
    + rewrite drop_ge by exact Hend. reflexivity.
    + intros more. apply send_chunks_done. exact Hend.
  - destruct (Nat.le_gt_cases (length (contents (heap w) pcm)) offset) as [Hend|Hlt].
    { exists w, []. rewrite send_chunks_done by exact Hend.
      rewrite app_nil_r, Nat.add_0_r.
      replace (length (contents (heap w) pcm) - offset)%nat with 0%nat by lia.
      repeat split; auto.
      - rewrite drop_ge by exact Hend. reflexivity.
      - rewrite drop_ge by exact Hend. reflexivity.
      - intros more. rewrite !send_chunks_done by exact Hend. reflexivity. }
    set (data := contents (heap w) pcm) in *.
    set (chunk := take samplesPerChunk (drop offset data)).
    set (stop := Nat.min (offset + samplesPerChunk) (length data)).
    set (w2 := mkWorld (this w) (heap w ++ [chunk])
                 ((trace w ++ [CaptureFrame source chunk 48000 1
                                 (Z.of_nat (length chunk))])
                  ++ [SetTimeout chunkDurationMs])).
    assert (Hstep : forall f, send_chunks ext (S f) source pcm offset sent w
                              = send_chunks ext f source pcm stop (S sent) w2)
      by (intros f; apply send_chunks_step; assumption).
    assert (Hdata : contents (heap w2) pcm = data)
      by (apply contents_app_l; exact Hvalid).
    destruct (IH stop (S sent) w2)
      as (w' & added & Hrun & Hthis & Ht & Hadded & Hsent & Hn & Hw & Hsz & Hmore).
    { exact Hs. }
    { cbn [w2 heap]. rewrite length_app. cbn. lia. }
    { rewrite Hdata. unfold stop. rewrite samplesPerChunk_value. lia. }
    rewrite Hdata in Hsent, Hn, Hadded.
    exists w', (CaptureFrame source chunk 48000 1 (Z.of_nat (length chunk))
                :: SetTimeout chunkDurationMs :: added).
    rewrite Hstep, Hrun.
    change (frames (CaptureFrame source chunk 48000 1 (Z.of_nat (length chunk))
                    :: SetTimeout chunkDurationMs :: added)) with (S (frames added)).
    change (timeouts (CaptureFrame source chunk 48000 1 (Z.of_nat (length chunk))
                      :: SetTimeout chunkDurationMs :: added))
      with (S (timeouts added)).
    replace (sent + S (frames added))%nat with (S sent + frames added)%nat by lia.
    split; [reflexivity|]. split; [exact Hthis|].
    split; [rewrite Ht; cbn [w2 trace]; rewrite <- !app_assoc; reflexivity|].
    split; [|split; [|split; [|split; [|split]]]].
    + assert (Hleft : exists x rest, drop offset data = x :: rest).
      { destruct (drop offset data) as [|x rest] eqn:Hd; [|eauto].
        apply (f_equal length) in Hd. rewrite length_drop in Hd. cbn in Hd. lia. }
      destruct Hleft as (x & rest & Hd).
      cbn [paced_delivery]. rewrite Hd. rewrite <- Hd. fold chunk.
      do 2 f_equal. rewrite Hadded. f_equal.
      rewrite drop_drop. unfold stop.
      destruct (Nat.le_ge_cases (offset + samplesPerChunk) (length data)).
      * rewrite Nat.min_l by lia. reflexivity.
      * rewrite Nat.min_r by lia. rewrite !drop_ge by lia. reflexivity.
    + cbn [sent_samples flat_map frame_data]. fold (sent_samples added).
      rewrite Hsent. unfold chunk, stop. rewrite samplesPerChunk_value.
      destruct (Nat.le_ge_cases (offset + 4800) (length data)).
      * rewrite Nat.min_l by lia. rewrite <- drop_drop. apply take_drop.
      * rewrite Nat.min_r by lia. rewrite (drop_ge data (length data)) by lia.
        rewrite take_ge by (rewrite length_drop; lia). apply app_nil_r.
    + rewrite Hn. unfold stop. rewrite samplesPerChunk_value.
      rewrite (chunks_needed_step (length data - offset)) by lia.
      replace (length data - Nat.min (offset + 4800) (length data))%nat
        with (length data - offset - Nat.min 4800 (length data - offset))%nat
        by lia.
      reflexivity.
    + rewrite Hw. reflexivity.
    + constructor; [|constructor; [cbn; lia|exact Hsz]].
      cbn [frame_data]. unfold chunk. rewrite length_take, samplesPerChunk_value. lia.
    + intros more. cbn [Nat.add]. rewrite Hstep, Hmore, Hrun. reflexivity.
Qed.

End Uninterrupted.

Lemma finite_delivery_sends_every_sample_witness :
  exists w' added,
    send_chunks cooperative 4 0%nat 0%nat 0%nat 0%nat loud_world
    = (Resolved 1%nat, w') /\
    trace w' = added /\
    sent_samples added = [100; -200; 32767; -32768] /\
    added = [CaptureFrame 0%nat [100; -200; 32767; -32768] 48000 1 4;
             SetTimeout 100].
Proof.
  destruct (finite_delivery_sends_every_sample cooperative
              (fun _ => eq_refl) (fun _ _ _ => eq_refl) 4 0%nat 0%nat 0%nat 0%nat
              loud_world)
    as (w' & added & Hrun & _ & Ht & Ha & Hs & Hn & _);
    [reflexivity|cbn; lia|cbn; lia|].
  exists w', added. split; [|split; [exact Ht|]].
  - rewrite Hrun, Hn. reflexivity.
  - split; [exact Hs|]. rewrite Ha. reflexivity.
Defined.


(** ** The fallback decoder *)

(** X9: Two bytes make one sample, a trailing odd byte is dropped, and every
    sample is a 16-bit value. *)
Theorem decode_s16le_samples (bytes : list Z) :
  length (decode_s16le bytes) = (length bytes / 2)%nat /\
  Forall int16 (decode_s16le bytes).
Proof.
  assert (H : forall n (bytes : list Z), (length bytes <= n)%nat ->
            length (decode_s16le bytes) = (length bytes / 2)%nat /\
            Forall int16 (decode_s16le bytes)).
  { induction n as [|n IH]; intros l Hl.
    - destruct l; [|cbn in Hl; lia]. split; [reflexivity|constructor].
    - destruct l as [|lo [|hi rest]]; try (split; [reflexivity|constructor]).
      destruct (IH rest) as [Hlen Hall]; [cbn in Hl; lia|].
      cbn [decode_s16le length]. split.
      + rewrite Hlen.
        replace (S (S (length rest))) with (length rest + 1 * 2)%nat by lia.
        rewrite Nat.div_add by lia. lia.
      + constructor; [|exact Hall]. unfold int16.
        pose proof (Z.mod_pos_bound lo 256 ltac:(lia)).
        pose proof (Z.mod_pos_bound hi 256 ltac:(lia)).
        destruct (32768 <=? lo mod 256 + 256 * (hi mod 256)) eqn:E;
          [apply Z.leb_le in E|apply Z.leb_gt in E]; lia. }
  apply (H (length bytes)). lia.
Qed.

Section Fallback.

Context (ext : External).

Lemma convert_events_chunks (input : Input) (events : list ProcEvent)
  (chunks : list (list Z)) (errorOutput : string) (w : World) :
  exists chunks' errorOutput' w',
    convert_events ext input events chunks errorOutput w
    = (Resolved (chunks', errorOutput'), w') /\
    concat chunks' = concat chunks ++ stdout_of events /\
    this w' = this w /\ heap w' = heap w.
Proof.
  revert chunks errorOutput w.
  induction events as [|ev events IH]; intros chunks errorOutput w.
  - eexists _, _, _. split; [reflexivity|]. cbn. rewrite app_nil_r. auto.
  - destruct ev; cbn [convert_events stdout_of flat_map]; fold (stdout_of events);
      try (rewrite app_nil_l; apply IH).
    + destruct (IH (chunks ++ [bytes]) errorOutput w) as (c & e & w' & Hrun & Hc & Hrest).
      eexists _, _, _. split; [exact Hrun|]. split; [|exact Hrest].
      rewrite Hc, concat_app. cbn [concat]. rewrite app_nil_r, <- app_assoc.
      reflexivity.
    + unfold emit, console_error. run.
      match goal with
      | |- context [convert_events ext input events chunks errorOutput ?w0] =>
          destruct (IH chunks errorOutput w0) as (c & e & w' & Hrun & Hc & Hrest)
      end.
      rewrite Hrun. eexists _, _, _. split; [reflexivity|]. auto.
    + destruct input; unfold console_error; run.
      * apply IH.
      * match goal with
        | |- context [convert_events ext ?i events chunks errorOutput ?w0] =>
            destruct (IH chunks errorOutput w0) as (c & e0 & w' & Hrun & Hc & Hrest)
        end.
        rewrite Hrun. eexists _, _, _. split; [reflexivity|]. auto.
Qed.

(** X10: When the fallback decoder exits with status 0, [convertAudioToPCM]
    resolves with a fresh array holding the samples decoded from what the
    process wrote to its standard output, in the order of arrival; what it
    wrote to its error stream and the events of the input stream leave the
    result alone.  The sample count is announced by [conversionEnd]. *)
Theorem convertAudioToPCM_fallback_result (input : Input)
  (sampleRate channels : Z) (w : World) (run : ProcRun) :
  isNodeAVAvailable ext = false ->
  (forall t, ffmpeg ext t (ffmpeg_args input sampleRate channels) = run) ->
  proc_close run = Some (Some 0) ->
  let samples := decode_s16le (stdout_of (proc_events run)) in
  exists result w',
    convertAudioToPCM ext input sampleRate channels w = (Resolved result, w') /\
    result = length (heap w) /\
    heap w' = heap w ++ [samples] /\
    this w' = this w /\
    In (Emit (Ev_conversionEnd (sourceDesc input) (length samples))) (trace w').
Proof.
  intros Hav Hrun Hclose samples. unfold convertAudioToPCM, emit. run.
  rewrite Hav. run. rewrite Hrun.
  match goal with
  | |- context [convert_events ext input ?evs [] "" ?w0] =>
      destruct (convert_events_chunks input evs [] "" w0)
        as (c & e & w1 & Hev & Hc & Hthis & Hheap)
  end.
  rewrite Hev, Hclose. cbn [fst snd]. unfold convert_on_close.
  rewrite bool_decide_eq_true_2 by reflexivity.
  unfold alloc_Int16Array, emit. run. rewrite Hc. cbn [concat app].
  fold samples. eexists _, _. split; [reflexivity|]. cbn [heap this trace].
  cbn [this heap] in Hthis, Hheap.
  split; [rewrite Hheap; reflexivity|]. split; [rewrite Hheap; reflexivity|].
  split; [exact Hthis|].
  apply in_or_app. left. apply in_or_app. right. left. reflexivity.
Qed.

End Fallback.

Lemma convertAudioToPCM_fallback_result_witness :
  exists result w',
    convertAudioToPCM working_ffmpeg (In_stream (mkReadable 0)) 48000 1
      (fresh "c" "s") = (Resolved result, w') /\
    heap w' = [[1; -1]].
Proof.
  destruct (convertAudioToPCM_fallback_result working_ffmpeg
              (In_stream (mkReadable 0)) 48000 1 (fresh "c" "s")
              (mkProcRun [Stdout_data [1; 0; 255]; Stderr_data "size=";
                          Input_end; Stdout_data [255; 7]] (Some (Some 0))))
    as (result & w' & Hrun & _ & Hheap & _);
    [reflexivity|reflexivity|reflexivity|].
  exists result, w'. split; [exact Hrun|exact Hheap].
Defined.


(** ** Playback that cannot start *)

Section Cannot_start.

Context (ext : External).


(** X12: Without a room nothing is delivered.  [publishPCMAudio] rejects and
    leaves the world as it was; [playStreamingAudio] rejects with the same
    message but has already lowered the stop flag and raised
    [isStreaming], which stays up. *)
Theorem delivery_requires_room (w : World) :
  room (this w) = None ->
  let not_connected :=
    new_Error ("Not connected to voice channel " +:+ channelId (this w)
               +:+ ". Call connect() first.") in
  (forall pcmData,
     publishPCMAudio ext pcmData w = (Rejected not_connected, w)) /\
  (forall audioStream source type,
     playStreamingAudio ext audioStream source type w
     = (Rejected not_connected,
        updated w (with_isStreaming true (with_shouldStop false (this w)))
                (trace w))).
Proof.
  intros Hroom nc. split.
  - intros pcmData. unfold publishPCMAudio. run. rewrite Hroom. reflexivity.
  - intros audioStream source type. unfold playStreamingAudio. run. fields.
    rewrite Hroom. reflexivity.
Qed.

End Cannot_start.


Lemma delivery_requires_room_witness :
  fst (publishPCMAudio cooperative 0%nat (fresh "c" "s"))
  = Rejected (new_Error "Not connected to voice channel c. Call connect() first.") /\
  isStreaming (this (snd (playStreamingAudio cooperative (mkReadable 0) None None
                            (fresh "c" "s")))) = true.
Proof.
  destruct (delivery_requires_room cooperative (fresh "c" "s") eq_refl) as [Hp Hs].
  rewrite Hp, Hs. split; reflexivity.
Defined.





(** ** Live delivery *)

Section Live_delivery.

Context (ext : External).
















End Live_delivery.



(** ** Invariants of the connection state *)

Section Keeping.

Context (ext : External) (I : AudioPlayer -> Prop).
Hypothesis I_reads : reads_resources I.

Lemma keeps_ret {A : Type} (a : A) : keeps I (ret a).
Proof. intros w H. exact H. Qed.

Lemma keeps_throw {A : Type} (e : JsError) : keeps I (throw e : M A).
Proof. intros w H. exact H. Qed.

Lemma keeps_never {A : Type} : keeps I (never : M A).
Proof. intros w H. exact H. Qed.

Lemma keeps_act (a : Action) : keeps I (act a).
Proof. intros w H. exact H. Qed.

Lemma keeps_bind {A B : Type} (m : M A) (k : A -> M B) :
  keeps I m -> (forall a, keeps I (k a)) -> keeps I (bind m k).
Proof.
  intros Hm Hk w H. specialize (Hm w H). unfold bind.
  destruct (m w) as [[a|e|] w1]; cbn [snd] in *; auto. apply Hk, Hm.
Qed.

Lemma keeps_catch {A : Type} (m : M A) (h : JsError -> M A) :
  keeps I m -> (forall e, keeps I (h e)) -> keeps I (try_catch m h).
Proof.
  intros Hm Hh w H. specialize (Hm w H). unfold try_catch.
  destruct (m w) as [[a|e|] w1]; cbn [snd] in *; auto. apply Hh, Hm.
Qed.

Lemma keeps_get_this {A : Type} (k : AudioPlayer -> M A) :
  (forall p, keeps I (k p)) -> keeps I (bind get_this k).
Proof. intros Hk. apply keeps_bind; [|exact Hk]. intros w H. exact H. Qed.

Lemma keeps_get_trace {A : Type} (k : list Action -> M A) :
  (forall t, keeps I (k t)) -> keeps I (bind get_trace k).
Proof. intros Hk. apply keeps_bind; [|exact Hk]. intros w H. exact H. Qed.

Lemma keeps_modify (f : AudioPlayer -> AudioPlayer) :
  (forall p, I p -> I (f p)) -> keeps I (modify_this f).
Proof. intros Hf w H. apply Hf, H. Qed.

(** Fields that [I] does not read. *)
Lemma keeps_other (f : AudioPlayer -> AudioPlayer) :
  (forall p, room (f p) = room p /\ isConnected (f p) = isConnected p /\
             publications (f p) = publications p /\
             audioSources (f p) = audioSources p) ->
  keeps I (modify_this f).
Proof.
  intros Hf. apply keeps_modify. intros p H.
  destruct (Hf p) as (? & ? & ? & ?). apply (I_reads p); auto.
Qed.

Lemma keeps_run_once_listeners (ls : list OnceListener) :
  keeps I (run_once_listeners ls).
Proof.
  induction ls as [|l ls IH]; [apply keeps_ret|].
  cbn [run_once_listeners]. apply keeps_bind; [|intros _; exact IH].
  destruct l; cbn [run_once_listener].
  - apply keeps_other. intros p. repeat split.
  - apply keeps_bind; [|intros _; apply keeps_act].
    apply keeps_other. intros p. repeat split.
Qed.

Lemma keeps_emit (e : Event) : keeps I (emit ext e).
Proof.
  unfold emit. apply keeps_bind; [apply keeps_act|]. intros _.
  destruct e; try apply keeps_ret.
  - apply keeps_get_this. intros p. apply keeps_bind.
    + apply keeps_other. intros q. repeat split.
    + intros _. apply keeps_run_once_listeners.
  - destruct (error_listener ext); [apply keeps_ret|apply keeps_throw].
Qed.

Lemma keeps_console_error (text : string) (detail : option JsError) :
  keeps I (console_error text detail).
Proof. apply keeps_act. Qed.

Lemma keeps_setVolume (level : number) : keeps I (setVolume ext level).
Proof.
  unfold setVolume. apply keeps_get_this. intros p.
  apply keeps_bind; [apply keeps_other; intros q; repeat split|]. intros _.
  apply keeps_get_this. intros p'.
  apply keeps_bind; intros; apply keeps_emit.
Qed.

Lemma keeps_negotiate (channel node : string) :
  keeps I (negotiate ext channel node).
Proof.
  assert (Hpost : forall force, keeps I (post_join_call ext channel node force)).
  { intros force. unfold post_join_call. apply keeps_get_trace. intros t.
    apply keeps_bind; [apply keeps_act|]. intros _.
    destruct (api_post ext t _ node force); [apply keeps_throw|apply keeps_ret]. }
  unfold negotiate. apply keeps_catch; [apply Hpost|]. intros joinError.
  destruct (is_AlreadyConnected joinError); [|apply keeps_throw].
  apply keeps_catch.
  - apply keeps_bind; [|intros _; apply Hpost].
    unfold delete_join_call. apply keeps_get_trace. intros t.
    apply keeps_bind; [apply keeps_act|]. intros _.
    destruct (api_delete ext t _); [apply keeps_throw|apply keeps_ret].
  - intros deleteError. apply keeps_catch; [apply Hpost|].
    intros forceError. apply keeps_throw.
Qed.

Lemma keeps_selectedNode : keeps I (selectedNode ext).
Proof.
  unfold selectedNode. destruct (voiceOptions_nodes ext) as [[|name nodes]|];
    first [apply keeps_ret|apply keeps_throw].
Qed.

Lemma keeps_connection_failed (channel : string) (error : JsError) :
  keeps I (connection_failed ext channel error).
Proof.
  unfold connection_failed. apply keeps_bind; [apply keeps_emit|]. intros _.
  apply keeps_bind; [apply keeps_console_error|]. intros _. apply keeps_throw.
Qed.

Lemma keeps_unpublish (trackSid : string) : keeps I (unpublish ext trackSid).
Proof.
  unfold unpublish. apply keeps_get_this. intros p.
  destruct (room p) as [r|]; [|apply keeps_throw].
  apply keeps_get_trace. intros t.
  destruct (room_localParticipant ext t r); [|apply keeps_ret].
  apply keeps_bind; [apply keeps_act|]. intros _.
  destruct (unpublishTrack ext t r trackSid); [apply keeps_throw|apply keeps_ret].
Qed.

Lemma keeps_stop_all (pubs : list (string * LocalTrackPublication)) :
  keeps I (stop_all ext pubs).
Proof.
  induction pubs as [|[key publication] pubs IH]; [apply keeps_ret|].
  cbn [stop_all]. apply keeps_bind; [|intros _; exact IH].
  apply keeps_catch.
  - apply keeps_bind; [apply keeps_unpublish|intros _; apply keeps_emit].
  - intros error. apply keeps_get_this. intros p. apply keeps_console_error.
Qed.

Lemma keeps_alloc_Int16Array (samples : list Z) :
  keeps I (alloc_Int16Array samples).
Proof. intros w H. exact H. Qed.

Lemma keeps_convert_events (input : Input) (events : list ProcEvent)
  (chunks : list (list Z)) (errorOutput : string) :
  keeps I (convert_events ext input events chunks errorOutput).
Proof.
  revert chunks errorOutput.
  induction events as [|ev events IH]; intros chunks errorOutput;
    [apply keeps_ret|].
  destruct ev; cbn [convert_events]; try apply IH.
  - apply keeps_bind; [apply keeps_emit|]. intros _.
    apply keeps_bind; [apply keeps_console_error|]. intros _. apply IH.
  - apply keeps_bind; [|intros _; apply IH].
    destruct input; [apply keeps_ret|].
    apply keeps_bind; [apply keeps_act|intros _; apply keeps_console_error].
Qed.

Lemma keeps_convertAudioToPCM (input : Input) (sampleRate channels : Z) :
  keeps I (convertAudioToPCM ext input sampleRate channels).
Proof.
  unfold convertAudioToPCM. apply keeps_bind; [apply keeps_emit|]. intros _.
  destruct (isNodeAVAvailable ext).
  - apply keeps_bind; [apply keeps_emit|]. intros _.
    apply keeps_get_trace. intros t.
    apply keeps_bind; [apply keeps_act|]. intros _.
    destruct (nodeAV_convertAudioToPCM ext t input);
      [apply keeps_alloc_Int16Array|apply keeps_throw|apply keeps_never].
  - apply keeps_bind; [apply keeps_emit|]. intros _.
    apply keeps_get_trace. intros t.
    apply keeps_bind; [apply keeps_act|]. intros _.
    apply keeps_bind; [apply keeps_convert_events|]. intros st.
    destruct (proc_close _); [|apply keeps_never].
    unfold convert_on_close. destruct (bool_decide _).
    + apply keeps_bind; [apply keeps_alloc_Int16Array|]. intros pcm.
      apply keeps_bind; [apply keeps_emit|]. intros _.
      apply keeps_bind; [apply keeps_emit|]. intros _. apply keeps_ret.
    + apply keeps_bind; [apply keeps_emit|]. intros _.
      apply keeps_bind; [apply keeps_console_error|]. intros _.
      apply keeps_never.
Qed.

End Keeping.

Lemma coherent_reads : reads_resources coherent.
Proof.
  intros p p' Hr Hc Hp Ha H. unfold coherent in *.
  rewrite Hr, Hc, Hp, Ha. exact H.
Qed.

Lemma holds_room_reads : reads_resources holds_room.
Proof. intros p p' Hr _ _ _ H. unfold holds_room in *. rewrite Hr. exact H. Qed.

Lemma holds_room_coherent (p : AudioPlayer) : holds_room p -> coherent p.
Proof. intros H Hnone. contradiction. Qed.

Section Coherence.

Context (ext : External).

(** Removing publications never breaks coherence. *)
Lemma coherent_fewer (pubs : list (string * LocalTrackPublication))
  (p : AudioPlayer) :
  (publications p = [] -> pubs = []) ->
  coherent p -> coherent (with_publications pubs p).
Proof.
  intros Hless H Hnone. destruct (H Hnone) as (Hc & Hp & Ha).
  fields. auto.
Qed.

Lemma keeps_stop (trackName : option string) : keeps coherent (stop ext trackName).
Proof.
  pose proof coherent_reads as R.
  assert (Hall : forall pubs,
            keeps coherent (stop_all ext pubs;; modify_this (with_publications []))).
  { intros pubs. apply keeps_bind; [apply keeps_stop_all, R|]. intros _.
    apply keeps_modify. intros p. apply coherent_fewer. reflexivity. }
  unfold stop.
  apply keeps_bind; [apply (keeps_other _ R); intros q; repeat split|]. intros _.
  apply keeps_bind; [apply (keeps_other _ R); intros q; repeat split|]. intros _.
  apply keeps_get_this. intros p.
  destruct (room p); [|apply keeps_ret].
  destruct trackName as [name|]; [|apply Hall].
  destruct (String.eqb name ""); [apply Hall|].
  destruct (Map_get name (publications p)) as [publication|]; [|apply keeps_ret].
  apply keeps_catch.
  - apply keeps_bind; [apply keeps_unpublish|]. intros _.
    apply keeps_bind; [|intros _; apply keeps_emit, R].
    apply keeps_modify. intros q. apply coherent_fewer.
    intros ->. reflexivity.
  - intros error. apply keeps_get_this. intros q. apply keeps_console_error.
Qed.

(** Once the room and the maps are cleared the player is coherent,
    whatever it was. *)
Lemma cleared_coherent (p : AudioPlayer) :
  coherent (with_room None (with_audioSources [] (with_publications []
             (with_isConnected false p)))).
Proof. intros _. repeat split. Qed.

Lemma keeps_handleDisconnected : keeps coherent (handleDisconnected ext).
Proof.
  intros w _. unfold handleDisconnected. run.
  match goal with
  | |- context [emit ext ?e ?w0] =>
      pose proof (keeps_bind coherent (emit ext e)
                    (fun _ => emit ext (Ev_debug "Voice disconnected unexpectedly"))
                    (keeps_emit ext coherent coherent_reads e)
                    (fun _ => keeps_emit ext coherent coherent_reads _) w0) as H
  end.
  apply H. intros _. repeat split.
Qed.

Lemma keeps_disconnect : keeps coherent (disconnect ext).
Proof.
  pose proof coherent_reads as R.
  intros w Hw. unfold disconnect. run.
  destruct (room (this w)) as [r|] eqn:Hroom; [|exact Hw].
  unfold try_catch.
  match goal with
  | |- context [bind (stop ext None) ?k w] => set (rest := k)
  end.
  assert (Hhandler : forall e w1,
            coherent (this (snd ((p <- get_this;;
              console_error ("❌ [" +:+ channelId p +:+ "] Error during disconnect:")
                            (Some e);;
              modify_this (with_isConnected false);;
              modify_this (with_publications []);;
              modify_this (with_audioSources []);;
              modify_this (with_room None);;
              throw e : M unit) w1)))).
  { intros e w1. unfold console_error. run. intros _. repeat split. }
  assert (Hbody : forall w1,
            match bind (stop ext None) rest w1 with
            | (Rejected _, _) => True
            | (_, w2) => coherent (this w2)
            end).
  { intros w1. unfold bind at 1.
    destruct (stop_run ext None w1) as (w2 & added & Hrun & _). rewrite Hrun.
    subst rest. run. fields.
    destruct (room (this w2)) as [r2|]; run; [|exact Logic.I].
    destruct (room_disconnect ext (trace w2) r2); run; [exact Logic.I|].
    fields.
    match goal with
    | |- context [emit ext (Ev_disconnected ?a ?b ?c) ?w0] =>
        pose proof (keeps_bind coherent (emit ext (Ev_disconnected a b c))
                      (fun _ => emit ext (Ev_debug "Disconnected manually"))
                      (keeps_emit ext coherent R _)
                      (fun _ => keeps_emit ext coherent R _) w0) as H;
        unfold bind in H;
        destruct (emit ext (Ev_disconnected a b c) w0) as [[[]|e|] w3]
    end; [| exact Logic.I |].
    - destruct (emit ext (Ev_debug "Disconnected manually") w3) as [[[]|e|] w4];
        [| exact Logic.I |]; apply H; intros _; repeat split.
    - apply H. intros _. repeat split. }
  specialize (Hbody w).
  destruct (bind (stop ext None) rest w) as [[[]|e|] w2]; cbn [snd]; auto.
Qed.

Lemma room_then {A : Type} (r : Room) (k : M A) :
  keeps holds_room k ->
  forall w, holds_room (this (snd ((modify_this (with_room (Some r));; k) w))).
Proof. intros Hk w. cbn [bind modify_this]. apply Hk. discriminate. Qed.

Lemma keeps_open_transport (channel : string) (response : JoinResponse) :
  keeps coherent (open_transport ext channel response).
Proof.
  pose proof holds_room_reads as R.
  intros w _. apply holds_room_coherent. unfold open_transport.
  unfold bind at 1, get_trace at 1. cbv beta iota zeta.
  unfold bind at 1, act at 1. cbv beta iota zeta.
  apply room_then.
  apply keeps_bind; [apply keeps_act|]. intros _.
  apply keeps_get_trace. intros t.
  apply keeps_bind; [apply keeps_act|]. intros _.
  apply keeps_bind.
  { destruct (room_connect ext _ _ _ _); [apply keeps_throw|apply keeps_ret]. }
  intros _. apply keeps_bind; [apply keeps_modify; intros q Hq; exact Hq|].
  intros _. apply keeps_get_this. intros p. apply keeps_get_trace. intros t'.
  apply keeps_bind; intros; apply keeps_emit, R.
Qed.

Lemma keeps_connect_to (channel : string) : keeps coherent (connect_to ext channel).
Proof.
  pose proof coherent_reads as R.
  unfold connect_to. apply keeps_bind; [apply keeps_emit, R|]. intros _.
  apply keeps_catch; [|intros e; apply keeps_connection_failed, R].
  apply keeps_bind; [apply keeps_selectedNode|]. intros node.
  apply keeps_bind; [apply keeps_negotiate|]. intros response.
  apply keeps_open_transport.
Qed.

Lemma keeps_connect (targetChannelId : option string) :
  keeps coherent (connect ext targetChannelId).
Proof.
  pose proof coherent_reads as R.
  unfold connect. apply keeps_get_this. intros p.
  destruct (isConnected p && negb _).
  - apply keeps_bind; [apply keeps_disconnect|]. intros _.
    apply keeps_bind; [apply (keeps_other _ R); intros q; repeat split|].
    intros _. apply keeps_connect_to.
  - destruct (isConnected p && _); [apply keeps_ret|apply keeps_connect_to].
Qed.

Lemma keeps_perform (c : Call) : keeps coherent (perform ext c).
Proof.
  pose proof coherent_reads as R.
  destruct c; cbn [perform].
  - apply keeps_connect.
  - apply keeps_disconnect.
  - apply keeps_stop.
  - apply keeps_setVolume, R.
  - unfold increaseVolume. apply keeps_get_this. intros p. apply keeps_setVolume, R.
  - unfold decreaseVolume. apply keeps_get_this. intros p. apply keeps_setVolume, R.
  - unfold mute. apply keeps_get_this. intros p.
    apply keeps_bind; [apply keeps_setVolume, R|intros _; apply keeps_emit, R].
  - unfold unmute. apply keeps_get_this. intros p.
    destruct (strict_eq _ _); [|apply keeps_ret].
    apply keeps_bind; [apply keeps_setVolume, R|intros _; apply keeps_emit, R].
  - apply keeps_handleDisconnected.
Qed.

(** X14: Every sequence of connection and volume calls and of
    [Disconnected] events of the room, run one after the other and
    whatever the collaborators answer, leaves a coherent player (a new
    one, for instance) coherent: without room it is not flagged connected
    and holds no publication and no audio source.  In particular the
    [connected] getter then agrees with the [isConnected] flag. *)
Theorem session_keeps_coherence (calls : list Call) (w : World) :
  coherent (this w) ->
  let p := this (session ext calls w) in
  coherent p /\ consistent p /\ connected p = isConnected p.
Proof.
  intros Hw p.
  assert (H : coherent p).
  { subst p. revert w Hw. induction calls as [|c calls IH]; intros w Hw.
    - exact Hw.
    - cbn [session fold_left]. apply IH. apply keeps_perform, Hw. }
  split; [exact H|]. split.
  - intros Hnone. destruct (H Hnone) as (_ & Hp & Ha). split; assumption.
  - unfold connected. destruct (room p) as [r|] eqn:Hr.
    + rewrite bool_decide_true by (exists r; reflexivity). apply andb_true_r.
    + destruct (H Hr) as (Hc & _). rewrite Hc. reflexivity.
Qed.

Lemma constructor_coherent (channel server : string) :
  coherent (constructor channel server).
Proof. intros _. repeat split. Qed.

End Coherence.

Lemma session_keeps_coherence_witness :
  let p := this (session flaky_unpublish
                   [Call_stop (Some "TR_good"); Room_disconnected;
                    Call_connect (Some "d"); Call_mute] two_tracks) in
  coherent p /\ consistent p /\ connected p = isConnected p.
Proof.
  apply (session_keeps_coherence flaky_unpublish).
  intros Hnone. discriminate Hnone.
Defined.

(** ** Playback of a stream without connection *)

Section Stream_without_room.

Context (ext : External).

(** X15: [play] on a readable stream never connects.  On a player without
    room the stream is still handed to the decoder; when the decoder
    delivers, the call rejects with the [Not connected] error, and
    otherwise it ends as the decoder did.  The player is left without
    room. *)
Theorem play_stream_does_not_connect (stream : Readable) (w : World) :
  room (this w) = None ->
  let w0 := updated w (with_isStreaming false (with_shouldStop false (this w)))
              (trace w ++ [Emit (Ev_debug "Auto-detected stream input");
                           Emit (Ev_audioStart "stream" "stream")]) in
  play ext (In_stream stream) w
  = (match convertAudioToPCM ext (In_stream stream) 48000 1 w0 with
    | (Resolved pcmData, w1) =>
        (Rejected (new_Error ("Not connected to voice channel "
                              +:+ channelId (this w1)
                              +:+ ". Call connect() first.")),
         logged w1 (trace w1 ++ [Emit (Ev_debug "PCM conversion completed")]))
    | (Rejected e, w1) => (Rejected e, w1)
    | (Pending, w1) => (Pending, w1)
    end) /\
  room (this (snd (play ext (In_stream stream) w))) = None.
Proof.
  intros Hroom w0.
  assert (Hplay : play ext (In_stream stream) w
                  = (pcmData <- convertAudioToPCM ext (In_stream stream) 48000 1;;
                     emit ext (Ev_debug "PCM conversion completed");;
                     publishPCMAudio ext pcmData;;
                     emit ext (Ev_debug "Audio publishing completed");;
                     emit ext (Ev_debug "Emitting audioEnd event");;
                     emit ext (Ev_audioEnd "stream" "stream")) w0).
  { unfold play, playFromStream. unfold emit at 1 2. run. fields.
    rewrite <- app_assoc. reflexivity. }
  assert (Hkeep : room (this (snd (convertAudioToPCM ext (In_stream stream) 48000 1 w0)))
                  = None).
  { apply (keeps_convertAudioToPCM ext (fun p => room p = None)).
    - intros p p' Hr _ _ _ H. congruence.
    - exact Hroom. }
  match goal with
  | |- ?equation /\ _ => assert (Hfirst : equation)
  end.
  { rewrite Hplay. unfold bind at 1.
    destruct (convertAudioToPCM ext (In_stream stream) 48000 1 w0) as [[pcm|e|] w1];
      cbn [snd] in Hkeep; try reflexivity.
    unfold emit at 1. unfold publishPCMAudio. run. rewrite Hkeep. reflexivity. }
  split; [exact Hfirst|]. rewrite Hfirst.
  destruct (convertAudioToPCM ext (In_stream stream) 48000 1 w0) as [[pcm|e|] w1];
    exact Hkeep.
Qed.

End Stream_without_room.

Lemma play_stream_does_not_connect_witness :
  exists e w',
    play cooperative (In_stream (mkReadable 0)) (fresh "c" "s") = (Rejected e, w') /\
    message e = Some "Not connected to voice channel c. Call connect() first." /\
    requests (trace w') = [].
Proof.
  destruct (play_stream_does_not_connect cooperative (mkReadable 0) (fresh "c" "s")
              eq_refl) as [Hplay _].
  rewrite Hplay. eexists _, _. split; [reflexivity|]. split; reflexivity.
Defined.
